(** * The idea-improvement engine of [app/api/improve/route.ts]

    A shallow embedding of [improveIdea]: the keyword classifier, the
    hint merge and the bilingual renderer, together with the properties
    the specification states about them.

    JavaScript strings are sequences of UTF-16 code units; they are
    modelled as lists of [N].  Arrays of strings that the code uses as
    ordered sets are lists, with [push], [includes] and
    [Array.from(new Set(..))] written out.  The body of [improveIdea]
    is given a second time with its arrays on a heap and the clock of
    the host read in passing ([improveIdeaM]), to state what one
    invocation leaves to the next. *)

From Stdlib Require Import List NArith ZArith Bool Ascii String Lia.
From Stdlib Require Import DecimalString.
Import ListNotations.

Local Open Scope string_scope.
Local Open Scope list_scope.
Local Open Scope N_scope.

(** ** Strings of UTF-16 code units *)

Definition unit16 := N.
Definition jsstring := list unit16.

Module Utf.

(** Source literals are written as they stand in the TypeScript file
    (UTF-8 text); [decode] turns the bytes into UTF-16 code units. *)

Definition cont (b : N) : N := N.land b 63.

Definition surrogates (cp : N) : jsstring :=
  let v := cp - 65536 in
  [55296 + N.shiftr v 10; 56320 + N.land v 1023].

Fixpoint decode (bs : list N) : jsstring :=
  match bs with
  | [] => []
  | b :: rest =>
      if b <? 128 then b :: decode rest
      else if b <? 224 then
        match rest with
        | b1 :: r => (N.land b 31 * 64 + cont b1) :: decode r
        | [] => [65533]
        end
      else if b <? 240 then
        match rest with
        | b1 :: b2 :: r =>
            (N.land b 15 * 4096 + cont b1 * 64 + cont b2) :: decode r
        | _ => [65533]
        end
      else
        match rest with
        | b1 :: b2 :: b3 :: r =>
            surrogates (N.land b 7 * 262144 + cont b1 * 4096
                        + cont b2 * 64 + cont b3) ++ decode r
        | _ => [65533]
        end
  end.

Fixpoint bytes (s : string) : list N :=
  match s with
  | EmptyString => []
  | String a s' => N_of_ascii a :: bytes s'
  end.

End Utf.

Definition js (s : string) : jsstring := Utf.decode (Utf.bytes s).
Definition jsl (l : list string) : list jsstring := map js l.

Fixpoint str_eqb (a b : jsstring) : bool :=
  match a, b with
  | [], [] => true
  | x :: a', y :: b' => (x =? y) && str_eqb a' b'
  | _, _ => false
  end.

(** [s.length > 0], the truthiness of a string. *)
Definition truthy (s : jsstring) : bool :=
  match s with [] => false | _ => true end.

(** [prefix.length <= s.length && s.startsWith(prefix)], returning the rest. *)
Fixpoint strip_prefix (p s : jsstring) : option jsstring :=
  match p, s with
  | [], _ => Some s
  | x :: p', y :: s' => if x =? y then strip_prefix p' s' else None
  | _ :: _, [] => None
  end.

(** [String.prototype.includes]. *)
Fixpoint str_includes (s w : jsstring) : bool :=
  match strip_prefix w s with
  | Some _ => true
  | None => match s with [] => false | _ :: s' => str_includes s' w end
  end.

(** [Array.prototype.join]. *)
Fixpoint join (sep : jsstring) (l : list jsstring) : jsstring :=
  match l with
  | [] => []
  | [x] => x
  | x :: l' => x ++ sep ++ join sep l'
  end.

(** ** White space and word characters *)

(** The ECMAScript [WhiteSpace] and [LineTerminator] code units: what
    [trim] strips and what [\s] matches. *)
Definition isSpace (c : unit16) : bool :=
  (c =? 9) || (c =? 10) || (c =? 11) || (c =? 12) || (c =? 13) || (c =? 32)
  || (c =? 160) || (c =? 5760) || ((8192 <=? c) && (c <=? 8202))
  || (c =? 8232) || (c =? 8233) || (c =? 8239) || (c =? 8287)
  || (c =? 12288) || (c =? 65279).

Definition isDigit (c : unit16) : bool := (48 <=? c) && (c <=? 57).
Definition isLowerAZ (c : unit16) : bool := (97 <=? c) && (c <=? 122).
Definition isUpperAZ (c : unit16) : bool := (65 <=? c) && (c <=? 90).

(** [\w] without the [u] and [i] flags: [A-Za-z0-9_]. *)
Definition isWord (c : unit16) : bool :=
  isLowerAZ c || isUpperAZ c || isDigit c || (c =? 95).

Fixpoint dropWhile {A} (p : A -> bool) (l : list A) : list A :=
  match l with
  | [] => []
  | x :: l' => if p x then dropWhile p l' else l
  end.

Definition dropWhileEnd {A} (p : A -> bool) (l : list A) : list A :=
  rev (dropWhile p (rev l)).

(** [String.prototype.trim]. *)
Definition trim (s : jsstring) : jsstring :=
  dropWhileEnd isSpace (dropWhile isSpace s).

(** ** Regular expressions

    The fragment of ECMAScript patterns the vocabulary tables use:
    literal text, [\s], [\b], concatenation, [|], [x?] and [\s*].
    None of the patterns carries a flag. *)

Inductive regex : Type :=
| Lit (s : jsstring)
| Space
| Bound
| Cat (a b : regex)
| Alt (a b : regex)
| Opt (a : regex)
| Spaces.

(** A position in the subject: the code unit just before it, if any, and
    what remains. *)
Definition cursor : Type := option unit16 * jsstring.

Definition isWordAt (o : option unit16) : bool :=
  match o with Some c => isWord c | None => false end.

Fixpoint last_or (o : option unit16) (s : jsstring) : option unit16 :=
  match s with
  | [] => o
  | c :: s' => last_or (Some c) s'
  end.

(** Every way of consuming a run of white space, longest first. *)
Fixpoint spaces_from (prev : option unit16) (s : jsstring) : list cursor :=
  match s with
  | c :: s' => if isSpace c then spaces_from (Some c) s' ++ [(prev, s)]
               else [(prev, s)]
  | [] => [(prev, s)]
  end.

(** The cursors a backtracking matcher can reach by matching [r] at a
    cursor, in the order it tries them. *)
Fixpoint rmatch (r : regex) (cur : cursor) : list cursor :=
  let '(prev, s) := cur in
  match r with
  | Lit w =>
      match strip_prefix w s with
      | Some rest => [(last_or prev w, rest)]
      | None => []
      end
  | Space =>
      match s with
      | c :: s' => if isSpace c then [(Some c, s')] else []
      | [] => []
      end
  | Bound =>
      if xorb (isWordAt prev) (isWordAt (hd_error s)) then [cur] else []
  | Cat a b => flat_map (rmatch b) (rmatch a cur)
  | Alt a b => rmatch a cur ++ rmatch b cur
  | Opt a => rmatch a cur ++ [cur]
  | Spaces => spaces_from prev s
  end.

Definition matches_at (r : regex) (cur : cursor) : bool :=
  match rmatch r cur with [] => false | _ => true end.

Fixpoint search (r : regex) (prev : option unit16) (s : jsstring) : bool :=
  matches_at r (prev, s)
  || match s with
     | [] => false
     | c :: s' => search r (Some c) s'
     end.

(** [RegExp.prototype.test] on a pattern without flags. *)
Definition test (r : regex) (s : jsstring) : bool := search r None s.

(** Pattern combinators, so that the tables below read like the source. *)
Definition lit (s : string) : regex := Lit (js s).

Fixpoint alts (r : regex) (l : list regex) : regex :=
  match l with
  | [] => r
  | r' :: l' => Alt r (alts r' l')
  end.

(** [a|b|...]; the tables never use it on an empty list. *)
Definition anyOf (l : list regex) : regex :=
  match l with
  | [] => Lit []
  | r :: l' => alts r l'
  end.

Fixpoint cat (l : list regex) : regex :=
  match l with
  | [] => Lit []
  | [r] => r
  | r :: l' => Cat r (cat l')
  end.

Definition words (l : list string) : regex := anyOf (map lit l).

(** ** Ordered sets of strings, as the code keeps them in arrays *)

(** [Array.prototype.includes] on an array of strings. *)
Definition includes (l : list jsstring) (x : jsstring) : bool :=
  existsb (str_eqb x) l.

(** [if (!l.includes(x)) l.push(x)]. *)
Definition pushNew (l : list jsstring) (x : jsstring) : list jsstring :=
  if includes l x then l else l ++ [x].

(** [Array.from(new Set(l))]: the first occurrence of each entry, in order. *)
Definition uniq (l : list jsstring) : list jsstring :=
  fold_left pushNew l [].

(** The hint loop
    [if (h?.length) for (const a of h) if (a && !l.includes(a)) l.push(a)]. *)
Definition pushHint (l : list jsstring) (a : jsstring) : list jsstring :=
  if truthy a then pushNew l a else l.

Definition mergeHints (l : list jsstring) (h : option (list jsstring))
  : list jsstring :=
  match h with
  | Some entries => fold_left pushHint entries l
  | None => l
  end.

(** [table.filter(([k]) => contains(k)).map(([, v]) => v)]. *)
Definition collect {K} (contains : K -> bool) (table : list (K * jsstring))
  : list jsstring :=
  map snd (filter (fun kv => contains (fst kv)) table).

(** ** Site types and hints *)

Inductive SiteType : Type :=
| saas | ecommerce | portfolio | restaurant | blog | event | booking | generic.

Definition allSiteTypes : list SiteType :=
  [saas; ecommerce; portfolio; restaurant; blog; event; booking; generic].

Definition siteTypeName (t : SiteType) : jsstring :=
  match t with
  | saas => js "saas"
  | ecommerce => js "ecommerce"
  | portfolio => js "portfolio"
  | restaurant => js "restaurant"
  | blog => js "blog"
  | event => js "event"
  | booking => js "booking"
  | generic => js "generic"
  end.

(** The [allowed] array of the site-type hint check. *)
Definition allowed : list jsstring := map siteTypeName allSiteTypes.

(** [allowed.includes(t)], with the site type that [t] then names. *)
Definition allowedSiteType (t : jsstring) : option SiteType :=
  find (fun ty => str_eqb (siteTypeName ty) t) allSiteTypes.

Inductive Lang : Type := en | ar.

Definition langName (l : Lang) : jsstring :=
  match l with en => js "en" | ar => js "ar" end.

Module Hints.

(** [ImproveHints]: every field is optional. *)
Record t : Type := mk {
  audience : option (list jsstring);
  siteType : option jsstring;
  tone : option (list jsstring);
  features : option (list jsstring);
  industries : option (list jsstring);
  regions : option (list jsstring);
  languages : option (list jsstring);
  currency : option jsstring;
  pages : option (list jsstring);
  requiresPayments : option bool;
  compliance : option (list jsstring);
  kpis : option (list jsstring);
  userStories : option (list jsstring);
  tech : option (list jsstring);
  contentChecklist : option (list jsstring);
  milestones : option (list jsstring);
  personas : option (list jsstring);
  projectMode : option bool;
  outputLang : option jsstring
}.

(** The hint object [{}]. *)
Definition none : t :=
  mk None None None None None None None None None None None None None None
     None None None None None.

(** [{...h, field: v}]. *)
Definition with_audience (v : list jsstring) (h : t) : t :=
  mk (Some v) (siteType h) (tone h) (features h) (industries h) (regions h)
    (languages h) (currency h) (pages h) (requiresPayments h) (compliance h)
    (kpis h) (userStories h) (tech h) (contentChecklist h) (milestones h)
    (personas h) (projectMode h) (outputLang h).

Definition with_siteType (v : jsstring) (h : t) : t :=
  mk (audience h) (Some v) (tone h) (features h) (industries h) (regions h)
    (languages h) (currency h) (pages h) (requiresPayments h) (compliance h)
    (kpis h) (userStories h) (tech h) (contentChecklist h) (milestones h)
    (personas h) (projectMode h) (outputLang h).

Definition with_features (v : list jsstring) (h : t) : t :=
  mk (audience h) (siteType h) (tone h) (Some v) (industries h) (regions h)
    (languages h) (currency h) (pages h) (requiresPayments h) (compliance h)
    (kpis h) (userStories h) (tech h) (contentChecklist h) (milestones h)
    (personas h) (projectMode h) (outputLang h).

Definition with_currency (v : jsstring) (h : t) : t :=
  mk (audience h) (siteType h) (tone h) (features h) (industries h)
    (regions h) (languages h) (Some v) (pages h) (requiresPayments h)
    (compliance h) (kpis h) (userStories h) (tech h) (contentChecklist h)
    (milestones h) (personas h) (projectMode h) (outputLang h).

Definition with_pages (v : list jsstring) (h : t) : t :=
  mk (audience h) (siteType h) (tone h) (features h) (industries h)
    (regions h) (languages h) (currency h) (Some v) (requiresPayments h)
    (compliance h) (kpis h) (userStories h) (tech h) (contentChecklist h)
    (milestones h) (personas h) (projectMode h) (outputLang h).

Definition with_requiresPayments (v : bool) (h : t) : t :=
  mk (audience h) (siteType h) (tone h) (features h) (industries h)
    (regions h) (languages h) (currency h) (pages h) (Some v) (compliance h)
    (kpis h) (userStories h) (tech h) (contentChecklist h) (milestones h)
    (personas h) (projectMode h) (outputLang h).

Definition with_projectMode (v : bool) (h : t) : t :=
  mk (audience h) (siteType h) (tone h) (features h) (industries h)
    (regions h) (languages h) (currency h) (pages h) (requiresPayments h)
    (compliance h) (kpis h) (userStories h) (tech h) (contentChecklist h)
    (milestones h) (personas h) (Some v) (outputLang h).

Definition with_outputLang (v : jsstring) (h : t) : t :=
  mk (audience h) (siteType h) (tone h) (features h) (industries h)
    (regions h) (languages h) (currency h) (pages h) (requiresPayments h)
    (compliance h) (kpis h) (userStories h) (tech h) (contentChecklist h)
    (milestones h) (personas h) (projectMode h) (Some v).

End Hints.

(** [hints?.field] for the optional argument [hints]. *)
Definition hint {A} (f : Hints.t -> option A) (hints : option Hints.t)
  : option A :=
  match hints with
  | Some h => f h
  | None => None
  end.

(** ** Vocabulary tables *)

Definition audienceHints : list (jsstring * jsstring) :=
  map (fun kv => (js (fst kv), js (snd kv)))
  [ ("designer", "Designers");
    ("designers", "Designers");
    ("مصمم", "Designers");
    ("مصممين", "Designers");
    ("developer", "Developers");
    ("developers", "Developers");
    ("مطور", "Developers");
    ("المطورين", "Developers");
    ("student", "Students");
    ("students", "Students");
    ("طالب", "Students");
    ("طلاب", "Students");
    ("photographer", "Photographers");
    ("photographers", "Photographers");
    ("مصور", "Photographers");
    ("المصورين", "Photographers");
    ("restaurant", "Local diners and food lovers");
    ("restaurants", "Local diners and food lovers");
    ("مطعم", "Local diners and food lovers");
    ("مطاعم", "Local diners and food lovers");
    ("nonprofit", "Donors and volunteers");
    ("nonprofits", "Donors and volunteers");
    ("جمعية", "Donors and volunteers");
    ("جمعيات", "Donors and volunteers");
    ("startup", "Early adopters and investors");
    ("startups", "Early adopters and investors");
    ("ناشئة", "Early adopters and investors");
    ("ستارت اب", "Early adopters and investors");
    ("ecommerce", "Online shoppers");
    ("shop", "Online shoppers");
    ("shoppers", "Online shoppers");
    ("متجر", "Online shoppers");
    ("متسوقين", "Online shoppers");
    ("parents", "Parents");
    ("أولياء الأمور", "Parents");
    ("teachers", "Teachers");
    ("معلمين", "Teachers");
    ("fitness", "Fitness enthusiasts");
    ("لياقة", "Fitness enthusiasts");
    ("realty", "Home buyers and sellers");
    ("realestate", "Home buyers and sellers");
    ("realtor", "Home buyers and sellers");
    ("عقارات", "Home buyers and sellers");
    ("b2b", "Business decision-makers");
    ("small", "Small business owners");
    ("مشروع صغير", "Small business owners") ].

Definition audienceFallback : jsstring :=
  js "Prospective customers and early adopters".

(** The category patterns of the site-type chain. *)
Definition saasPattern : regex :=
  anyOf [lit "saas"; lit "subscription"; lit "b2b"; lit "b2c";
         cat [lit "سوفت"; Opt Space; lit "وير"];
         cat [lit "خدمة"; Opt Space; lit "سحابية"]].

Definition ecommercePattern : regex :=
  words ["shop"; "store"; "ecommerce"; "checkout"; "cart"; "sell"; "buy";
         "product"; "متجر"; "سلة"; "عربة"; "شراء"; "بيع"; "منتج"; "الدفع";
         "تسوق"].

Definition portfolioPattern : regex :=
  words ["portfolio"; "case study"; "case studies"; "work"; "dribbble";
         "behance"; "photograph"; "أعمال"; "معرض"; "اعمالي"; "سيرة"].

Definition restaurantPattern : regex :=
  words ["restaurant"; "cafe"; "menu"; "reservation"; "reservations";
         "booking"; "مطعم"; "قائمة"; "حجز"; "حجوزات"].

Definition blogPattern : regex :=
  anyOf [lit "blog"; lit "articles"; lit "news"; lit "magazine";
         cat [lit "post"; Bound]; lit "مدونة"; lit "مقالات"; lit "أخبار"].

Definition eventPattern : regex :=
  words ["event"; "conference"; "meetup"; "summit"; "webinar"; "launch";
         "فعالية"; "مؤتمر"; "ندوة"; "قمة"; "ورشة"].

Definition bookingPattern : regex :=
  anyOf [cat [lit "book"; Opt (lit "ing")]; lit "schedule"; lit "calendar";
         lit "appointment"; lit "حجز"; lit "موعد"; lit "جدولة"; lit "تقويم"].

Definition projectPattern : regex :=
  anyOf [lit "project"; lit "مشروع"; lit "mvp"; lit "scope";
         cat [lit "requirement"; Opt (lit "s")]; lit "spec"; lit "brief";
         lit "proposal"; lit "plan"; lit "timeline";
         cat [lit "milestone"; Opt (lit "s")];
         cat [lit "deliverable"; Opt (lit "s")]].

(** The tone tests, one [if (contains(..)) toneWords.push(..)] each. *)
Definition toneTests : list (regex * jsstring) :=
  [ (words ["playful"; "مرح"; "مرِح"], js "playful");
    (words ["minimal"; "بسيط"; "مبسّط"], js "minimal");
    (words ["luxury"; "premium"; "فاخر"; "فخم"], js "premium");
    (words ["bold"; "جريء"], js "bold");
    (words ["friendly"; "ودود"; "لطيف"], js "friendly");
    (words ["confident"; "واثق"], js "confident");
    (words ["concise"; "موجز"], js "concise") ].

Definition toneFallback : list jsstring :=
  jsl ["friendly"; "confident"; "concise"].

Definition featureMap : list (regex * jsstring) :=
  [ (words ["pricing"; "plans"; "tiers"; "سعر"; "الأسعار"; "الخطط"],
     js "Pricing with clear plan comparison");
    (anyOf [lit "faq"; lit "questions"; lit "أسئلة";
            cat [lit "الأسئلة"; Spaces; lit "الشائعة"]], js "FAQ");
    (words ["blog"; "article"; "news"; "مدونة"; "مقال"; "أخبار"], js "Blog");
    (anyOf [lit "newsletter"; lit "subscribe"; lit "email list"; lit "النشرة";
            lit "اشترك"; cat [lit "قائمة"; Spaces; lit "بريد"]],
     js "Newsletter signup");
    (words ["testimonials"; "reviews"; "quotes"; "آراء"; "تقييمات"; "شهادات"],
     js "Testimonials");
    (words ["contact"; "support"; "help"; "اتصل"; "دعم"; "مساعدة"],
     js "Contact form");
    (words ["demo"; "trial"; "free trial"; "تجربة"; "عرض"],
     js "Free trial / demo request");
    (words ["login"; "signup"; "account"; "دخول"; "تسجيل"; "حساب"],
     js "Authentication (sign up / log in)");
    (words ["checkout"; "cart"; "buy"; "sell"; "product"; "الدفع"; "سلة";
            "شراء"; "بيع"; "منتج"], js "E-commerce checkout");
    (words ["booking"; "schedule"; "calendar"; "appointment"; "reservation";
            "حجز"; "موعد"; "جدولة"; "تقويم"], js "Booking / scheduling");
    (words ["search"; "بحث"], js "Site search") ].

Definition industryMap : list (regex * jsstring) :=
  [ (words ["health"; "clinic"; "hospital"; "medic"; "pharma"],
     js "Healthcare");
    (anyOf [lit "fintech"; lit "bank"; lit "payment"; lit "wallet";
            lit "loan"; lit "finance"; cat [lit "insur"; Opt (lit "tech")]],
     js "Fintech");
    (words ["education"; "school"; "university"; "course"; "learning";
            "edtech"; "teacher"; "student"], js "Education");
    (anyOf [cat [lit "real"; Opt Space; lit "estate"];
            cat [lit "realt"; words ["y"; "or"]]; lit "property"],
     js "Real Estate");
    (words ["travel"; "tour"; "flight"; "hotel"; "booking"; "trip";
            "tourism"], js "Travel");
    (words ["ngo"; "nonprofit"; "charity"; "donor"; "volunteer"],
     js "Nonprofit");
    (words ["food"; "restaurant"; "cafe"; "menu"; "delivery"; "kitchen"],
     js "Food & Beverage");
    (words ["photograph"; "photo"; "gallery"; "camera"], js "Photography");
    (words ["ecommerce"; "shop"; "store"; "product"; "cart"; "checkout"],
     js "E‑commerce");
    (words ["saas"; "software"; "b2b"; "b2c"], js "Software");
    (words ["event"; "conference"; "webinar"; "summit"], js "Events") ].

Definition arabicPattern : regex :=
  anyOf [lit "arabic"; lit "عرب"; lit "عربي"; lit "rtl";
         cat [Bound; lit "ar"; Bound]].

Definition regionMap : list (regex * jsstring) :=
  [ (anyOf [lit "egypt"; lit "egy"; cat [lit "eg"; Bound]; lit "cairo";
            lit "giza"; lit "alex"], js "Egypt");
    (anyOf [lit "ksa"; lit "saudi"; lit "riyadh";
            cat [lit "jed"; Opt (lit "d"); lit "ah"]; cat [lit "sa"; Bound]],
     js "Saudi Arabia");
    (anyOf [lit "uae"; lit "dubai"; cat [lit "abu"; Opt Space; lit "dhabi"];
            cat [lit "ae"; Bound]; lit "emirates"], js "UAE");
    (anyOf [lit "morocco"; cat [lit "ma"; Bound]; lit "casablanca";
            lit "rabat"], js "Morocco");
    (anyOf [lit "tunisia"; cat [lit "tn"; Bound]; lit "tunis"], js "Tunisia");
    (anyOf [lit "algeria"; cat [lit "dz"; Bound]; lit "algiers"],
     js "Algeria");
    (anyOf [lit "jordan"; cat [lit "jo"; Bound]; lit "amman"], js "Jordan");
    (anyOf [lit "iraq"; cat [lit "iq"; Bound]; lit "baghdad"], js "Iraq");
    (anyOf [lit "usa"; lit "united states"; cat [lit "us"; Bound];
            lit "america"], js "USA");
    (anyOf [lit "uk"; lit "united kingdom"; lit "london";
            cat [lit "gb"; Bound]; lit "great britain"], js "UK");
    (anyOf [lit "europe"; cat [lit "eu"; Bound]], js "Europe");
    (words ["global"; "worldwide"; "international"], js "Global") ].

Definition currencyHints : list (regex * jsstring) :=
  [ (words ["egp"; "جنيه"; "egypt"; "egy"], js "EGP");
    (words ["sar"; "ريال"; "ksa"; "saudi"], js "SAR");
    (words ["aed"; "درهم"; "uae"; "dubai"], js "AED");
    (anyOf [lit "usd"; lit "dollar"; lit "usa"; cat [lit "us"; Bound]],
     js "USD");
    (words ["eur"; "euro"], js "EUR");
    (words ["gbp"; "pound"; "uk"; "sterling"], js "GBP") ].

Definition paymentPattern : regex :=
  anyOf [lit "payment"; cat [lit "pay"; Bound]; lit "checkout"; lit "stripe";
         lit "paypal"; lit "paymob"; lit "fawry"; lit "mada"; lit "tabby";
         lit "tamara"].

(** The compliance tests, one [if (contains(..)) compliance.push(..)] each. *)
Definition complianceTests : list (regex * jsstring) :=
  [ (lit "gdpr", js "GDPR");
    (lit "hipaa", js "HIPAA");
    (lit "pci", js "PCI DSS");
    (anyOf [cat [lit "soc"; Spaces; lit "2"]; lit "soc2"], js "SOC 2") ].

(** ** Default tables, keyed by site type *)

Definition defaultFeaturesByType (t : SiteType) : list jsstring :=
  match t with
  | saas =>
      jsl ["Hero with value proposition and primary CTA";
           "Feature highlights"; "Social proof and testimonials";
           "Pricing plans"; "FAQ"; "Footer with legal links"]
  | ecommerce =>
      jsl ["Featured products grid"; "Product detail pages";
           "Cart and checkout"; "Trust badges and reviews";
           "Newsletter signup"]
  | portfolio =>
      jsl ["Selected work/gallery"; "About and services"; "Testimonials";
           "Contact form"; "Simple blog (optional)"]
  | restaurant =>
      jsl ["Hero with signature dish"; "Menu"; "Reservations / booking";
           "Location, hours, and map"; "Photo gallery"]
  | blog =>
      jsl ["Latest posts"; "Categories and tags"; "Author bio";
           "Newsletter signup"; "Search"]
  | event =>
      jsl ["Event overview"; "Agenda / schedule"; "Speakers";
           "Tickets / registration"; "FAQ"]
  | booking =>
      jsl ["Service overview"; "Calendar and availability"; "Pricing";
           "Testimonials"; "Contact"]
  | generic =>
      jsl ["Hero with value proposition"; "Problem / solution";
           "Key features"; "Social proof"; "Primary CTA"]
  end.

Definition sectionsByType (t : SiteType) : list jsstring :=
  match t with
  | saas =>
      jsl ["Hero"; "Problem"; "Solution"; "Features"; "Testimonials";
           "Pricing"; "FAQ"; "Footer"]
  | ecommerce =>
      jsl ["Hero"; "Featured Products"; "Collections"; "Product Detail";
           "Cart / Checkout"; "Footer"]
  | portfolio =>
      jsl ["Hero"; "Selected Work"; "About"; "Services"; "Testimonials";
           "Contact"]
  | restaurant =>
      jsl ["Hero"; "Menu"; "Gallery"; "Reservations"; "Location & Hours";
           "Contact"]
  | blog =>
      jsl ["Hero"; "Latest Posts"; "Categories"; "Featured Post"; "About";
           "Newsletter"]
  | event =>
      jsl ["Hero"; "About Event"; "Agenda"; "Speakers"; "Tickets"; "FAQ"]
  | booking =>
      jsl ["Hero"; "Services"; "Availability"; "Pricing"; "Testimonials";
           "Contact"]
  | generic =>
      jsl ["Hero"; "Benefits"; "Features"; "Social Proof"; "CTA"]
  end.

Definition typeLabel (t : SiteType) : jsstring :=
  match t with
  | saas => js "SaaS marketing site"
  | ecommerce => js "E‑commerce store"
  | portfolio => js "Portfolio site"
  | restaurant => js "Restaurant site"
  | blog => js "Blog / content hub"
  | event => js "Event landing page"
  | booking => js "Booking site"
  | generic => js "Landing page"
  end.

Definition typeLabelAr (t : SiteType) : jsstring :=
  match t with
  | saas => js "موقع تسويقي لخدمة سحابية"
  | ecommerce => js "متجر إلكتروني"
  | portfolio => js "موقع أعمال/معرض"
  | restaurant => js "موقع مطعم"
  | blog => js "مدونة / مركز محتوى"
  | event => js "صفحة هبوط لفعالية"
  | booking => js "موقع حجوزات"
  | generic => js "صفحة هبوط"
  end.

(** Arabic names of the sections. *)
Definition secAr : list (jsstring * jsstring) :=
  map (fun kv => (js (fst kv), js (snd kv)))
  [ ("Hero", "الرئيسية");
    ("Problem", "المشكلة");
    ("Solution", "الحل");
    ("Features", "الميزات");
    ("Testimonials", "آراء العملاء");
    ("Pricing", "الأسعار");
    ("FAQ", "الأسئلة الشائعة");
    ("Footer", "التذييل");
    ("Featured Products", "منتجات مميزة");
    ("Collections", "التصنيفات");
    ("Product Detail", "تفاصيل المنتج");
    ("Cart / Checkout", "السلة / الدفع");
    ("Selected Work", "أعمال مختارة");
    ("About", "من نحن");
    ("Services", "الخدمات");
    ("Contact", "اتصل بنا");
    ("Menu", "القائمة");
    ("Gallery", "معرض الصور");
    ("Reservations", "الحجوزات");
    ("Location & Hours", "الموقع وساعات العمل");
    ("Latest Posts", "أحدث المقالات");
    ("Categories", "التصنيفات");
    ("Featured Post", "مقال مميز");
    ("Newsletter", "النشرة البريدية");
    ("About Event", "عن الفعالية");
    ("Agenda", "الجدول");
    ("Speakers", "المتحدثون");
    ("Tickets", "التذاكر");
    ("Benefits", "الفوائد");
    ("CTA", "دعوة للإجراء") ].

(** Arabic names of the audience labels. *)
Definition audienceAr : list (jsstring * jsstring) :=
  map (fun kv => (js (fst kv), js (snd kv)))
  [ ("Designers", "المصممون");
    ("Developers", "المطورون");
    ("Students", "الطلاب");
    ("Photographers", "المصورون");
    ("Local diners and food lovers", "عشاق الطعام ورواد المطاعم");
    ("Donors and volunteers", "المتبرعون والمتطوعون");
    ("Early adopters and investors", "المتبنون الأوائل والمستثمرون");
    ("Online shoppers", "المتسوقون عبر الإنترنت");
    ("Parents", "أولياء الأمور");
    ("Teachers", "المعلمون");
    ("Fitness enthusiasts", "مهتمو اللياقة");
    ("Home buyers and sellers", "البائعون والمشترون للعقارات");
    ("Business decision-makers", "صنّاع القرار في الأعمال");
    ("Small business owners", "أصحاب المشاريع الصغيرة");
    ("Prospective customers and early adopters", "العملاء المحتملون والمبكرون") ].

(** Arabic names of the tone words. *)
Definition toneAr : list (jsstring * jsstring) :=
  map (fun kv => (js (fst kv), js (snd kv)))
  [ ("playful", "مرح");
    ("minimal", "بسيط");
    ("premium", "فاخر");
    ("bold", "جريء");
    ("friendly", "ودود");
    ("confident", "واثق");
    ("concise", "موجز") ].

(** The [map] inside [H]: Arabic headings, keyed by the English ones. *)
Definition headingAr : list (jsstring * jsstring) :=
  map (fun kv => (js (fst kv), js (snd kv)))
  [ ("Project overview", "نظرة عامة على المشروع");
    ("Target audience", "الجمهور المستهدف");
    ("Primary goals", "الأهداف الرئيسية");
    ("Tone & voice", "النبرة والأسلوب");
    ("Suggested site structure", "هيكل الموقع المقترح");
    ("Key features", "الميزات الأساسية");
    ("Content & CTAs", "المحتوى والدعوات للإجراء");
    ("Visual style", "الأسلوب البصري");
    ("Notes from the original idea", "ملاحظات من الفكرة الأصلية");
    ("Project blueprint", "مخطط المشروع");
    ("Scope", "النطاق");
    ("Pages & sitemap", "الصفحات وخريطة الموقع");
    ("User stories", "قصص المستخدم");
    ("Non-functional requirements", "متطلبات غير وظيفية");
    ("KPIs", "المؤشرات الرئيسية");
    ("Tech stack suggestions", "اقتراح التكديس التقني");
    ("Content checklist", "قائمة المحتوى");
    ("Milestones", "المعالم");
    ("Questions to clarify", "أسئلة توضيحية") ].

Definition pagesByType (t : SiteType) : list jsstring :=
  match t with
  | saas =>
      jsl ["Home"; "Features"; "Pricing"; "Docs"; "Changelog"; "Blog";
           "About"; "Contact"; "Login"; "Sign up"; "Dashboard"]
  | ecommerce =>
      jsl ["Home"; "Shop"; "Collections"; "Product"; "Cart"; "Checkout";
           "Account"; "Orders"; "Wishlist"; "Support"; "Blog"]
  | portfolio =>
      jsl ["Home"; "Work"; "About"; "Services"; "Testimonials"; "Contact";
           "Blog"]
  | restaurant =>
      jsl ["Home"; "Menu"; "Reservations"; "Gallery"; "Location & Hours";
           "About"; "Contact"]
  | blog =>
      jsl ["Home"; "Blog"; "Post"; "Categories"; "About"; "Contact";
           "Newsletter"]
  | event =>
      jsl ["Home"; "About Event"; "Agenda"; "Speakers"; "Tickets"; "FAQ";
           "Venue"; "Contact"]
  | booking =>
      jsl ["Home"; "Services"; "Availability"; "Pricing"; "Book"; "Account";
           "Contact"; "FAQ"]
  | generic =>
      jsl ["Home"; "About"; "Features"; "Pricing"; "Contact"; "Blog"]
  end.

Definition userStoriesBase : list jsstring :=
  jsl ["As a visitor, I understand the value within 5 seconds";
       "As a visitor, I can complete the primary CTA easily";
       "As a visitor, I can trust the product via social proof"].

Definition userStoriesByType (t : SiteType) : list jsstring :=
  match t with
  | saas =>
      jsl ["As a user, I can start a free trial";
           "As a user, I can manage my plan and billing";
           "As a user, I can reset my password";
           "As an admin, I can see key metrics in the dashboard"]
  | ecommerce =>
      jsl ["As a shopper, I can browse and filter products";
           "As a shopper, I can add items to cart";
           "As a shopper, I can checkout and pay securely";
           "As a user, I can view my orders"]
  | portfolio =>
      jsl ["As a client, I can view selected work";
           "As a client, I can contact for a quote"]
  | restaurant =>
      jsl ["As a guest, I can view the menu";
           "As a guest, I can book a table";
           "As a guest, I can see location and hours"]
  | blog =>
      jsl ["As a reader, I can read and search posts";
           "As a reader, I can subscribe to the newsletter"]
  | event =>
      jsl ["As an attendee, I can view agenda and speakers";
           "As an attendee, I can buy tickets and receive confirmation"]
  | booking =>
      jsl ["As a client, I can view availability";
           "As a client, I can book, reschedule, or cancel appointments"]
  | generic =>
      []
  end.

(** The initial value of [techSuggestions]. *)
Definition techBaseline : list jsstring :=
  jsl ["Next.js 14+"; "React"; "TypeScript"; "Tailwind CSS"; "shadcn/ui";
       "Prisma + PostgreSQL"; "NextAuth or similar";
       "Vercel or similar hosting"].

(** The entries of [nonFunctional] that are always present. *)
Definition nonFunctionalBase : list jsstring :=
  jsl ["Performance: LCP < 2.5s, TTI < 3.5s"; "Accessibility: WCAG 2.1 AA";
       "SEO: title/description, sitemap.xml, robots.txt, Open Graph";
       "Security: HTTPS, CSP, secrets management";
       "Analytics: conversion events and funnels"].

Definition kpisByType (t : SiteType) : list jsstring :=
  match t with
  | saas =>
      jsl ["Signup conversion rate"; "Activation rate"; "Upgrade rate"]
  | ecommerce =>
      jsl ["Add-to-cart rate"; "Checkout completion rate";
           "Average order value"]
  | portfolio =>
      jsl ["Contact inquiries"; "Proposal acceptance rate"]
  | restaurant =>
      jsl ["Reservation completion rate"; "Menu views"]
  | blog =>
      jsl ["Newsletter signups"; "Time on page"]
  | event =>
      jsl ["Ticket sales"; "Registration conversion"]
  | booking =>
      jsl ["Booking completion rate"; "No-show rate"]
  | generic =>
      jsl ["Primary CTA conversion"]
  end.

Definition contentChecklistBase : list jsstring :=
  jsl ["Clear headline and subheadline"; "Value proposition and benefits";
       "High-quality visuals or screenshots";
       "Social proof: logos, testimonials, ratings";
       "Pricing and plans (if applicable)"; "FAQ and contact methods"].

Definition milestonesBase : list jsstring :=
  jsl ["MVP skeleton (layout, navigation, theming)"; "Core flows implemented";
       "Content integration and SEO"; "QA: accessibility and performance";
       "Launch and analytics instrumentation"].

Definition personasBase : list jsstring :=
  jsl ["Visitor/Evaluator"; "Buyer/Decision-maker"; "Admin/Owner"].

(** The initial value of [clarifyingQuestions]. *)
Definition clarifyingBase : list jsstring :=
  jsl ["What is the brand/product name?";
       "What is the one-line value proposition?";
       "Who is the primary audience and which market/region?";
       "What is the primary CTA (e.g., sign up, book, buy)?";
       "Do you have existing branding (logo, colors, typography)?";
       "What integrations are required (e.g., analytics, CRM, payment)?";
       "What is the launch timeline and key milestones?";
       "What budget or constraints should we consider?"].

(** ** Text helpers of the renderer *)

(** [s.replace(/[class]+/g, by)] for a class of code units [p]: every
    maximal run of units in the class becomes one copy of [by].  [inRun]
    tells that the unit before belonged to the run being replaced. *)
Fixpoint replaceRuns (p : unit16 -> bool) (by_ : jsstring) (inRun : bool)
  (s : jsstring) : jsstring :=
  match s with
  | [] => []
  | c :: s' =>
      if p c then
        if inRun then replaceRuns p by_ true s'
        else by_ ++ replaceRuns p by_ true s'
      else c :: replaceRuns p by_ false s'
  end.

(** [s.split(/[class]+/)]: the pieces between the maximal runs of the
    class, empty first and last pieces included.  [cur] is the piece
    being read, reversed. *)
Fixpoint splitRuns (p : unit16 -> bool) (cur : jsstring) (inRun : bool)
  (s : jsstring) : list jsstring :=
  match s with
  | [] => [rev cur]
  | c :: s' =>
      if p c then
        if inRun then splitRuns p cur true s'
        else rev cur :: splitRuns p [] true s'
      else splitRuns p (c :: cur) false s'
  end.

(** A template literal [`- ${s}`]. *)
Definition bullet (s : jsstring) : jsstring := js "- " ++ s.

(** The separator ["\n"]. *)
Definition newline : jsstring := [10].

(** [l.map((s) => `- ${s}`).join("\n")]. *)
Definition bullets (l : list jsstring) : jsstring :=
  join newline (map bullet l).

(** [[...].filter(Boolean)] on an array of strings and [undefined]s. *)
Definition filterBoolean (l : list (option jsstring)) : list jsstring :=
  flat_map (fun o => match o with
                     | Some s => if truthy s then [s] else []
                     | None => []
                     end) l.

Fixpoint lookup (table : list (jsstring * jsstring)) (k : jsstring)
  : option jsstring :=
  match table with
  | [] => None
  | (k', v) :: rest => if str_eqb k' k then Some v else lookup rest k
  end.

(** ** The slug of a page name *)

Definition notSlugChar (c : unit16) : bool := negb (isLowerAZ c || isDigit c).

Definition hyphen : unit16 := 45.
Definition isHyphen (c : unit16) : bool := c =? hyphen.

(** [s.replace(/^-+|-+$/g, "")], scanning from the left: at index 0 the
    first alternative takes the leading hyphens; at any index the second
    alternative matches when only hyphens remain. *)
Fixpoint dropTrailingHyphens (s : jsstring) : jsstring :=
  match s with
  | [] => []
  | c :: s' =>
      if isHyphen c && forallb isHyphen s' then []
      else c :: dropTrailingHyphens s'
  end.

Definition stripEdgeHyphens (s : jsstring) : jsstring :=
  match s with
  | c :: _ => if isHyphen c then dropTrailingHyphens (dropWhile isHyphen s)
              else dropTrailingHyphens s
  | [] => []
  end.

(** ** The result of [improveIdea] *)

Module Sitemap.
Record entry : Type := mk { name : jsstring; path : jsstring }.
End Sitemap.

Module Details.

(** The [details] object. *)
Record t : Type := mk {
  audience : list jsstring;
  siteType : SiteType;
  siteTypeLabel : jsstring;
  tone : list jsstring;
  suggestedSections : list jsstring;
  defaultFeatures : list jsstring;
  detectedFeatures : list jsstring;
  selectedFeatures : list jsstring;
  ideaLength : nat;
  wordCount : nat;
  statedGoal : jsstring;
  projectMode : bool;
  industries : list jsstring;
  regions : list jsstring;
  languages : list jsstring;
  currency : jsstring;
  requiresPayments : bool;
  compliance : list jsstring;
  pages : list jsstring;
  sitemap : list Sitemap.entry;
  userStories : list jsstring;
  techSuggestions : list jsstring;
  nonFunctional : list jsstring;
  kpis : list jsstring;
  contentChecklist : list jsstring;
  milestones : list jsstring;
  personas : list jsstring;
  clarifyingQuestions : list jsstring;
  blueprint : option jsstring;
  outputLang : Lang
}.

End Details.

Record Output : Type := mkOutput {
  improved : jsstring;
  processingMs : Z;
  details : Details.t
}.

(** ** The engine *)

Section Engine.

(** What the host provides.  [toLowerCase] is
    [String.prototype.toLowerCase].  The translation tables are plain
    objects, so a key they do not own is still found when
    [Object.prototype] defines it: [inherited k] is the text such a
    property renders to when joined into a string, and [None] for every
    other key. *)
Variable toLowerCase : jsstring -> jsstring.
Variable inherited : jsstring -> option jsstring.

(** [table[k] || k]. *)
Definition translate (table : list (jsstring * jsstring)) (k : jsstring)
  : jsstring :=
  match lookup table k with
  | Some v => if truthy v then v else k
  | None => match inherited k with
            | Some v => v
            | None => k
            end
  end.

(** The argument of [contains]: a string or a pattern. *)
Inductive needle : Type :=
| Str (w : jsstring)
| Re (r : regex).

Section Run.

(** One invocation: the raw text, the hints, and the clock, whose
    [n]-th reading is what the [n]-th call of [Date.now()] returns. *)
Variable raw : jsstring.
Variable hints : option Hints.t.
Variable clock : nat -> Z.

Definition idea : jsstring := trim raw.
Definition lower : jsstring := toLowerCase idea.

Definition lang : Lang :=
  match hint Hints.outputLang hints with
  | Some l => if str_eqb l (js "ar") then ar else en
  | None => en
  end.

Definition contains (w : needle) : bool :=
  match w with
  | Str w => str_includes lower w
  | Re r => test r lower
  end.

Definition containsRe (r : regex) : bool := contains (Re r).

(** *** Audience *)

Definition audienceDetected : list jsstring :=
  let audience := collect (fun k => contains (Str k)) audienceHints in
  let audience :=
    match audience with [] => [audienceFallback] | _ => audience end in
  uniq audience.

Definition audience : list jsstring :=
  mergeHints audienceDetected (hint Hints.audience hints).

(** *** Site type and project mode *)

Definition siteTypeDetected : SiteType :=
  if containsRe saasPattern then saas
  else if containsRe ecommercePattern then ecommerce
  else if containsRe portfolioPattern then portfolio
  else if containsRe restaurantPattern then restaurant
  else if containsRe blogPattern then blog
  else if containsRe eventPattern then event
  else if containsRe bookingPattern then booking
  else generic.

Definition projectModeDetected : bool := containsRe projectPattern.

Definition siteType : SiteType :=
  match hint Hints.siteType hints with
  | Some h =>
      if truthy h then
        match allowedSiteType (toLowerCase h) with
        | Some t => t
        | None => siteTypeDetected
        end
      else siteTypeDetected
  | None => siteTypeDetected
  end.

Definition projectMode : bool :=
  match hint Hints.projectMode hints with
  | Some true => true
  | _ => projectModeDetected
  end.

(** *** Tone *)

Definition toneDetected : list jsstring :=
  match collect containsRe toneTests with
  | [] => toneFallback
  | toneWords => toneWords
  end.

Definition toneWords : list jsstring :=
  mergeHints toneDetected (hint Hints.tone hints).

(** *** Features *)

Definition featuresMatched : list jsstring :=
  uniq (collect containsRe featureMap).

Definition features : list jsstring :=
  mergeHints featuresMatched (hint Hints.features hints).

Definition statedGoal : jsstring :=
  match idea with
  | [] => []
  | _ => firstn 280 (replaceRuns isSpace (js " ") false idea)
  end.

Definition selectedFeatures : list jsstring :=
  uniq (defaultFeaturesByType siteType ++ features).

(** *** The improved prompt *)

Definition H (k : string) : jsstring :=
  match lang with
  | ar => translate headingAr (js k)
  | en => js k
  end.

Definition mapSection (s : jsstring) : jsstring :=
  match lang with ar => translate secAr s | en => s end.

Definition mapAudienceOut (arr : list jsstring) : list jsstring :=
  match lang with ar => map (translate audienceAr) arr | en => arr end.

Definition mapToneOut (arr : list jsstring) : list jsstring :=
  match lang with ar => map (translate toneAr) arr | en => arr end.

Definition primaryGoalsBullets : jsstring :=
  join newline
    match lang with
    | ar =>
        jsl ["- شرح المنتج/الخدمة بلغة بسيطة";
             "- بناء الثقة عبر الأدلة";
             "- توجيه الزائر إلى دعوة إجراء مركّزة (مثل التسجيل، الحجز، الشراء)"]
    | en =>
        jsl ["- Explain the product/service in plain language";
             "- Establish trust with proof";
             "- Guide visitors to a focused CTA (e.g., sign up, book, buy)"]
    end.

Definition contentCtasBullets : jsstring :=
  join newline
    match lang with
    | ar =>
        jsl ["- عنوان واضح يشرح القيمة";
             "- عنوان فرعي يوضح ماذا ومن ولأي نتيجة";
             "- دعوة إجراء أساسية أعلى الصفحة (وثابتة على الجوال)";
             "- دعوة إجراء ثانوية للتقييم (مثل: اعرف المزيد)";
             "- مؤشرات الثقة: شعارات، آراء، تقييمات"]
    | en =>
        jsl ["- Clear headline that states the value";
             "- Subheadline that clarifies what, who, and outcome";
             "- Primary CTA above the fold (sticky on mobile)";
             "- Secondary CTA for evaluation (e.g., Learn more)";
             "- Trust signals: logos, testimonials, ratings"]
    end.

Definition visualStyleBullets : jsstring :=
  join newline
    match lang with
    | ar =>
        jsl ["- تصميم نظيف وحديث وقابل للوصول";
             "- تباين عالٍ ومسافات مريحة وتصميم متجاوب";
             "- استخدام لون إبراز واحد وتناسق العناصر"]
    | en =>
        jsl ["- Clean, modern, accessible";
             "- High contrast, generous spacing, responsive layout";
             "- Use one accent color, consistent component styles"]
    end.

Definition audienceOut : list jsstring := mapAudienceOut audience.
Definition toneOut : list jsstring := mapToneOut toneWords.

Definition typeLabelOut : jsstring :=
  match lang with ar => typeLabelAr siteType | en => typeLabel siteType end.

Definition sectionsOut : jsstring :=
  join newline (map (fun s => bullet (mapSection s))
                    (sectionsByType siteType)).

Definition overviewLine : jsstring :=
  match lang with
  | ar =>
      js "بناء " ++ typeLabelOut ++ js " موجه لـ "
      ++ join (js ", ") audienceOut
      ++ js ". الهدف هو توصيل القيمة بوضوح وزيادة التحويلات."
  | en =>
      js "Build a " ++ typeLabelOut ++ js " for "
      ++ join (js ", ") audienceOut
      ++ js ". The purpose is to clearly communicate value and drive conversions."
  end.

(** The array that [improved] filters and joins; [None] stands for
    [undefined]. *)
Definition improvedParts : list (option jsstring) :=
  [ Some (H "Project overview");
    Some overviewLine;
    Some [];
    Some (H "Target audience");
    Some (bullet (join (newline ++ js "- ") audienceOut));
    Some [];
    Some (H "Primary goals");
    Some primaryGoalsBullets;
    Some [];
    Some (H "Tone & voice");
    Some (bullet (join (js ", ") toneOut));
    Some [];
    Some (H "Suggested site structure");
    Some sectionsOut;
    Some [];
    Some (H "Key features");
    Some (bullets selectedFeatures);
    Some [];
    Some (H "Content & CTAs");
    Some contentCtasBullets;
    Some [];
    Some (H "Visual style");
    Some visualStyleBullets;
    Some [];
    (if truthy statedGoal then Some (H "Notes from the original idea")
     else None);
    (if truthy statedGoal then Some (bullet statedGoal) else None) ].

Definition improvedText : jsstring :=
  join newline (filterBoolean improvedParts).

(** *** Industry, language, region, currency, payments, compliance *)

Definition industriesDetected : list jsstring :=
  match uniq (collect containsRe industryMap) with
  | [] => [js "General"]
  | industries => industries
  end.

Definition industries : list jsstring :=
  mergeHints industriesDetected (hint Hints.industries hints).

Definition usesArabic : bool := containsRe arabicPattern.

Definition languagesDetected : list jsstring :=
  uniq (if usesArabic then jsl ["Arabic"; "English"] else jsl ["English"]).

Definition languages : list jsstring :=
  mergeHints languagesDetected (hint Hints.languages hints).

Definition regionsDetected : list jsstring :=
  match uniq (collect containsRe regionMap) with
  | [] => [js "Global"]
  | regions => regions
  end.

Definition regions : list jsstring :=
  mergeHints regionsDetected (hint Hints.regions hints).

(** The [for] loop over [currencyHints], which stops at the first match. *)
Fixpoint firstMatch (table : list (regex * jsstring)) (current : jsstring)
  : jsstring :=
  match table with
  | [] => current
  | (k, v) :: rest => if containsRe k then v else firstMatch rest current
  end.

Definition currencyDetected : jsstring :=
  firstMatch currencyHints (js "USD").

Definition currency : jsstring :=
  match hint Hints.currency hints with
  | Some c => if truthy c then c else currencyDetected
  | None => currencyDetected
  end.

Definition requiresPayments : bool :=
  includes features (js "E-commerce checkout")
  || containsRe paymentPattern.

(** [Boolean(hints?.requiresPayments ?? requiresPayments)]. *)
Definition requiresPaymentsFinal : bool :=
  match hint Hints.requiresPayments hints with
  | Some b => b
  | None => requiresPayments
  end.

Definition complianceDetected : list jsstring :=
  collect containsRe complianceTests.

Definition compliance : list jsstring :=
  mergeHints complianceDetected (hint Hints.compliance hints).

(** *** Pages and site map *)

Definition pagesBase : list jsstring :=
  let pages := uniq (pagesByType siteType) in
  if includes features (js "Blog") then pushNew pages (js "Blog")
  else pages.

Definition pages : list jsstring :=
  let pages := mergeHints pagesBase (hint Hints.pages hints) in
  if requiresPaymentsFinal
  then fold_left pushNew (jsl ["Billing"; "Checkout"]) pages
  else pages.

Definition slugify (s : jsstring) : jsstring :=
  js "/"
  ++ stripEdgeHyphens (replaceRuns notSlugChar (js "-") false
                         (toLowerCase s)).

Definition sitemap : list Sitemap.entry :=
  map (fun name => Sitemap.mk name (slugify name)) pages.

(** *** User stories, tech, requirements, KPIs, check lists *)

Definition userStoriesDefault : list jsstring :=
  uniq (userStoriesBase ++ userStoriesByType siteType).

Definition userStories : list jsstring :=
  mergeHints userStoriesDefault (hint Hints.userStories hints).

Definition techDefault : list jsstring :=
  let tech := techBaseline in
  let tech :=
    if requiresPaymentsFinal
    then tech ++ [js "Stripe (or regional: Paymob/Fawry/MADA)"]
    else tech in
  let tech :=
    if usesArabic then tech ++ [js "i18n with Arabic + RTL support"]
    else tech in
  let tech :=
    if includes features (js "Blog")
    then tech ++ [js "MDX or headless CMS (e.g., Sanity)"]
    else tech in
  uniq tech.

Definition techSuggestions : list jsstring :=
  mergeHints techDefault (hint Hints.tech hints).

Definition nonFunctional : list jsstring :=
  filterBoolean
    (map Some nonFunctionalBase
     ++ [if usesArabic
         then Some (js "Internationalization: RTL and Arabic typography")
         else None]).

Definition kpis : list jsstring :=
  mergeHints (kpisByType siteType) (hint Hints.kpis hints).

Definition contentChecklist : list jsstring :=
  mergeHints contentChecklistBase (hint Hints.contentChecklist hints).

Definition milestones : list jsstring :=
  mergeHints milestonesBase (hint Hints.milestones hints).

Definition personas : list jsstring :=
  mergeHints personasBase (hint Hints.personas hints).

(** [if (c) clarifyingQuestions.push(q)]. *)
Definition pushIf (c : bool) (q : string) (l : list jsstring)
  : list jsstring :=
  if c then l ++ [js q] else l.

Definition isSiteType (t : SiteType) : bool :=
  str_eqb (siteTypeName siteType) (siteTypeName t).

Definition clarifyingQuestions : list jsstring :=
  let q := clarifyingBase in
  let q := pushIf requiresPaymentsFinal
    "Which payment gateways do you prefer (Stripe, Paymob, Fawry, MADA, etc.) and which currency to charge?" q in
  let q := pushIf (includes languages (js "Arabic"))
    "Do you require Arabic RTL support and translation for all pages?" q in
  let q := pushIf (isSiteType ecommerce)
    "What is the product catalog size, categories, variants, shipping/returns policy?" q in
  let q := pushIf (isSiteType saas)
    "What is the pricing model (free, freemium, trial), onboarding flow, and docs scope?" q in
  let q := pushIf (isSiteType booking)
    "What services, durations, availability rules, and rescheduling/cancellation policies apply?" q in
  let q := pushIf (isSiteType event)
    "What ticket types, seating, speakers, and content schedule are expected?" q in
  pushIf (match compliance with [] => false | _ => true end)
    "Do you need legal pages (Privacy, Terms, Cookies) and data retention policies aligned with compliance?" q.

(** *** The project blueprint *)

Definition scopeLine (arLabel enLabel : string) (value : jsstring)
  : jsstring :=
  match lang with
  | ar => js arLabel ++ value
  | en => js enLabel ++ value
  end.

Definition projectBlueprint : jsstring :=
  join newline
    [ H "Project blueprint";
      H "Scope";
      scopeLine "- الصناعة: " "- Industry: " (join (js ", ") industries);
      scopeLine "- المناطق: " "- Regions: " (join (js ", ") regions);
      scopeLine "- اللغات: " "- Languages: " (join (js ", ") languages);
      scopeLine "- العملة: " "- Currency: " currency;
      [];
      H "Pages & sitemap";
      join newline
        (map (fun p => js "- " ++ Sitemap.name p ++ js " ("
                       ++ Sitemap.path p ++ js ")") sitemap);
      [];
      H "User stories";
      bullets userStories;
      [];
      H "Non-functional requirements";
      bullets nonFunctional;
      [];
      H "KPIs";
      bullets kpis;
      [];
      H "Tech stack suggestions";
      bullets techSuggestions;
      [];
      H "Content checklist";
      bullets contentChecklist;
      [];
      H "Milestones";
      bullets milestones;
      [];
      H "Questions to clarify";
      bullets clarifyingQuestions ].

(** *** The result *)

Definition wordCount : nat :=
  match idea with
  | [] => 0%nat
  | _ => List.length (filter truthy (splitRuns isSpace [] false idea))
  end.

Definition detailsOf : Details.t :=
  {| Details.audience := audience;
     Details.siteType := siteType;
     Details.siteTypeLabel := typeLabel siteType;
     Details.tone := toneWords;
     Details.suggestedSections := sectionsByType siteType;
     Details.defaultFeatures := defaultFeaturesByType siteType;
     Details.detectedFeatures := features;
     Details.selectedFeatures := selectedFeatures;
     Details.ideaLength := List.length idea;
     Details.wordCount := wordCount;
     Details.statedGoal := statedGoal;
     Details.projectMode := projectMode;
     Details.industries := industries;
     Details.regions := regions;
     Details.languages := languages;
     Details.currency := currency;
     Details.requiresPayments := requiresPaymentsFinal;
     Details.compliance := compliance;
     Details.pages := pages;
     Details.sitemap := sitemap;
     Details.userStories := userStories;
     Details.techSuggestions := techSuggestions;
     Details.nonFunctional := nonFunctional;
     Details.kpis := kpis;
     Details.contentChecklist := contentChecklist;
     Details.milestones := milestones;
     Details.personas := personas;
     Details.clarifyingQuestions := clarifyingQuestions;
     Details.blueprint :=
       if projectMode then Some projectBlueprint else None;
     Details.outputLang := lang |}.

Definition improveIdea : Output :=
  let startedAt := clock 0%nat in
  let processingMs := (clock 1%nat - startedAt)%Z in
  {| improved := improvedText;
     processingMs := processingMs;
     details := detailsOf |}.

End Run.

End Engine.

(** ** The route: client address, request schema, rate limit and cache *)

(** [s.split(sep)] for a one-unit separator: the pieces between the
    separators, never an empty array.  [cur] is the piece being read,
    reversed. *)
Fixpoint splitUnit (sep : unit16) (cur : jsstring) (s : jsstring)
  : list jsstring :=
  match s with
  | [] => [rev cur]
  | c :: s' =>
      if c =? sep then rev cur :: splitUnit sep [] s'
      else splitUnit sep (c :: cur) s'
  end.

Definition comma : unit16 := 44.

(** [getClientIp], on what [req.headers.get] returns for the two
    headers ([None] for [null]). *)
Definition getClientIp (xForwardedFor xRealIp : option jsstring) : jsstring :=
  match xForwardedFor with
  | Some ((_ :: _) as xf) => trim (hd [] (splitUnit comma [] xf))
  | _ =>
      match xRealIp with
      | Some ((_ :: _) as realIp) => trim realIp
      | _ => js "unknown"
      end
  end.

Definition CACHE_TTL_MS : Z := 60000.
Definition RATE_LIMIT : Z := 60.
Definition RATE_WINDOW_MS : Z := 60000.

Module JsMap.

(** A [Map] with string keys: the entries in insertion order, one per
    key. *)
Definition t (V : Type) : Type := list (jsstring * V).

Definition empty {V} : t V := [].

Fixpoint get {V} (m : t V) (k : jsstring) : option V :=
  match m with
  | [] => None
  | (k', v) :: m' => if str_eqb k' k then Some v else get m' k
  end.

(** [m.set(k, v)]: an existing key keeps its place. *)
Fixpoint set {V} (m : t V) (k : jsstring) (v : V) : t V :=
  match m with
  | [] => [(k, v)]
  | (k', v') :: m' =>
      if str_eqb k' k then (k', v) :: m' else (k', v') :: set m' k v
  end.

Definition keys {V} (m : t V) : list jsstring := map fst m.

End JsMap.

(** JSON values as [req.json()] delivers them, over the host's numbers.
    An object is the list of its properties; reading a property takes
    the last binding of the key, so that [{...a, ...b}] is [a ++ b]. *)
#[local] Set Warnings "-register-all".

Inductive json (number : Type) : Type :=
| JNull
| JBool (b : bool)
| JNum (n : number)
| JStr (s : jsstring)
| JArr (l : list (json number))
| JObj (o : list (jsstring * json number)).

Arguments JNull {number}.
Arguments JBool {number} b.
Arguments JNum {number} n.
Arguments JStr {number} s.
Arguments JArr {number} l.
Arguments JObj {number} o.

Definition object (number : Type) : Type := list (jsstring * json number).

(** [o[k]], [None] for [undefined]. *)
Fixpoint prop {number} (o : object number) (k : jsstring)
  : option (json number) :=
  match o with
  | [] => None
  | (k', v) :: o' =>
      match prop o' k with
      | Some w => Some w
      | None => if str_eqb k' k then Some v else None
      end
  end.

(** The own properties of an array: its elements under the keys "0",
    "1", ... *)
Fixpoint indexed {number} (i : nat) (l : list (json number)) : object number :=
  match l with
  | [] => []
  | v :: l' =>
      (js (NilEmpty.string_of_uint (Nat.to_uint i)), v) :: indexed (S i) l'
  end.

(** [typeof v === 'object' && v ? v : {}], ready to be spread. *)
Definition bag {number} (v : option (json number)) : object number :=
  match v with
  | Some (JObj o) => o
  | Some (JArr l) => indexed 0 l
  | _ => []
  end.

Module Schema.

(** The validators of the two schemas.  [None] is a failed parse. *)

Definition string {number} (v : json number) : option jsstring :=
  match v with JStr s => Some s | _ => None end.

Definition boolean {number} (v : json number) : option bool :=
  match v with JBool b => Some b | _ => None end.

(** [z.enum(names)]. *)
Definition enum {number} (names : list jsstring) (v : json number)
  : option jsstring :=
  match v with
  | JStr s => if includes names s then Some s else None
  | _ => None
  end.

Fixpoint strings {number} (l : list (json number)) : option (list jsstring) :=
  match l with
  | [] => Some []
  | JStr s :: l' =>
      match strings l' with
      | Some r => Some (s :: r)
      | None => None
      end
  | _ => None
  end.

(** [z.array(z.string())]. *)
Definition array {number} (v : json number) : option (list jsstring) :=
  match v with JArr l => strings l | _ => None end.

(** [.optional()]: a missing property parses to [undefined]. *)
Definition optional {number A} (p : json number -> option A)
  (v : option (json number)) : option (option A) :=
  match v with
  | None => Some None
  | Some j => match p j with Some a => Some (Some a) | None => None end
  end.

End Schema.

Notation "x <- c ;; k" := (match c with Some x => k | None => None end)
  (at level 61, c at next level, right associativity).

(** [hintsSchema.safeParse(o)], read field by field as [improveIdea]
    reads the result. *)
Definition parseHints {number} (o : object number) : option Hints.t :=
  audience <- Schema.optional Schema.array (prop o (js "audience")) ;;
  siteType <- Schema.optional (Schema.enum allowed) (prop o (js "siteType")) ;;
  tone <- Schema.optional Schema.array (prop o (js "tone")) ;;
  features <- Schema.optional Schema.array (prop o (js "features")) ;;
  industries <- Schema.optional Schema.array (prop o (js "industries")) ;;
  regions <- Schema.optional Schema.array (prop o (js "regions")) ;;
  languages <- Schema.optional Schema.array (prop o (js "languages")) ;;
  currency <- Schema.optional Schema.string (prop o (js "currency")) ;;
  pages <- Schema.optional Schema.array (prop o (js "pages")) ;;
  requiresPayments <-
    Schema.optional Schema.boolean (prop o (js "requiresPayments")) ;;
  compliance <- Schema.optional Schema.array (prop o (js "compliance")) ;;
  kpis <- Schema.optional Schema.array (prop o (js "kpis")) ;;
  userStories <- Schema.optional Schema.array (prop o (js "userStories")) ;;
  tech <- Schema.optional Schema.array (prop o (js "tech")) ;;
  contentChecklist <-
    Schema.optional Schema.array (prop o (js "contentChecklist")) ;;
  milestones <- Schema.optional Schema.array (prop o (js "milestones")) ;;
  personas <- Schema.optional Schema.array (prop o (js "personas")) ;;
  projectMode <- Schema.optional Schema.boolean (prop o (js "projectMode")) ;;
  outputLang <-
    Schema.optional (Schema.enum (jsl ["en"; "ar"]))
      (prop o (js "outputLang")) ;;
  Some (Hints.mk audience siteType tone features industries regions
          languages currency pages requiresPayments compliance kpis
          userStories tech contentChecklist milestones personas
          projectMode outputLang).

Module Parsed.

(** What [requestSchema] yields, as far as [POST] reads it. *)
Record t (number : Type) : Type := mk {
  idea : jsstring;
  details : option bool;
  verbose : option bool;
  outputLang : option jsstring;
  meta : option (json number);
  brief : option (json number);
  project : option (json number);
  hints : option (json number)
}.

Arguments mk {number}.
Arguments idea {number}.
Arguments details {number}.
Arguments verbose {number}.
Arguments outputLang {number}.
Arguments meta {number}.
Arguments brief {number}.
Arguments project {number}.
Arguments hints {number}.

End Parsed.

(** [requestSchema.safeParse(body)]. *)
Definition parseRequest {number} (body : json number)
  : option (Parsed.t number) :=
  match body with
  | JObj o =>
      match prop o (js "idea") with
      | Some (JStr s) =>
          if truthy (trim s) then
            details <- Schema.optional Schema.boolean (prop o (js "details")) ;;
            verbose <- Schema.optional Schema.boolean (prop o (js "verbose")) ;;
            outputLang <-
              Schema.optional (Schema.enum (jsl ["en"; "ar"]))
                (prop o (js "outputLang")) ;;
            Some (Parsed.mk s details verbose outputLang
                    (prop o (js "meta")) (prop o (js "brief"))
                    (prop o (js "project")) (prop o (js "hints")))
          else None
      | _ => None
      end
  | _ => None
  end.

(** [mergedHintsCandidate], with the top-level [outputLang] written
    over it. *)
Definition mergedHintsCandidate {number} (p : Parsed.t number)
  : object number :=
  bag (Parsed.meta p) ++ bag (Parsed.brief p) ++ bag (Parsed.project p)
  ++ bag (Parsed.hints p)
  ++ match Parsed.outputLang p with
     | Some l => if truthy l then [(js "outputLang", JStr l)] else []
     | None => []
     end.

(** [Boolean(details ?? verbose ?? false)]. *)
Definition includeDetailsOf {number} (p : Parsed.t number) : bool :=
  match Parsed.details p with
  | Some b => b
  | None => match Parsed.verbose p with Some b => b | None => false end
  end.

Module Rate.
Record entry : Type := mk { count : Z; resetAt : Z }.
End Rate.

(** The [response] object of [POST]. *)
Record Payload : Type := mkPayload {
  payloadImproved : jsstring;
  payloadProcessingMs : Z;
  payloadDetails : option Details.t
}.

Module Cache.
Record entry : Type := mk { value : Payload; expiresAt : Z }.
End Cache.

(** The two module-level maps. *)
Record Store : Type := mkStore {
  cache : JsMap.t Cache.entry;
  rateMap : JsMap.t Rate.entry
}.

(** What [POST] answers: 200 with the response object, 400 with its
    error text (the list of issues is left out), 429 with the time the
    window ends. *)
Inductive Reply : Type :=
| Ok200 (body : Payload)
| Bad400 (error : jsstring)
| Limited429 (resetAt : Z).

(** The rate-limit block of [POST]: the map after the request, or the
    end of the window when the request is refused. *)
Definition rateLimit (m : JsMap.t Rate.entry) (ip : jsstring) (now : Z)
  : JsMap.t Rate.entry + Z :=
  match JsMap.get m ip with
  | Some rl =>
      if (Rate.resetAt rl <? now)%Z
      then inl (JsMap.set m ip (Rate.mk 1 (now + RATE_WINDOW_MS)))
      else if (RATE_LIMIT <=? Rate.count rl)%Z then inr (Rate.resetAt rl)
           else inl (JsMap.set m ip
                       (Rate.mk (Rate.count rl + 1) (Rate.resetAt rl)))
  | None => inl (JsMap.set m ip (Rate.mk 1 (now + RATE_WINDOW_MS)))
  end.

Module Request.

(** A request: the parsed body ([None] when it is not JSON) and the two
    address headers. *)
Record t (number : Type) : Type := mk {
  body : option (json number);
  xForwardedFor : option jsstring;
  xRealIp : option jsstring
}.

Arguments mk {number}.
Arguments body {number}.
Arguments xForwardedFor {number}.
Arguments xRealIp {number}.

End Request.

Section Route.

Variable toLowerCase : jsstring -> jsstring.
Variable inherited : jsstring -> option jsstring.

(** The host's numbers, and [JSON.stringify] of the cache key object
    [{i, h, d}], where [h] is what [hintsSchema] returns for the merged
    candidate ([None] for [null]). *)
Variable number : Type.
Variable cacheKey : jsstring -> option (object number) -> bool -> jsstring.

(** The cache lookup and the call of the engine, once the hints are
    parsed.  The clock's reading 0 is [now]; the engine reads on. *)
Definition respond (st : Store) (rateMap' : JsMap.t Rate.entry)
  (truncated : jsstring) (candidate : object number)
  (hints : option Hints.t) (includeDetails : bool) (clock : nat -> Z)
  : Reply * Store :=
  let now := clock 0%nat in
  let key :=
    cacheKey truncated
      (match candidate with [] => None | _ => Some candidate end)
      includeDetails in
  let miss :=
    let out :=
      improveIdea toLowerCase inherited truncated hints
        (fun n => clock (S n)) in
    let response :=
      mkPayload (improved out) (processingMs out)
        (if includeDetails then Some (details out) else None) in
    (Ok200 response,
     mkStore (JsMap.set (cache st) key
                (Cache.mk response (now + CACHE_TTL_MS)%Z))
       rateMap') in
  match JsMap.get (cache st) key with
  | Some existing =>
      if (now <? Cache.expiresAt existing)%Z
      then (Ok200 (Cache.value existing), mkStore (cache st) rateMap')
      else miss
  | None => miss
  end.

(** The body of [POST]'s [try] block. *)
Definition POST (st : Store) (req : Request.t number) (clock : nat -> Z)
  : Reply * Store :=
  let body :=
    match Request.body req with Some b => b | None => JObj [] end in
  match parseRequest body with
  | None => (Bad400 (js "Invalid request"), st)
  | Some parsed =>
      let idea := trim (Parsed.idea parsed) in
      let truncated := firstn 4000 idea in
      let includeDetails := includeDetailsOf parsed in
      let ip :=
        getClientIp (Request.xForwardedFor req) (Request.xRealIp req) in
      let now := clock 0%nat in
      match rateLimit (rateMap st) ip now with
      | inr resetAt => (Limited429 resetAt, st)
      | inl rateMap' =>
          let candidate := mergedHintsCandidate parsed in
          match candidate with
          | [] => respond st rateMap' truncated candidate None
                    includeDetails clock
          | _ =>
              match parseHints candidate with
              | None =>
                  (Bad400 (js "Invalid hints"), mkStore (cache st) rateMap')
              | Some hints =>
                  respond st rateMap' truncated candidate (Some hints)
                    includeDetails clock
              end
          end
      end
  end.

End Route.

(** ** The host on plain text

    On text made of ASCII and Arabic-block code units, lower-casing maps
    the letters [A-Z] to [a-z] and leaves every other unit alone. *)

Definition lowerUnit (c : unit16) : unit16 :=
  if isUpperAZ c then c + 32 else c.

Definition plainUnit (c : unit16) : bool :=
  (c <? 128) || ((1536 <=? c) && (c <=? 1791)).

Definition plain (s : jsstring) : bool := forallb plainUnit s.

(** The law of [toLowerCase] that the concrete scenarios rely on. *)
Definition lowersPlainText (toLowerCase : jsstring -> jsstring) : Prop :=
  forall s, plain s = true -> toLowerCase s = map lowerUnit s.

Definition toLowerCasePlain (s : jsstring) : jsstring := map lowerUnit s.

(** No key of the inputs at hand is inherited from [Object.prototype]. *)
Definition noInherited (k : jsstring) : option jsstring := None.

(** A clock that stands still. *)
Definition frozen (n : nat) : Z := 0%Z.

(** ** Definitions the properties are stated with *)

(** The entries a push loop adds to [seen] while reading [es]: those
    that pass [keep] and are not yet present, first occurrences only. *)
Fixpoint fresh (keep : jsstring -> bool) (seen es : list jsstring)
  : list jsstring :=
  match es with
  | [] => []
  | a :: es' =>
      if keep a && negb (includes seen a)
      then a :: fresh keep (seen ++ [a]) es'
      else fresh keep seen es'
  end.

Definition pushWhen (keep : jsstring -> bool) (l : list jsstring)
  (a : jsstring) : list jsstring :=
  if keep a then pushNew l a else l.

Definition always (a : jsstring) : bool := true.

(** One list read off another, order kept. *)
Inductive subseq : list jsstring -> list jsstring -> Prop :=
| subseq_nil : subseq [] []
| subseq_skip a l1 l2 : subseq l1 l2 -> subseq l1 (a :: l2)
| subseq_take a l1 l2 : subseq l1 l2 -> subseq (a :: l1) (a :: l2).

(** The entries of an optional hint array. *)
Definition entries (h : option (list jsstring)) : list jsstring :=
  match h with Some l => l | None => [] end.

(** What the hint loop makes of a field: [merged] holds the classified
    entries [base] first, then the non-empty hint entries that are new,
    in the order of the hint array, then [tail] (what the code pushes
    after the loop). *)
Record HintUnion (base : list jsstring) (h : option (list jsstring))
  (tail merged : list jsstring) : Prop := {
  keeps_classified : incl base merged;
  keeps_hinted : forall a, In a (entries h) -> a <> [] -> In a merged;
  hints_after :
    exists extra,
      merged = base ++ extra ++ tail
      /\ subseq extra (entries h)
      /\ forall a, In a extra -> ~ In a base;
  no_duplicates : NoDup merged
}.

(** Every set-valued field of [c] is contained in that field of [d]. *)
Definition fieldsIncluded (c d : Details.t) : Prop :=
  incl (Details.audience c) (Details.audience d)
  /\ incl (Details.tone c) (Details.tone d)
  /\ incl (Details.detectedFeatures c) (Details.detectedFeatures d)
  /\ incl (Details.selectedFeatures c) (Details.selectedFeatures d)
  /\ incl (Details.industries c) (Details.industries d)
  /\ incl (Details.regions c) (Details.regions d)
  /\ incl (Details.languages c) (Details.languages d)
  /\ incl (Details.compliance c) (Details.compliance d)
  /\ incl (Details.pages c) (Details.pages d)
  /\ incl (Details.userStories c) (Details.userStories d)
  /\ incl (Details.techSuggestions c) (Details.techSuggestions d)
  /\ incl (Details.kpis c) (Details.kpis d)
  /\ incl (Details.contentChecklist c) (Details.contentChecklist d)
  /\ incl (Details.milestones c) (Details.milestones d)
  /\ incl (Details.personas c) (Details.personas d).

(** The same for the fields that the site type and the payments have no
    part in. *)
Definition textFieldsIncluded (c d : Details.t) : Prop :=
  incl (Details.audience c) (Details.audience d)
  /\ incl (Details.tone c) (Details.tone d)
  /\ incl (Details.detectedFeatures c) (Details.detectedFeatures d)
  /\ incl (Details.industries c) (Details.industries d)
  /\ incl (Details.regions c) (Details.regions d)
  /\ incl (Details.languages c) (Details.languages d)
  /\ incl (Details.compliance c) (Details.compliance d)
  /\ incl (Details.contentChecklist c) (Details.contentChecklist d)
  /\ incl (Details.milestones c) (Details.milestones d)
  /\ incl (Details.personas c) (Details.personas d).

Definition tidy (l : list jsstring) : Prop := NoDup l /\ ~ In [] l.

Fixpoint nodupb (l : list jsstring) : bool :=
  match l with
  | [] => true
  | x :: l' => negb (includes l' x) && nodupb l'
  end.

Definition tidyb (l : list jsstring) : bool := nodupb l && forallb truthy l.

(** The category tests in the order the specification lists them. *)
Definition siteTypeTests : list (regex * SiteType) :=
  [ (saasPattern, saas); (ecommercePattern, ecommerce);
    (portfolioPattern, portfolio); (restaurantPattern, restaurant);
    (blogPattern, blog); (eventPattern, event); (bookingPattern, booking) ].

(** First match wins over a list of tests; [generic] when none matches. *)
Fixpoint firstTest (matches : regex -> bool) (tests : list (regex * SiteType))
  : SiteType :=
  match tests with
  | [] => generic
  | (k, t) :: rest => if matches k then t else firstTest matches rest
  end.

(** The characters a path keeps, one by one: the letters a to z and the
    digits 0 to 9. *)
Definition slugAlphabet : jsstring :=
  js "abcdefghijklmnopqrstuvwxyz0123456789".

Definition keptInSlug (c : unit16) : bool := existsb (N.eqb c) slugAlphabet.

(** Any other code unit becomes a hyphen. *)
Definition hyphenate (c : unit16) : unit16 :=
  if keptInSlug c then c else hyphen.

(** Runs of hyphens collapse to one hyphen. *)
Fixpoint squeeze (s : jsstring) : jsstring :=
  match s with
  | [] => []
  | c :: s' =>
      match s' with
      | d :: _ => if isHyphen c && isHyphen d then squeeze s'
                  else c :: squeeze s'
      | [] => [c]
      end
  end.

(** Lower-cased text with every run of characters other than a to z
    and 0 to 9 collapsed to a single hyphen, leading and trailing
    hyphens removed. *)
Definition slugSpec (lowered : jsstring) : jsstring :=
  dropWhileEnd isHyphen (dropWhile isHyphen (squeeze (map hyphenate lowered))).

(** Alphanumeric in the words of the specification: a letter or a
    digit.  The letters and digits are those of the two alphabets the
    engine's vocabulary is written in: Latin, with the accented letters
    of Latin-1, and Arabic. *)
Definition isLetter (c : unit16) : bool :=
  isLowerAZ c || isUpperAZ c
  || ((192 <=? c) && (c <=? 255) && negb (c =? 215) && negb (c =? 247))
  || ((1569 <=? c) && (c <=? 1610)).

Definition isDecimalDigit (c : unit16) : bool :=
  isDigit c || ((1632 <=? c) && (c <=? 1641)).

Definition isAlphanumeric (c : unit16) : bool :=
  isLetter c || isDecimalDigit c.

(** The path as the specification words it: lower-cased text with every
    run of non-alphanumeric characters collapsed to a single hyphen,
    leading and trailing hyphens removed. *)
Definition slugAsStated (lowered : jsstring) : jsstring :=
  dropWhileEnd isHyphen
    (dropWhile isHyphen
       (squeeze
          (map (fun c => if isAlphanumeric c then c else hyphen) lowered))).

Definition isAscii (s : jsstring) : bool := forallb (fun c => c <? 128) s.

Definition dropLead (s : jsstring) : jsstring :=
  match s with
  | c :: r => if isHyphen c then r else s
  | [] => []
  end.

Definition scenario_text : jsstring :=
  js "متجر إلكتروني للأزياء في مصر مع سلة وشراء ودفع".

Definition scenario_hints : option Hints.t :=
  Some (Hints.with_outputLang (js "ar") Hints.none).

(** The headings of the improved prompt, as [H] is called on them. *)
Definition improvedHeadings : list string :=
  ["Project overview"; "Target audience"; "Primary goals"; "Tone & voice";
   "Suggested site structure"; "Key features"; "Content & CTAs";
   "Visual style"; "Notes from the original idea"].

Definition scenario_improved : jsstring :=
  join newline
    (jsl ["نظرة عامة على المشروع";
          "بناء متجر إلكتروني موجه لـ المتسوقون عبر الإنترنت. الهدف هو توصيل القيمة بوضوح وزيادة التحويلات.";
          "الجمهور المستهدف";
          "- المتسوقون عبر الإنترنت";
          "الأهداف الرئيسية";
          "- شرح المنتج/الخدمة بلغة بسيطة";
          "- بناء الثقة عبر الأدلة";
          "- توجيه الزائر إلى دعوة إجراء مركّزة (مثل التسجيل، الحجز، الشراء)";
          "النبرة والأسلوب";
          "- ودود, واثق, موجز";
          "هيكل الموقع المقترح";
          "- الرئيسية";
          "- منتجات مميزة";
          "- التصنيفات";
          "- تفاصيل المنتج";
          "- السلة / الدفع";
          "- التذييل";
          "الميزات الأساسية";
          "- Featured products grid";
          "- Product detail pages";
          "- Cart and checkout";
          "- Trust badges and reviews";
          "- Newsletter signup";
          "- E-commerce checkout";
          "المحتوى والدعوات للإجراء";
          "- عنوان واضح يشرح القيمة";
          "- عنوان فرعي يوضح ماذا ومن ولأي نتيجة";
          "- دعوة إجراء أساسية أعلى الصفحة (وثابتة على الجوال)";
          "- دعوة إجراء ثانوية للتقييم (مثل: اعرف المزيد)";
          "- مؤشرات الثقة: شعارات، آراء، تقييمات";
          "الأسلوب البصري";
          "- تصميم نظيف وحديث وقابل للوصول";
          "- تباين عالٍ ومسافات مريحة وتصميم متجاوب";
          "- استخدام لون إبراز واحد وتناسق العناصر";
          "ملاحظات من الفكرة الأصلية";
          "- متجر إلكتروني للأزياء في مصر مع سلة وشراء ودفع"]).

(** No two adjacent units of the class [p]. *)
Fixpoint noAdjacent (p : unit16 -> bool) (s : jsstring) : bool :=
  match s with
  | [] => true
  | c :: s' =>
      match s' with
      | d :: _ => negb (p c && p d) && noAdjacent p s'
      | [] => true
      end
  end.

(** The number of places where a word starts: a unit that is not white
    space, at the start ([boundary]) or right after white space. *)
Fixpoint wordStarts (boundary : bool) (s : jsstring) : nat :=
  match s with
  | [] => 0%nat
  | c :: s' =>
      if isSpace c then wordStarts true s'
      else ((if boundary then 1 else 0) + wordStarts false s')%nat
  end.

(** The units a slug is made of. *)
Definition isSlugUnit (c : unit16) : bool :=
  isLowerAZ c || isDigit c || isHyphen c.

(** A well-formed path: "/" and then slug units, with no hyphen at
    either end and no two hyphens in a row. *)
Definition wellFormedPath (path : jsstring) : Prop :=
  exists t,
    path = js "/" ++ t
    /\ forallb isSlugUnit t = true
    /\ noAdjacent isHyphen t = true
    /\ hd_error t <> Some hyphen
    /\ hd_error (rev t) <> Some hyphen.

(** A list that is not empty, and a list that begins with another. *)
Definition truthy_list (l : list jsstring) : bool :=
  match l with [] => false | _ => true end.

Definition startsWith (l a : list jsstring) : Prop := exists r, l = a ++ r.

(** A label of a table found in the text, a table with nothing found,
    and a hint entry that counts. *)
Definition found (text : jsstring) (table : list (regex * jsstring))
  (a : jsstring) : Prop :=
  exists k, In (k, a) table /\ test k text = true.

Definition nothingFound (text : jsstring) (table : list (regex * jsstring))
  : Prop :=
  forall k v, In (k, v) table -> test k text = false.

Definition hinted (h : option (list jsstring)) (a : jsstring) : Prop :=
  In a (entries h) /\ a <> [].

(** ** Definitions the properties of the route are stated with *)

(** The text before the first separator. *)
Fixpoint takeUntil (sep : unit16) (s : jsstring) : jsstring :=
  match s with
  | [] => []
  | c :: s' => if c =? sep then [] else c :: takeUntil sep s'
  end.

(** Requests of one address, one after the other at the given times:
    which of them the rate limit lets through. *)
Fixpoint rateRun (m : JsMap.t Rate.entry) (ip : jsstring) (times : list Z)
  : list bool :=
  match times with
  | [] => []
  | now :: rest =>
      match rateLimit m ip now with
      | inl m' => true :: rateRun m' ip rest
      | inr _ => false :: rateRun m ip rest
      end
  end.

(** A rate map with one entry per address and every count between 1
    and the limit. *)
Definition rateOk (m : JsMap.t Rate.entry) : Prop :=
  NoDup (JsMap.keys m)
  /\ forall ip e, JsMap.get m ip = Some e ->
                  (1 <= Rate.count e <= RATE_LIMIT)%Z.

Definition storeOk (st : Store) : Prop :=
  rateOk (rateMap st) /\ NoDup (JsMap.keys (cache st)).

Definition emptyStore : Store := mkStore JsMap.empty JsMap.empty.

(** Whether a request is refused by the rate limit. *)
Definition refused (m : JsMap.t Rate.entry) (ip : jsstring) (now : Z) : bool :=
  match rateLimit m ip now with inl _ => false | inr _ => true end.

(** What [hintsSchema] makes of the merged candidate: [Some None] when
    the candidate has no key, so that the schema is not asked. *)
Definition hintsOf {number} (candidate : object number)
  : option (option Hints.t) :=
  match candidate with
  | [] => Some None
  | _ => match parseHints candidate with
         | Some h => Some (Some h)
         | None => None
         end
  end.

(** A request as [POST] reads it. *)
Definition bodyOf {number} (req : Request.t number) : json number :=
  match Request.body req with Some b => b | None => JObj [] end.

Definition ipOf {number} (req : Request.t number) : jsstring :=
  getClientIp (Request.xForwardedFor req) (Request.xRealIp req).

Definition truncatedOf {number} (p : Parsed.t number) : jsstring :=
  firstn 4000 (trim (Parsed.idea p)).

(** Every entry of the cache has expired. *)
Definition allExpired (c : JsMap.t Cache.entry) (now : Z) : Prop :=
  forall k e, JsMap.get c k = Some e -> (Cache.expiresAt e <= now)%Z.

(** What the hints schema hands on for the [h] of a cache key. *)
Definition readHints {number} (c : option (object number))
  : option (option Hints.t) :=
  match c with
  | None => Some None
  | Some o => match parseHints o with
              | Some h => Some (Some h)
              | None => None
              end
  end.

(** A cache key that tells apart the ideas, the [details] flags and the
    hints it is made from, as the text of [JSON.stringify] does. *)
Definition tellsApart {number}
  (cacheKey : jsstring -> option (object number) -> bool -> jsstring)
  : Prop :=
  forall i c d h i' c' d' h',
    readHints c = Some h -> readHints c' = Some h' ->
    cacheKey i c d = cacheKey i' c' d' ->
    i = i' /\ d = d' /\ h = h'.

Section RouteTerms.

Variable toLowerCase : jsstring -> jsstring.
Variable inherited : jsstring -> option jsstring.
Variable number : Type.
Variable cacheKey : jsstring -> option (object number) -> bool -> jsstring.

(** The cache key of a request. *)
Definition keyOf (p : Parsed.t number) : jsstring :=
  cacheKey (truncatedOf p)
    (match mergedHintsCandidate p with
     | [] => None
     | _ => Some (mergedHintsCandidate p)
     end)
    (includeDetailsOf p).

(** The response object computed for a request on a cache miss. *)
Definition computed (p : Parsed.t number) (hints : option Hints.t)
  (clock : nat -> Z) : Payload :=
  let out :=
    improveIdea toLowerCase inherited (truncatedOf p) hints
      (fun n => clock (S n)) in
  mkPayload (improved out) (processingMs out)
    (if includeDetailsOf p then Some (details out) else None).

(** Every entry of the cache is a response computed for its key. *)
Definition cacheSound (c : JsMap.t Cache.entry) : Prop :=
  forall k e, JsMap.get c k = Some e ->
    exists p h clock,
      k = keyOf p
      /\ hintsOf (mergedHintsCandidate p) = Some h
      /\ Cache.value e = computed p h clock.

End RouteTerms.

(** A cache key that writes its three parts out one after the other,
    every text and list behind its length. *)
Module Key.

Definition ofBool (b : bool) : jsstring := [if b then 1 else 0].

Definition ofString (s : jsstring) : jsstring :=
  N.of_nat (List.length s) :: s.

Definition ofList (l : list jsstring) : jsstring :=
  N.of_nat (List.length l) :: List.concat (map ofString l).

Definition ofOption {A} (f : A -> jsstring) (o : option A) : jsstring :=
  match o with
  | None => [0]
  | Some a => 1 :: f a
  end.

Definition ofHints (h : Hints.t) : jsstring :=
  List.concat
    [ofOption ofList (Hints.audience h);
     ofOption ofString (Hints.siteType h);
     ofOption ofList (Hints.tone h);
     ofOption ofList (Hints.features h);
     ofOption ofList (Hints.industries h);
     ofOption ofList (Hints.regions h);
     ofOption ofList (Hints.languages h);
     ofOption ofString (Hints.currency h);
     ofOption ofList (Hints.pages h);
     ofOption ofBool (Hints.requiresPayments h);
     ofOption ofList (Hints.compliance h);
     ofOption ofList (Hints.kpis h);
     ofOption ofList (Hints.userStories h);
     ofOption ofList (Hints.tech h);
     ofOption ofList (Hints.contentChecklist h);
     ofOption ofList (Hints.milestones h);
     ofOption ofList (Hints.personas h);
     ofOption ofBool (Hints.projectMode h);
     ofOption ofString (Hints.outputLang h)].

Definition written {number} (i : jsstring) (c : option (object number))
  (d : bool) : jsstring :=
  ofBool d ++ ofOption (ofOption ofHints) (readHints c) ++ i.

(** A writer whose output can be read back from the front of a text. *)
Definition prefixFree {A} (f : A -> jsstring) : Prop :=
  forall a b r s, f a ++ r = f b ++ s -> a = b /\ r = s.

End Key.


(** The first value that is there. *)
Fixpoint firstSome {A} (l : list (option A)) : option A :=
  match l with
  | [] => None
  | Some a :: _ => Some a
  | None :: l' => firstSome l'
  end.

(** A request that carries the idea "shop" and nothing else, the
    request the schema reads from it, a cache key that is the idea
    itself, and two clocks. *)
Definition shopBody : json Z := JObj [(js "idea", JStr (js "  shop "))].

Definition shopRequest : Request.t Z :=
  Request.mk (Some shopBody) (Some (js "203.0.113.7, 10.0.0.1")) None.

Definition shopParsed : Parsed.t Z :=
  Parsed.mk (js "  shop ") None None None None None None None.

Definition ideaKey (i : jsstring) (h : option (object Z)) (d : bool)
  : jsstring := i.

Definition ticking (n : nat) : Z := Z.of_nat n.

Definition tickingFrom (start : Z) (n : nat) : Z := (start + Z.of_nat n)%Z.

Definition tickingBy (step start : Z) (n : nat) : Z :=
  (start + step * Z.of_nat n)%Z.

(** A request whose hint sources disagree. *)
Definition blogBody : json Z :=
  JObj [(js "idea", JStr (js "a shop"));
        (js "outputLang", JStr (js "ar"));
        (js "meta", JObj [(js "siteType", JStr (js "saas"));
                          (js "currency", JStr (js "EGP"))]);
        (js "hints", JObj [(js "siteType", JStr (js "blog"));
                           (js "outputLang", JStr (js "en"))])].

Definition blogParsed : Parsed.t Z :=
  Parsed.mk (js "a shop") None None (Some (js "ar"))
    (Some (JObj [(js "siteType", JStr (js "saas"));
                 (js "currency", JStr (js "EGP"))]))
    None None
    (Some (JObj [(js "siteType", JStr (js "blog"));
                 (js "outputLang", JStr (js "en"))])).

Definition blogHints : Hints.t :=
  Hints.with_outputLang (js "ar")
    (Hints.with_currency (js "EGP")
       (Hints.with_siteType (js "blog") Hints.none)).

(** ** The engine on the heap

    [improveIdea] once more, as the source writes it: every array is an
    object of the heap, made by a literal or by [Array.from], filled by
    [push] and read through its reference, and [Date.now()] reads the
    clock of the host.  The heap and the number of clock readings are
    what one invocation leaves to the next. *)

Module World.

(** The arrays allocated so far, by address, and the number of times
    the clock has been read. *)
Record t : Type := mk {
  arrays : list (list jsstring);
  readings : nat
}.

End World.

Definition ref : Type := nat.

(** [l] with the entry at address [r] replaced. *)
Fixpoint store {A} (r : nat) (v : A) (l : list A) : list A :=
  match l, r with
  | [], _ => []
  | _ :: l', O => v :: l'
  | x :: l', S r' => x :: store r' v l'
  end.

(** Computations on the world. *)
Definition M (A : Type) : Type := World.t -> A * World.t.

Definition ret {A} (a : A) : M A := fun w => (a, w).

Definition bind {A B} (m : M A) (f : A -> M B) : M B :=
  fun w => let (a, w') := m w in f a w'.

Notation "x <~ m ;; k" := (bind m (fun x => k))
  (at level 61, m at next level, right associativity).
Notation "m ;;; k" := (bind m (fun _ => k))
  (at level 61, right associativity).

(** [Date.now()], on a host whose [n]-th reading is [clock n]. *)
Definition now (clock : nat -> Z) : M Z :=
  fun w =>
    (clock (World.readings w),
     World.mk (World.arrays w) (S (World.readings w))).

(** An array literal, [Array.from(...)], [arr.filter(...)]: a new
    array. *)
Definition newArray (l : list jsstring) : M ref :=
  fun w =>
    (List.length (World.arrays w),
     World.mk (World.arrays w ++ [l]) (World.readings w)).

(** What an array holds, as [includes], [length], [join], [map], a
    spread or a loop read it. *)
Definition elements (r : ref) : M (list jsstring) :=
  fun w => (nth r (World.arrays w) [], w).

(** [arr.push(a)]. *)
Definition push (r : ref) (a : jsstring) : M unit :=
  fun w =>
    (tt,
     World.mk
       (store r (nth r (World.arrays w) [] ++ [a]) (World.arrays w))
       (World.readings w)).

Definition when (c : bool) (m : M unit) : M unit :=
  if c then m else ret tt.

Fixpoint forEach {A} (l : list A) (f : A -> M unit) : M unit :=
  match l with
  | [] => ret tt
  | a :: l' => f a ;;; forEach l' f
  end.

(** [if (!arr.includes(a)) arr.push(a)]. *)
Definition pushIfNew (r : ref) (a : jsstring) : M unit :=
  held <~ elements r ;;
  when (negb (includes held a)) (push r a).

(** [if (hints?.x?.length) for (const a of hints.x)
       if (a && !arr.includes(a)) arr.push(a)]. *)
Definition hintLoop (r : ref) (h : option (list jsstring)) : M unit :=
  forEach (entries h) (fun a => when (truthy a) (pushIfNew r a)).

(** An object literal with one array per site type: the rows are
    allocated in the order of the keys. *)
Definition newTable (rows : SiteType -> list jsstring)
  : M (SiteType -> ref) :=
  saasRow <~ newArray (rows saas) ;;
  ecommerceRow <~ newArray (rows ecommerce) ;;
  portfolioRow <~ newArray (rows portfolio) ;;
  restaurantRow <~ newArray (rows restaurant) ;;
  blogRow <~ newArray (rows blog) ;;
  eventRow <~ newArray (rows event) ;;
  bookingRow <~ newArray (rows booking) ;;
  genericRow <~ newArray (rows generic) ;;
  ret (fun t =>
         match t with
         | saas => saasRow
         | ecommerce => ecommerceRow
         | portfolio => portfolioRow
         | restaurant => restaurantRow
         | blog => blogRow
         | event => eventRow
         | booking => bookingRow
         | generic => genericRow
         end).

Section Invocation.

Variable toLowerCase : jsstring -> jsstring.
Variable inherited : jsstring -> option jsstring.
Variable raw : jsstring.
Variable hints : option Hints.t.
Variable clock : nat -> Z.

(** [let audience: string[] = []] up to the end of its hint loop. *)
Definition audienceM : M ref :=
  audience <~ newArray [] ;;
  forEach audienceHints
    (fun kv =>
       when (contains toLowerCase raw (Str (fst kv)))
         (push audience (snd kv))) ;;;
  found <~ elements audience ;;
  audience <~ match found with
              | [] => newArray [audienceFallback]
              | _ => ret audience
              end ;;
  found <~ elements audience ;;
  audience <~ newArray (uniq found) ;;
  hintLoop audience (hint Hints.audience hints) ;;;
  ret audience.

(** [const toneWords: string[] = []] up to the end of its hint loop. *)
Definition toneWordsM : M ref :=
  toneWords <~ newArray [] ;;
  forEach toneTests
    (fun kv =>
       when (containsRe toLowerCase raw (fst kv))
         (push toneWords (snd kv))) ;;;
  found <~ elements toneWords ;;
  when (match found with [] => true | _ => false end)
    (forEach toneFallback (push toneWords)) ;;;
  hintLoop toneWords (hint Hints.tone hints) ;;;
  ret toneWords.

(** [const features = Array.from(new Set(...))] and its hint loop. *)
Definition featuresM : M ref :=
  features <~ newArray (uniq (collect (containsRe toLowerCase raw) featureMap)) ;;
  hintLoop features (hint Hints.features hints) ;;;
  ret features.

(** [Array.from(new Set([...defaultFeaturesByType[siteType],
    ...features]))]. *)
Definition selectedFeaturesM (defaults features : ref) : M ref :=
  d <~ elements defaults ;;
  f <~ elements features ;;
  newArray (uniq (d ++ f)).

(** The text of [overviewLine] and [improved], on what the arrays
    hold. *)
Definition overviewLineOf (audienceOut : list jsstring) : jsstring :=
  match lang hints with
  | ar =>
      js "بناء " ++ typeLabelOut toLowerCase raw hints ++ js " موجه لـ "
      ++ join (js ", ") audienceOut
      ++ js ". الهدف هو توصيل القيمة بوضوح وزيادة التحويلات."
  | en =>
      js "Build a " ++ typeLabelOut toLowerCase raw hints ++ js " for "
      ++ join (js ", ") audienceOut
      ++ js ". The purpose is to clearly communicate value and drive conversions."
  end.

Definition improvedOf (audienceOut toneOut sections selectedFeatures
                       : list jsstring) : jsstring :=
  join newline
    (filterBoolean
       [ Some (H inherited hints "Project overview");
         Some (overviewLineOf audienceOut);
         Some [];
         Some (H inherited hints "Target audience");
         Some (bullet (join (newline ++ js "- ") audienceOut));
         Some [];
         Some (H inherited hints "Primary goals");
         Some (primaryGoalsBullets hints);
         Some [];
         Some (H inherited hints "Tone & voice");
         Some (bullet (join (js ", ") toneOut));
         Some [];
         Some (H inherited hints "Suggested site structure");
         Some (join newline
                 (map (fun s => bullet (mapSection inherited hints s))
                      sections));
         Some [];
         Some (H inherited hints "Key features");
         Some (bullets selectedFeatures);
         Some [];
         Some (H inherited hints "Content & CTAs");
         Some (contentCtasBullets hints);
         Some [];
         Some (H inherited hints "Visual style");
         Some (visualStyleBullets hints);
         Some [];
         (if truthy (statedGoal raw)
          then Some (H inherited hints "Notes from the original idea")
          else None);
         (if truthy (statedGoal raw) then Some (bullet (statedGoal raw))
          else None) ]).

(** [audienceOut], [toneOut], [sectionsOut] and [improved]. *)
Definition improvedM (audience toneWords sections selectedFeatures : ref)
  : M jsstring :=
  a <~ elements audience ;;
  t <~ elements toneWords ;;
  s <~ elements sections ;;
  f <~ elements selectedFeatures ;;
  ret (improvedOf (mapAudienceOut inherited hints a)
         (mapToneOut inherited hints t) s f).

(** [const industries = ...] up to the end of its hint loop. *)
Definition industriesM : M ref :=
  industries <~
    newArray (uniq (collect (containsRe toLowerCase raw) industryMap)) ;;
  found <~ elements industries ;;
  when (match found with [] => true | _ => false end)
    (push industries (js "General")) ;;;
  hintLoop industries (hint Hints.industries hints) ;;;
  ret industries.

Definition languagesM : M ref :=
  languages <~
    newArray (uniq (if usesArabic toLowerCase raw
                    then jsl ["Arabic"; "English"]
                    else jsl ["English"])) ;;
  hintLoop languages (hint Hints.languages hints) ;;;
  ret languages.

Definition regionsM : M ref :=
  regions <~
    newArray (uniq (collect (containsRe toLowerCase raw) regionMap)) ;;
  found <~ elements regions ;;
  when (match found with [] => true | _ => false end)
    (push regions (js "Global")) ;;;
  hintLoop regions (hint Hints.regions hints) ;;;
  ret regions.

(** [requiresPayments] and [requiresPaymentsFinal]. *)
Definition requiresPaymentsM (features : ref) : M bool :=
  f <~ elements features ;;
  let requiresPayments :=
    includes f (js "E-commerce checkout")
    || containsRe toLowerCase raw paymentPattern in
  ret (match hint Hints.requiresPayments hints with
       | Some b => b
       | None => requiresPayments
       end).

Definition complianceM : M ref :=
  compliance <~ newArray [] ;;
  forEach complianceTests
    (fun kv =>
       when (containsRe toLowerCase raw (fst kv))
         (push compliance (snd kv))) ;;;
  hintLoop compliance (hint Hints.compliance hints) ;;;
  ret compliance.

(** [pagesByType], [let pages = ...] and the three loops that push to
    it. *)
Definition pagesM (features : ref) (requiresPaymentsFinal : bool) : M ref :=
  byType <~ newTable pagesByType ;;
  row <~ elements (byType (siteType toLowerCase raw hints)) ;;
  pages <~ newArray (uniq row) ;;
  f <~ elements features ;;
  p <~ elements pages ;;
  when (includes f (js "Blog") && negb (includes p (js "Blog")))
    (push pages (js "Blog")) ;;;
  hintLoop pages (hint Hints.pages hints) ;;;
  when requiresPaymentsFinal
    (forEach (jsl ["Billing"; "Checkout"]) (pushIfNew pages)) ;;;
  ret pages.

(** [pages.map((name) => ({ name, path: slugify(name) }))]. *)
Definition sitemapM (pages : ref) : M (list Sitemap.entry) :=
  p <~ elements pages ;;
  ret (map (fun name => Sitemap.mk name (slugify toLowerCase name)) p).

Definition userStoriesM : M ref :=
  byType <~ newTable userStoriesByType ;;
  row <~ elements (byType (siteType toLowerCase raw hints)) ;;
  userStories <~ newArray (uniq (userStoriesBase ++ row)) ;;
  hintLoop userStories (hint Hints.userStories hints) ;;;
  ret userStories.

Definition techSuggestionsM (features : ref) (requiresPaymentsFinal : bool)
  : M ref :=
  tech <~ newArray techBaseline ;;
  when requiresPaymentsFinal
    (push tech (js "Stripe (or regional: Paymob/Fawry/MADA)")) ;;;
  when (usesArabic toLowerCase raw)
    (push tech (js "i18n with Arabic + RTL support")) ;;;
  f <~ elements features ;;
  when (includes f (js "Blog"))
    (push tech (js "MDX or headless CMS (e.g., Sanity)")) ;;;
  pushed <~ elements tech ;;
  tech <~ newArray (uniq pushed) ;;
  hintLoop tech (hint Hints.tech hints) ;;;
  ret tech.

(** [const kpis = kpisByType[siteType] || []]: the row of the table
    itself, which the hint loop then pushes to. *)
Definition kpisM : M ref :=
  byType <~ newTable kpisByType ;;
  let kpis := byType (siteType toLowerCase raw hints) in
  hintLoop kpis (hint Hints.kpis hints) ;;;
  ret kpis.

(** A literal and its hint loop: [contentChecklist], [milestones],
    [personas]. *)
Definition fixedListM (base : list jsstring) (h : option (list jsstring))
  : M ref :=
  l <~ newArray base ;;
  hintLoop l h ;;;
  ret l.

Definition clarifyingQuestionsM (requiresPaymentsFinal : bool)
  (languages compliance : ref) : M ref :=
  q <~ newArray clarifyingBase ;;
  when requiresPaymentsFinal
    (push q (js "Which payment gateways do you prefer (Stripe, Paymob, Fawry, MADA, etc.) and which currency to charge?")) ;;;
  l <~ elements languages ;;
  when (includes l (js "Arabic"))
    (push q (js "Do you require Arabic RTL support and translation for all pages?")) ;;;
  when (isSiteType toLowerCase raw hints ecommerce)
    (push q (js "What is the product catalog size, categories, variants, shipping/returns policy?")) ;;;
  when (isSiteType toLowerCase raw hints saas)
    (push q (js "What is the pricing model (free, freemium, trial), onboarding flow, and docs scope?")) ;;;
  when (isSiteType toLowerCase raw hints booking)
    (push q (js "What services, durations, availability rules, and rescheduling/cancellation policies apply?")) ;;;
  when (isSiteType toLowerCase raw hints event)
    (push q (js "What ticket types, seating, speakers, and content schedule are expected?")) ;;;
  c <~ elements compliance ;;
  when (match c with [] => false | _ => true end)
    (push q (js "Do you need legal pages (Privacy, Terms, Cookies) and data retention policies aligned with compliance?")) ;;;
  ret q.

(** The text of [projectBlueprint], on what the arrays hold. *)
Definition blueprintOf (industries regions languages : list jsstring)
  (sitemap : list Sitemap.entry)
  (userStories nonFunctional kpis techSuggestions contentChecklist
   milestones clarifyingQuestions : list jsstring) : jsstring :=
  join newline
    [ H inherited hints "Project blueprint";
      H inherited hints "Scope";
      scopeLine hints "- الصناعة: " "- Industry: " (join (js ", ") industries);
      scopeLine hints "- المناطق: " "- Regions: " (join (js ", ") regions);
      scopeLine hints "- اللغات: " "- Languages: " (join (js ", ") languages);
      scopeLine hints "- العملة: " "- Currency: "
        (currency toLowerCase raw hints);
      [];
      H inherited hints "Pages & sitemap";
      join newline
        (map (fun p => js "- " ++ Sitemap.name p ++ js " ("
                       ++ Sitemap.path p ++ js ")") sitemap);
      [];
      H inherited hints "User stories";
      bullets userStories;
      [];
      H inherited hints "Non-functional requirements";
      bullets nonFunctional;
      [];
      H inherited hints "KPIs";
      bullets kpis;
      [];
      H inherited hints "Tech stack suggestions";
      bullets techSuggestions;
      [];
      H inherited hints "Content checklist";
      bullets contentChecklist;
      [];
      H inherited hints "Milestones";
      bullets milestones;
      [];
      H inherited hints "Questions to clarify";
      bullets clarifyingQuestions ].

Definition blueprintM (industries regions languages : ref)
  (sitemap : list Sitemap.entry)
  (userStories nonFunctional kpis techSuggestions contentChecklist
   milestones clarifyingQuestions : ref) : M jsstring :=
  i <~ elements industries ;;
  r <~ elements regions ;;
  l <~ elements languages ;;
  u <~ elements userStories ;;
  n <~ elements nonFunctional ;;
  k <~ elements kpis ;;
  t <~ elements techSuggestions ;;
  c <~ elements contentChecklist ;;
  m <~ elements milestones ;;
  q <~ elements clarifyingQuestions ;;
  ret (blueprintOf i r l sitemap u n k t c m q).

(** The [details] object as it is written out on return: what each of
    its arrays holds then. *)
Definition detailsM (audience toneWords sections defaults features
                     selectedFeatures industries regions languages : ref)
  (requiresPaymentsFinal : bool) (compliance pages : ref)
  (sitemap : list Sitemap.entry)
  (userStories techSuggestions nonFunctional kpis contentChecklist
   milestones personas clarifyingQuestions : ref)
  (projectBlueprint : jsstring) : M Details.t :=
  audience <~ elements audience ;;
  toneWords <~ elements toneWords ;;
  sections <~ elements sections ;;
  defaults <~ elements defaults ;;
  features <~ elements features ;;
  selectedFeatures <~ elements selectedFeatures ;;
  industries <~ elements industries ;;
  regions <~ elements regions ;;
  languages <~ elements languages ;;
  compliance <~ elements compliance ;;
  pages <~ elements pages ;;
  userStories <~ elements userStories ;;
  techSuggestions <~ elements techSuggestions ;;
  nonFunctional <~ elements nonFunctional ;;
  kpis <~ elements kpis ;;
  contentChecklist <~ elements contentChecklist ;;
  milestones <~ elements milestones ;;
  personas <~ elements personas ;;
  clarifyingQuestions <~ elements clarifyingQuestions ;;
  ret {| Details.audience := audience;
         Details.siteType := siteType toLowerCase raw hints;
         Details.siteTypeLabel := typeLabel (siteType toLowerCase raw hints);
         Details.tone := toneWords;
         Details.suggestedSections := sections;
         Details.defaultFeatures := defaults;
         Details.detectedFeatures := features;
         Details.selectedFeatures := selectedFeatures;
         Details.ideaLength := List.length (idea raw);
         Details.wordCount := wordCount raw;
         Details.statedGoal := statedGoal raw;
         Details.projectMode := projectMode toLowerCase raw hints;
         Details.industries := industries;
         Details.regions := regions;
         Details.languages := languages;
         Details.currency := currency toLowerCase raw hints;
         Details.requiresPayments := requiresPaymentsFinal;
         Details.compliance := compliance;
         Details.pages := pages;
         Details.sitemap := sitemap;
         Details.userStories := userStories;
         Details.techSuggestions := techSuggestions;
         Details.nonFunctional := nonFunctional;
         Details.kpis := kpis;
         Details.contentChecklist := contentChecklist;
         Details.milestones := milestones;
         Details.personas := personas;
         Details.clarifyingQuestions := clarifyingQuestions;
         Details.blueprint :=
           if projectMode toLowerCase raw hints
           then Some projectBlueprint else None;
         Details.outputLang := lang hints |}.

(** The body of [improveIdea], in the order of the source. *)
Definition improveIdeaM : M Output :=
  startedAt <~ now clock ;;
  audience <~ audienceM ;;
  toneWords <~ toneWordsM ;;
  features <~ featuresM ;;
  defaultFeatures <~ newTable defaultFeaturesByType ;;
  sections <~ newTable sectionsByType ;;
  let siteType := siteType toLowerCase raw hints in
  selectedFeatures <~ selectedFeaturesM (defaultFeatures siteType) features ;;
  improved <~
    improvedM audience toneWords (sections siteType) selectedFeatures ;;
  industries <~ industriesM ;;
  languages <~ languagesM ;;
  regions <~ regionsM ;;
  requiresPaymentsFinal <~ requiresPaymentsM features ;;
  compliance <~ complianceM ;;
  pages <~ pagesM features requiresPaymentsFinal ;;
  sitemap <~ sitemapM pages ;;
  userStories <~ userStoriesM ;;
  techSuggestions <~ techSuggestionsM features requiresPaymentsFinal ;;
  nonFunctional <~ newArray (nonFunctional toLowerCase raw) ;;
  kpis <~ kpisM ;;
  contentChecklist <~
    fixedListM contentChecklistBase (hint Hints.contentChecklist hints) ;;
  milestones <~ fixedListM milestonesBase (hint Hints.milestones hints) ;;
  personas <~ fixedListM personasBase (hint Hints.personas hints) ;;
  clarifyingQuestions <~
    clarifyingQuestionsM requiresPaymentsFinal languages compliance ;;
  projectBlueprint <~
    blueprintM industries regions languages sitemap userStories
      nonFunctional kpis techSuggestions contentChecklist milestones
      clarifyingQuestions ;;
  details <~
    detailsM audience toneWords (sections siteType)
      (defaultFeatures siteType) features selectedFeatures industries
      regions languages requiresPaymentsFinal compliance pages sitemap
      userStories techSuggestions nonFunctional kpis contentChecklist
      milestones personas clarifyingQuestions projectBlueprint ;;
  finishedAt <~ now clock ;;
  ret (mkOutput improved (finishedAt - startedAt)%Z details).

End Invocation.

(** Two invocations, one after the other, on the world the first one
    leaves. *)
Definition twice {A} (first second : M A) : M (A * A) :=
  a <~ first ;;
  b <~ second ;;
  ret (a, b).

(** An array of the heap at its address. *)
Definition holds (r : ref) (v : list jsstring) (w : World.t) : Prop :=
  nth_error (World.arrays w) r = Some v.

(** A world that has only gained arrays. *)
Definition gains (w w' : World.t) : Prop :=
  (exists news, World.arrays w' = World.arrays w ++ news)
  /\ World.readings w' = World.readings w.

(** The place of a site type among the keys of a table. *)
Definition rowIndex (t : SiteType) : nat :=
  match t with
  | saas => 0 | ecommerce => 1 | portfolio => 2 | restaurant => 3
  | blog => 4 | event => 5 | booking => 6 | generic => 7
  end%nat.

(** [m], run in [w], returns a result and a world that has only gained
    arrays, and [P] holds of them. *)
Definition allocates {A} (m : M A) (w : World.t)
  (P : A -> World.t -> Prop) : Prop :=
  exists a w', m w = (a, w') /\ gains w w' /\ P a w'.

(** * Properties *)

(** ** Strings and patterns *)

Lemma str_eqb_eq a b : str_eqb a b = true <-> a = b.
Proof.
  revert b; induction a as [|x a IH]; intros [|y b]; simpl;
    try (split; [discriminate | congruence]); try tauto.
  rewrite andb_true_iff, N.eqb_eq, IH.
  split; [intros [-> ->]; reflexivity | intros H; inversion H; auto].
Qed.

Lemma str_eqb_refl a : str_eqb a a = true.
Proof. apply str_eqb_eq; reflexivity. Qed.

Lemma str_eqb_neq a b : str_eqb a b = false <-> a <> b.
Proof.
  rewrite <- str_eqb_eq. destruct (str_eqb a b); split; congruence.
Qed.

Example utf_arabic : js "متجر" = [1605; 1578; 1580; 1585].
Proof. reflexivity. Qed.

Example utf_nb_hyphen : js "E‑c" = [69; 8209; 99].
Proof. reflexivity. Qed.

Example test_boundary :
  test (cat [lit "us"; Bound]) (js "sell to us now") = true
  /\ test (cat [lit "us"; Bound]) (js "user") = false.
Proof. split; reflexivity. Qed.

Example test_word_ar :
  test arabicPattern (js "site in ar and en") = true
  /\ test arabicPattern (js "car wash") = false
  /\ test arabicPattern (js "موقع عربي") = true.
Proof. repeat split; reflexivity. Qed.

Example test_optional_parts :
  test bookingPattern (js "book a table") = true
  /\ test (cat [lit "soc"; Spaces; lit "2"]) (js "soc   2 report") = true
  /\ test saasPattern (js "خدمة سحابية") = true
  /\ test saasPattern (js "خدمةسحابية") = true
  /\ test saasPattern (js "خدمة  سحابية") = false.
Proof. repeat split; reflexivity. Qed.

Example trim_spaces :
  trim (js "  two words  ") = js "two words" /\ trim (js "   ") = [].
Proof. split; reflexivity. Qed.

(** ** Ordered sets *)

Lemma includes_In l x : includes l x = true <-> In x l.
Proof.
  unfold includes. rewrite existsb_exists. split.
  - intros [y [Hy E]]. apply str_eqb_eq in E. now subst.
  - intros H. exists x. split; [assumption | apply str_eqb_refl].
Qed.

Lemma includes_not_In l x : includes l x = false <-> ~ In x l.
Proof.
  rewrite <- includes_In. destruct (includes l x); split; congruence.
Qed.

Lemma str_eq_dec (a b : jsstring) : {a = b} + {a <> b}.
Proof.
  destruct (str_eqb a b) eqn:E.
  - left. now apply str_eqb_eq.
  - right. now apply str_eqb_neq.
Qed.

Lemma truthy_nonempty a : truthy a = true <-> a <> [].
Proof. destruct a; simpl; split; congruence. Qed.

Lemma fold_pushWhen keep es :
  forall l, fold_left (pushWhen keep) es l = l ++ fresh keep l es.
Proof.
  induction es as [|a es IH]; intros l; simpl.
  - now rewrite app_nil_r.
  - rewrite IH. unfold pushWhen, pushNew.
    destruct (keep a); simpl; [|reflexivity].
    destruct (includes l a); simpl; [reflexivity|].
    now rewrite <- app_assoc.
Qed.

Lemma fold_pushHint es l :
  fold_left pushHint es l = l ++ fresh truthy l es.
Proof. exact (fold_pushWhen truthy es l). Qed.

Lemma fold_pushNew es l :
  fold_left pushNew es l = l ++ fresh always l es.
Proof. exact (fold_pushWhen always es l). Qed.

Lemma fresh_In keep es :
  forall seen a,
    In a (fresh keep seen es)
    <-> In a es /\ keep a = true /\ ~ In a seen.
Proof.
  induction es as [|b es IH]; intros seen a; simpl.
  - tauto.
  - destruct (keep b) eqn:Kb; simpl.
    + destruct (includes seen b) eqn:Ib; simpl.
      * apply includes_In in Ib. rewrite IH.
        split; [tauto|]. intros [[E|H] [K N]]; [subst; tauto | tauto].
      * apply includes_not_In in Ib. rewrite IH, in_app_iff. simpl.
        destruct (str_eq_dec b a) as [E|E].
        -- subst. tauto.
        -- tauto.
    + rewrite IH. split; [tauto|].
      intros [[E|H] [K N]]; [subst; congruence | tauto].
Qed.

Lemma fresh_NoDup keep es : forall seen, NoDup (fresh keep seen es).
Proof.
  induction es as [|b es IH]; intros seen; simpl.
  - constructor.
  - destruct (keep b && negb (includes seen b)); [|apply IH].
    constructor; [|apply IH].
    rewrite fresh_In, in_app_iff. simpl. tauto.
Qed.

Lemma NoDup_app_fresh keep l es :
  NoDup l -> NoDup (l ++ fresh keep l es).
Proof.
  intros Hl. induction l as [|x l IHl] in Hl, es |- *; simpl.
  - apply fresh_NoDup.
  - assert (G : forall (l1 l2 : list jsstring),
               NoDup l1 -> NoDup l2 ->
               (forall a, In a l1 -> ~ In a l2) -> NoDup (l1 ++ l2)).
    { clear. induction l1 as [|y l1 IH]; intros l2 H1 H2 D; simpl; auto.
      inversion_clear H1. constructor.
      - rewrite in_app_iff. intros [?|?]; [tauto|]. eapply D; simpl; eauto.
      - apply IH; auto. intros a Ha. apply D. now right. }
    change (x :: l ++ fresh keep (x :: l) es)
      with ((x :: l) ++ fresh keep (x :: l) es).
    apply G; auto using fresh_NoDup.
    intros a Ha Hf. apply fresh_In in Hf. tauto.
Qed.

Lemma fresh_subseq keep es : forall seen, subseq (fresh keep seen es) es.
Proof.
  induction es as [|b es IH]; intros seen; simpl.
  - constructor.
  - destruct (keep b && negb (includes seen b)); constructor; apply IH.
Qed.

Lemma uniq_fresh l : uniq l = fresh always [] l.
Proof. unfold uniq. now rewrite fold_pushNew. Qed.

Lemma uniq_NoDup l : NoDup (uniq l).
Proof. rewrite uniq_fresh. apply fresh_NoDup. Qed.

Lemma uniq_In l a : In a (uniq l) <-> In a l.
Proof. rewrite uniq_fresh, fresh_In. unfold always. simpl. tauto. Qed.

Lemma pushNew_NoDup l a : NoDup l -> NoDup (pushNew l a).
Proof.
  intros H. change (pushNew l a) with (fold_left pushNew [a] l).
  rewrite fold_pushNew. now apply NoDup_app_fresh.
Qed.

Lemma pushNew_In l a b : In b (pushNew l a) <-> In b l \/ b = a.
Proof.
  unfold pushNew. destruct (includes l a) eqn:E.
  - apply includes_In in E. split; [tauto|]. intros [?|?]; subst; auto.
  - rewrite in_app_iff. simpl. intuition congruence.
Qed.

Lemma mergeHints_fresh l h :
  mergeHints l h = l ++ fresh truthy l (entries h).
Proof.
  destruct h as [es|]; simpl.
  - apply fold_pushHint.
  - now rewrite app_nil_r.
Qed.

Lemma mergeHints_In l h a :
  In a (mergeHints l h) <-> In a l \/ (In a (entries h) /\ a <> []).
Proof.
  rewrite mergeHints_fresh, in_app_iff, fresh_In, truthy_nonempty.
  destruct (in_dec str_eq_dec a l); tauto.
Qed.

Lemma mergeHints_NoDup l h : NoDup l -> NoDup (mergeHints l h).
Proof. rewrite mergeHints_fresh. apply NoDup_app_fresh. Qed.

Lemma mergeHints_nonempty l h : l <> [] -> mergeHints l h <> [].
Proof.
  rewrite mergeHints_fresh. destruct l; [congruence | discriminate].
Qed.

(** ** Tidy lists: no duplicate and no empty entry *)

Lemma nodupb_sound l : nodupb l = true -> NoDup l.
Proof.
  induction l as [|x l IH]; simpl; intros H; constructor;
    apply andb_true_iff in H; destruct H as [H1 H2].
  - apply includes_not_In. now destruct (includes l x).
  - auto.
Qed.

Lemma forallb_truthy l : forallb truthy l = true <-> ~ In [] l.
Proof.
  rewrite forallb_forall. split.
  - intros H Hin. now specialize (H _ Hin).
  - intros H x Hx. destruct x; [tauto | reflexivity].
Qed.

Lemma tidyb_sound l : tidyb l = true -> tidy l.
Proof.
  unfold tidyb, tidy. rewrite andb_true_iff, forallb_truthy.
  intros [H1 H2]. auto using nodupb_sound.
Qed.

Ltac tidy_by_computation := apply tidyb_sound; vm_compute; reflexivity.

Lemma collect_In {K} (f : K -> bool) table a :
  In a (collect f table) <-> exists k, In (k, a) table /\ f k = true.
Proof.
  unfold collect. rewrite in_map_iff. split.
  - intros [[k v] [E H]]. apply filter_In in H. simpl in *. subst.
    now exists k.
  - intros [k [H1 H2]]. exists (k, a). rewrite filter_In. auto.
Qed.

Lemma collect_tidy {K} (f : K -> bool) table :
  tidy (map snd table) -> tidy (collect f table).
Proof.
  unfold tidy, collect. intros [Hd He]. split.
  - clear He. induction table as [|[k v] table IH]; simpl in *.
    + constructor.
    + inversion_clear Hd as [|? ? Hv Hd']. destruct (f k); simpl; auto.
      constructor; auto. rewrite in_map_iff in *.
      intros [kv [E Hin]]. apply filter_In in Hin. apply Hv.
      exists kv. tauto.
  - rewrite in_map_iff in *. intros [kv [E Hin]].
    apply filter_In in Hin. apply He. exists kv. tauto.
Qed.

Lemma uniq_tidy l : ~ In [] l -> tidy (uniq l).
Proof.
  intros H. split; [apply uniq_NoDup | now rewrite uniq_In].
Qed.

Lemma mergeHints_tidy l h : tidy l -> tidy (mergeHints l h).
Proof.
  intros [Hd He]. split; [now apply mergeHints_NoDup|].
  rewrite mergeHints_In. tauto.
Qed.

Lemma pushNew_tidy l a : tidy l -> a <> [] -> tidy (pushNew l a).
Proof.
  intros [Hd He] Ha. split; [now apply pushNew_NoDup|].
  rewrite pushNew_In. intuition congruence.
Qed.

Lemma In_nonempty {A} (x : A) l : In x l -> l <> [].
Proof. destruct l; [contradiction | discriminate]. Qed.

Lemma uniq_nonempty l : l <> [] -> uniq l <> [].
Proof.
  destruct l as [|x l]; [congruence|]. intros _.
  apply (In_nonempty x). apply uniq_In. now left.
Qed.

Lemma pushNew_nonempty l a : pushNew l a <> [].
Proof. apply (In_nonempty a). apply pushNew_In. now right. Qed.

Lemma collect_nonblank {K} (f : K -> bool) table :
  ~ In [] (map snd table) -> ~ In [] (collect f table).
Proof.
  unfold collect. rewrite !in_map_iff. intros He [kv [E Hin]].
  apply filter_In in Hin. apply He. exists kv. tauto.
Qed.

Ltac nonblank_by_computation := apply forallb_truthy; vm_compute; reflexivity.

Lemma fold_pushNew_tidy es l :
  tidy l -> ~ In [] es -> tidy (fold_left pushNew es l).
Proof.
  revert l. induction es as [|a es IH]; simpl; intros l Hl He; auto.
  apply IH; [|tauto]. apply pushNew_tidy; auto.
Qed.

Lemma fold_pushNew_nonempty es l :
  l <> [] -> fold_left pushNew es l <> [].
Proof.
  rewrite fold_pushNew. destruct l; [congruence | discriminate].
Qed.

(** ** What every run of the engine keeps *)

Section Invariants.

Variable toLowerCase : jsstring -> jsstring.
Variable inherited : jsstring -> option jsstring.
Variable raw : jsstring.
Variable hints : option Hints.t.

Lemma defaultFeaturesByType_tidy t : tidy (defaultFeaturesByType t).
Proof. destruct t; tidy_by_computation. Qed.

Lemma sectionsByType_tidy t : tidy (sectionsByType t).
Proof. destruct t; tidy_by_computation. Qed.

Lemma pagesByType_tidy t : tidy (pagesByType t).
Proof. destruct t; tidy_by_computation. Qed.

Lemma kpisByType_tidy t : tidy (kpisByType t).
Proof. destruct t; tidy_by_computation. Qed.

Lemma userStories_tables_nonblank t :
  ~ In [] (userStoriesBase ++ userStoriesByType t).
Proof. destruct t; nonblank_by_computation. Qed.

Lemma audienceDetected_tidy : tidy (audienceDetected toLowerCase raw).
Proof.
  unfold audienceDetected. apply uniq_tidy.
  destruct (collect _ audienceHints) as [|a l] eqn:E.
  - simpl. intros [H|[]]. discriminate H.
  - rewrite <- E. apply collect_nonblank. nonblank_by_computation.
Qed.

Lemma audienceDetected_nonempty : audienceDetected toLowerCase raw <> [].
Proof.
  unfold audienceDetected. apply uniq_nonempty.
  destruct (collect _ audienceHints); discriminate.
Qed.

Lemma toneDetected_tidy : tidy (toneDetected toLowerCase raw).
Proof.
  unfold toneDetected.
  destruct (collect _ toneTests) as [|a l] eqn:E.
  - tidy_by_computation.
  - rewrite <- E. apply collect_tidy. tidy_by_computation.
Qed.

Lemma toneDetected_nonempty : toneDetected toLowerCase raw <> [].
Proof.
  unfold toneDetected. destruct (collect _ toneTests); discriminate.
Qed.

Lemma featuresMatched_tidy : tidy (featuresMatched toLowerCase raw).
Proof.
  apply uniq_tidy, collect_nonblank. nonblank_by_computation.
Qed.

Lemma features_tidy : tidy (features toLowerCase raw hints).
Proof. apply mergeHints_tidy, featuresMatched_tidy. Qed.

Lemma selectedFeatures_tidy : tidy (selectedFeatures toLowerCase raw hints).
Proof.
  apply uniq_tidy. rewrite in_app_iff.
  intros [H|H]; [apply defaultFeaturesByType_tidy in H | apply features_tidy in H];
    exact H.
Qed.

Lemma selectedFeatures_nonempty :
  selectedFeatures toLowerCase raw hints <> [].
Proof.
  apply uniq_nonempty.
  destruct (siteType toLowerCase raw hints); discriminate.
Qed.

Lemma industriesDetected_tidy : tidy (industriesDetected toLowerCase raw).
Proof.
  unfold industriesDetected.
  destruct (uniq _) as [|a l] eqn:E.
  - tidy_by_computation.
  - rewrite <- E. apply uniq_tidy, collect_nonblank. nonblank_by_computation.
Qed.

Lemma industriesDetected_nonempty : industriesDetected toLowerCase raw <> [].
Proof. unfold industriesDetected. destruct (uniq _); discriminate. Qed.

Lemma regionsDetected_tidy : tidy (regionsDetected toLowerCase raw).
Proof.
  unfold regionsDetected.
  destruct (uniq _) as [|a l] eqn:E.
  - tidy_by_computation.
  - rewrite <- E. apply uniq_tidy, collect_nonblank. nonblank_by_computation.
Qed.

Lemma regionsDetected_nonempty : regionsDetected toLowerCase raw <> [].
Proof. unfold regionsDetected. destruct (uniq _); discriminate. Qed.

Lemma languagesDetected_tidy : tidy (languagesDetected toLowerCase raw).
Proof.
  unfold languagesDetected. destruct (usesArabic _ _); tidy_by_computation.
Qed.

Lemma languagesDetected_nonempty : languagesDetected toLowerCase raw <> [].
Proof.
  unfold languagesDetected. destruct (usesArabic _ _); discriminate.
Qed.

Lemma complianceDetected_tidy : tidy (complianceDetected toLowerCase raw).
Proof. apply collect_tidy. tidy_by_computation. Qed.

Lemma pagesBase_tidy : tidy (pagesBase toLowerCase raw hints).
Proof.
  unfold pagesBase.
  assert (T : tidy (uniq (pagesByType (siteType toLowerCase raw hints)))).
  { apply uniq_tidy, pagesByType_tidy. }
  destruct (includes _ _); [apply pushNew_tidy|]; auto. discriminate.
Qed.

Lemma pagesBase_nonempty : pagesBase toLowerCase raw hints <> [].
Proof.
  unfold pagesBase.
  assert (N : uniq (pagesByType (siteType toLowerCase raw hints)) <> []).
  { apply uniq_nonempty. destruct (siteType _ _ _); discriminate. }
  destruct (includes _ _); [apply pushNew_nonempty | exact N].
Qed.

Lemma pages_tidy : tidy (pages toLowerCase raw hints).
Proof.
  unfold pages.
  assert (T := mergeHints_tidy _ (hint Hints.pages hints) pagesBase_tidy).
  destruct (requiresPaymentsFinal _ _ _); [|exact T].
  apply fold_pushNew_tidy; [exact T | nonblank_by_computation].
Qed.

Lemma pages_nonempty : pages toLowerCase raw hints <> [].
Proof.
  unfold pages.
  assert (N := mergeHints_nonempty _ (hint Hints.pages hints)
                 pagesBase_nonempty).
  destruct (requiresPaymentsFinal _ _ _); [|exact N].
  now apply fold_pushNew_nonempty.
Qed.

Lemma userStoriesDefault_tidy : tidy (userStoriesDefault toLowerCase raw hints).
Proof. apply uniq_tidy, userStories_tables_nonblank. Qed.

Lemma userStoriesDefault_nonempty :
  userStoriesDefault toLowerCase raw hints <> [].
Proof. apply uniq_nonempty. discriminate. Qed.

Lemma techDefault_tidy : tidy (techDefault toLowerCase raw hints).
Proof.
  unfold techDefault. apply uniq_tidy.
  destruct (requiresPaymentsFinal _ _ _), (usesArabic _ _), (includes _ _);
    nonblank_by_computation.
Qed.

Lemma techDefault_nonempty : techDefault toLowerCase raw hints <> [].
Proof.
  unfold techDefault. apply uniq_nonempty.
  destruct (requiresPaymentsFinal _ _ _), (usesArabic _ _), (includes _ _);
    discriminate.
Qed.

Lemma nonFunctional_tidy : tidy (nonFunctional toLowerCase raw).
Proof.
  unfold nonFunctional. destruct (usesArabic _ _); tidy_by_computation.
Qed.

Lemma clarifyingQuestions_tidy :
  tidy (clarifyingQuestions toLowerCase raw hints).
Proof.
  unfold clarifyingQuestions, isSiteType.
  destruct (siteType _ _ _), (requiresPaymentsFinal _ _ _),
    (includes (languages _ _ _) _), (compliance _ _ _);
    tidy_by_computation.
Qed.

Lemma fixed_lists_tidy :
  tidy contentChecklistBase /\ tidy milestonesBase /\ tidy personasBase.
Proof. split; [|split]; tidy_by_computation. Qed.

End Invariants.

Lemma NoDup_sitemap toLowerCase raw hints :
  NoDup (sitemap toLowerCase raw hints).
Proof.
  unfold sitemap.
  assert (N : NoDup (pages toLowerCase raw hints)) by apply pages_tidy.
  induction N as [|a l Ha N IH]; simpl; constructor; auto.
  rewrite in_map_iff. intros [b [E Hb]]. inversion E; subst. tauto.
Qed.

(** ** Non-empty and duplicate-free fields *)

(** C5, the counterexample: without hints, the empty text and the text
    "hello world" both leave the [detectedFeatures] field empty, so
    [compliance] is not the only set-valued field that may be empty. *)
Lemma C5_detectedFeatures_may_be_empty :
  Details.detectedFeatures
    (details (improveIdea toLowerCasePlain noInherited [] None frozen)) = []
  /\ Details.detectedFeatures
       (details (improveIdea toLowerCasePlain noInherited (js "hello world")
                   None frozen)) = []
  /\ Details.compliance
       (details (improveIdea toLowerCasePlain noInherited (js "hello world")
                   None frozen)) = [].
Proof. repeat split; vm_compute; reflexivity. Qed.

(** C5, as amended: for every text and every hints, [audience], [tone],
    [industries], [regions], [languages], [pages] and [sitemap] are
    non-empty, and so is every other set-valued field except
    [compliance] and [detectedFeatures]; every set-valued field is free
    of duplicates. *)
Theorem C5_nonempty_and_deduplicated
  (toLowerCase : jsstring -> jsstring)
  (inherited : jsstring -> option jsstring)
  (raw : jsstring) (hints : option Hints.t) (clock : nat -> Z) :
  let d := details (improveIdea toLowerCase inherited raw hints clock) in
  (Details.audience d <> [] /\ Details.tone d <> []
   /\ Details.industries d <> [] /\ Details.regions d <> []
   /\ Details.languages d <> [] /\ Details.pages d <> []
   /\ Details.sitemap d <> [])
  /\ (Details.selectedFeatures d <> [] /\ Details.userStories d <> []
      /\ Details.techSuggestions d <> [] /\ Details.nonFunctional d <> []
      /\ Details.kpis d <> [] /\ Details.contentChecklist d <> []
      /\ Details.milestones d <> [] /\ Details.personas d <> []
      /\ Details.clarifyingQuestions d <> []
      /\ Details.suggestedSections d <> []
      /\ Details.defaultFeatures d <> [])
  /\ (NoDup (Details.audience d) /\ NoDup (Details.tone d)
      /\ NoDup (Details.detectedFeatures d)
      /\ NoDup (Details.selectedFeatures d)
      /\ NoDup (Details.industries d) /\ NoDup (Details.regions d)
      /\ NoDup (Details.languages d) /\ NoDup (Details.compliance d)
      /\ NoDup (Details.pages d) /\ NoDup (Details.sitemap d)
      /\ NoDup (Details.userStories d) /\ NoDup (Details.techSuggestions d)
      /\ NoDup (Details.nonFunctional d) /\ NoDup (Details.kpis d)
      /\ NoDup (Details.contentChecklist d) /\ NoDup (Details.milestones d)
      /\ NoDup (Details.personas d)
      /\ NoDup (Details.clarifyingQuestions d)
      /\ NoDup (Details.suggestedSections d)
      /\ NoDup (Details.defaultFeatures d)).
Proof.
  cbv zeta. simpl.
  destruct fixed_lists_tidy as [Tc [Tm Tp]].
  split; [|split].
  - repeat split.
    + apply mergeHints_nonempty, audienceDetected_nonempty.
    + apply mergeHints_nonempty, toneDetected_nonempty.
    + apply mergeHints_nonempty, industriesDetected_nonempty.
    + apply mergeHints_nonempty, regionsDetected_nonempty.
    + apply mergeHints_nonempty, languagesDetected_nonempty.
    + apply pages_nonempty.
    + unfold sitemap. pose proof (pages_nonempty toLowerCase raw hints) as N.
      destruct (pages toLowerCase raw hints); [congruence | discriminate].
  - repeat split.
    + apply selectedFeatures_nonempty.
    + apply mergeHints_nonempty, userStoriesDefault_nonempty.
    + apply mergeHints_nonempty, techDefault_nonempty.
    + unfold nonFunctional. destruct (usesArabic _ _); discriminate.
    + apply mergeHints_nonempty.
      destruct (siteType toLowerCase raw hints); discriminate.
    + apply mergeHints_nonempty. discriminate.
    + apply mergeHints_nonempty. discriminate.
    + apply mergeHints_nonempty. discriminate.
    + unfold clarifyingQuestions, pushIf.
      repeat match goal with
             | |- context [if ?c then _ else _] => destruct c
             end; discriminate.
    + destruct (siteType toLowerCase raw hints); discriminate.
    + destruct (siteType toLowerCase raw hints); discriminate.
  - repeat split.
    + apply mergeHints_NoDup, audienceDetected_tidy.
    + apply mergeHints_NoDup, toneDetected_tidy.
    + apply features_tidy.
    + apply selectedFeatures_tidy.
    + apply mergeHints_NoDup, industriesDetected_tidy.
    + apply mergeHints_NoDup, regionsDetected_tidy.
    + apply mergeHints_NoDup, languagesDetected_tidy.
    + apply mergeHints_NoDup, complianceDetected_tidy.
    + apply pages_tidy.
    + apply NoDup_sitemap.
    + apply mergeHints_NoDup, userStoriesDefault_tidy.
    + apply mergeHints_NoDup, techDefault_tidy.
    + apply nonFunctional_tidy.
    + apply mergeHints_NoDup, kpisByType_tidy.
    + apply mergeHints_NoDup, Tc.
    + apply mergeHints_NoDup, Tm.
    + apply mergeHints_NoDup, Tp.
    + apply clarifyingQuestions_tidy.
    + apply sectionsByType_tidy.
    + apply defaultFeaturesByType_tidy.
Qed.

(** ** The hint loop *)

Lemma subseq_trans l1 l2 l3 : subseq l1 l2 -> subseq l2 l3 -> subseq l1 l3.
Proof.
  intros H12 H23. revert l1 H12.
  induction H23 as [|a l2 l3 H IH|a l2 l3 H IH]; intros l1 H12.
  - exact H12.
  - constructor. now apply IH.
  - inversion H12; subst; constructor; now apply IH.
Qed.

Lemma mergeHints_union base h :
  NoDup base -> HintUnion base h [] (mergeHints base h).
Proof.
  intros Hb. constructor.
  - intros a Ha. apply mergeHints_In. now left.
  - intros a Ha Hne. apply mergeHints_In. now right.
  - exists (fresh truthy base (entries h)). split; [|split].
    + now rewrite app_nil_r, mergeHints_fresh.
    + apply fresh_subseq.
    + intros a Ha. apply fresh_In in Ha. tauto.
  - now apply mergeHints_NoDup.
Qed.

Lemma uniq_app l1 l2 : uniq (l1 ++ l2) = uniq l1 ++ fresh always (uniq l1) l2.
Proof. unfold uniq. now rewrite fold_left_app, fold_pushNew. Qed.

Lemma selectedFeatures_union toLowerCase raw hints :
  HintUnion
    (uniq (defaultFeaturesByType (siteType toLowerCase raw hints)
           ++ featuresMatched toLowerCase raw))
    (hint Hints.features hints) []
    (selectedFeatures toLowerCase raw hints).
Proof.
  unfold selectedFeatures, features.
  set (d := defaultFeaturesByType _). set (m := featuresMatched _ _).
  set (h := hint Hints.features hints).
  rewrite mergeHints_fresh, app_assoc.
  rewrite (uniq_app (d ++ m) (fresh truthy m (entries h))).
  constructor.
  - intros a Ha. apply in_app_iff. now left.
  - intros a Ha Hne.
    rewrite <- (uniq_app (d ++ m)), uniq_In, !in_app_iff, fresh_In,
      truthy_nonempty.
    destruct (in_dec str_eq_dec a m); tauto.
  - exists (fresh always (uniq (d ++ m)) (fresh truthy m (entries h))).
    split; [|split].
    + now rewrite app_nil_r.
    + eapply subseq_trans; apply fresh_subseq.
    + intros a Ha. apply fresh_In in Ha. tauto.
  - rewrite <- (uniq_app (d ++ m)). apply uniq_NoDup.
Qed.

Lemma pages_union toLowerCase raw hints :
  exists tail,
    HintUnion (pagesBase toLowerCase raw hints) (hint Hints.pages hints)
      tail (pages toLowerCase raw hints)
    /\ incl tail (jsl ["Billing"; "Checkout"])
    /\ (requiresPaymentsFinal toLowerCase raw hints = false -> tail = []).
Proof.
  unfold pages.
  pose proof (pagesBase_tidy toLowerCase raw hints) as [Nb _].
  set (b := pagesBase toLowerCase raw hints) in *.
  set (h := hint Hints.pages hints).
  destruct (mergeHints_union b h Nb) as [Hc Hh [extra [E [S D]]] N].
  rewrite app_nil_r in E.
  destruct (requiresPaymentsFinal toLowerCase raw hints).
  - exists (fresh always (mergeHints b h) (jsl ["Billing"; "Checkout"])).
    rewrite fold_pushNew. split; [|split].
    + constructor.
      * intros a Ha. apply in_app_iff. left. now apply Hc.
      * intros a Ha Hne. apply in_app_iff. left. now apply Hh.
      * exists extra. rewrite E at 1. rewrite <- app_assoc. auto.
      * now apply NoDup_app_fresh.
    + intros a Ha. apply fresh_In in Ha. tauto.
    + discriminate.
  - exists []. split; [|split].
    + constructor; auto. exists extra. rewrite app_nil_r. auto.
    + intros a [].
    + reflexivity.
Qed.

(** ** Hints that carry set entries only *)

Lemma includes_mono l l' x :
  incl l l' -> includes l x = true -> includes l' x = true.
Proof. rewrite !includes_In. auto. Qed.

Lemma incl_mergeHints l h : incl (mergeHints l None) (mergeHints l h).
Proof. intros a Ha. apply mergeHints_In. now left. Qed.

Lemma fold_pushNew_In es l a :
  In a (fold_left pushNew es l) <-> In a l \/ In a es.
Proof.
  rewrite fold_pushNew, in_app_iff, fresh_In. unfold always.
  destruct (in_dec str_eq_dec a l); tauto.
Qed.

Lemma pagesBase_In toLowerCase raw hints a :
  In a (pagesBase toLowerCase raw hints)
  <-> In a (pagesByType (siteType toLowerCase raw hints))
      \/ (includes (features toLowerCase raw hints) (js "Blog") = true
          /\ a = js "Blog").
Proof.
  unfold pagesBase. destruct (includes _ (js "Blog")).
  - rewrite pushNew_In, uniq_In. tauto.
  - rewrite uniq_In. intuition discriminate.
Qed.

Lemma pages_In toLowerCase raw hints a :
  In a (pages toLowerCase raw hints)
  <-> In a (pagesBase toLowerCase raw hints)
      \/ (In a (entries (hint Hints.pages hints)) /\ a <> [])
      \/ (requiresPaymentsFinal toLowerCase raw hints = true
          /\ In a (jsl ["Billing"; "Checkout"])).
Proof.
  unfold pages. destruct (requiresPaymentsFinal toLowerCase raw hints).
  - rewrite fold_pushNew_In, mergeHints_In. tauto.
  - rewrite mergeHints_In. intuition discriminate.
Qed.

Lemma In_conditional_push (c : bool) (l : list jsstring) x a :
  In a (if c then l ++ [x] else l) <-> In a l \/ (c = true /\ a = x).
Proof.
  destruct c; [rewrite in_app_iff; simpl|]; intuition congruence.
Qed.

Lemma techDefault_In toLowerCase raw hints a :
  In a (techDefault toLowerCase raw hints)
  <-> In a techBaseline
      \/ (requiresPaymentsFinal toLowerCase raw hints = true
          /\ a = js "Stripe (or regional: Paymob/Fawry/MADA)")
      \/ (usesArabic toLowerCase raw = true
          /\ a = js "i18n with Arabic + RTL support")
      \/ (includes (features toLowerCase raw hints) (js "Blog") = true
          /\ a = js "MDX or headless CMS (e.g., Sanity)").
Proof.
  unfold techDefault. cbv zeta. rewrite uniq_In, !In_conditional_push.
  tauto.
Qed.

Section SetHintsOnly.

Variable toLowerCase : jsstring -> jsstring.
Variable inherited : jsstring -> option jsstring.
Variable raw : jsstring.
Variable hints : option Hints.t.
Variable clock : nat -> Z.

(** The hints leave the site type as the classifier has it, and do not
    switch off payments that the classifier requires. *)
Hypothesis same_siteType :
  siteType toLowerCase raw hints = siteType toLowerCase raw None.
Hypothesis payments_kept :
  requiresPaymentsFinal toLowerCase raw None = true ->
  requiresPaymentsFinal toLowerCase raw hints = true.

Lemma features_grow :
  incl (features toLowerCase raw None) (features toLowerCase raw hints).
Proof. intros a Ha. apply mergeHints_In. now left. Qed.

Lemma unhinted_fields_kept :
  fieldsIncluded
    (details (improveIdea toLowerCase inherited raw None clock))
    (details (improveIdea toLowerCase inherited raw hints clock)).
Proof.
  pose proof features_grow as Hf.
  pose proof payments_kept as Hp.
  pose proof same_siteType as Hs.
  unfold fieldsIncluded.
  cbn [details improveIdea detailsOf
    Details.audience Details.tone Details.detectedFeatures
    Details.selectedFeatures Details.industries Details.regions
    Details.languages Details.compliance Details.pages Details.userStories
    Details.techSuggestions Details.kpis Details.contentChecklist
    Details.milestones Details.personas].
  repeat match goal with |- _ /\ _ => split end.
  - unfold audience. apply incl_mergeHints.
  - unfold toneWords. apply incl_mergeHints.
  - exact Hf.
  - intros a. unfold selectedFeatures. rewrite !uniq_In, !in_app_iff, Hs.
    intros [H|H]; auto.
  - unfold industries. apply incl_mergeHints.
  - unfold regions. apply incl_mergeHints.
  - unfold languages. apply incl_mergeHints.
  - unfold compliance. apply incl_mergeHints.
  - intros a. rewrite !pages_In, !pagesBase_In, Hs. cbn [hint entries].
    intros [[H|[H ->]]|[[[] _]|[H1 H2]]]; auto.
    left. right. split; [|reflexivity].
    exact (includes_mono _ _ _ Hf H).
  - unfold userStories, userStoriesDefault. rewrite Hs.
    apply incl_mergeHints.
  - intros a. unfold techSuggestions. cbn [hint mergeHints].
    rewrite mergeHints_In, !techDefault_In.
    intros [H|[[H ->]|[[H ->]|[H ->]]]]; auto.
    + left. right. left. auto.
    + left. right. right. left. auto.
    + left. right. right. right. split; [|reflexivity].
      exact (includes_mono _ _ _ Hf H).
  - unfold kpis. rewrite Hs. apply incl_mergeHints.
  - unfold contentChecklist. apply incl_mergeHints.
  - unfold milestones. apply incl_mergeHints.
  - unfold personas. apply incl_mergeHints.
Qed.

End SetHintsOnly.

(** The fields that are made from the text and their own hint alone. *)
Lemma text_fields_kept toLowerCase inherited raw hints clock :
  textFieldsIncluded
    (details (improveIdea toLowerCase inherited raw None clock))
    (details (improveIdea toLowerCase inherited raw hints clock)).
Proof.
  unfold textFieldsIncluded.
  cbn [details improveIdea detailsOf
    Details.audience Details.tone Details.detectedFeatures
    Details.industries Details.regions Details.languages
    Details.compliance Details.contentChecklist Details.milestones
    Details.personas].
  repeat match goal with |- _ /\ _ => split end.
  - unfold audience. apply incl_mergeHints.
  - unfold toneWords. apply incl_mergeHints.
  - apply features_grow.
  - unfold industries. apply incl_mergeHints.
  - unfold regions. apply incl_mergeHints.
  - unfold languages. apply incl_mergeHints.
  - unfold compliance. apply incl_mergeHints.
  - unfold contentChecklist. apply incl_mergeHints.
  - unfold milestones. apply incl_mergeHints.
  - unfold personas. apply incl_mergeHints.
Qed.

(** Hints without [siteType] and [requiresPayments] leave the site type
    and keep the payments. *)
Lemma unhinted_conditions toLowerCase raw hints :
  hint Hints.siteType hints = None ->
  hint Hints.requiresPayments hints = None ->
  siteType toLowerCase raw hints = siteType toLowerCase raw None
  /\ (requiresPaymentsFinal toLowerCase raw None = true ->
      requiresPaymentsFinal toLowerCase raw hints = true).
Proof.
  intros Hs Hp. split.
  - unfold siteType. now rewrite Hs.
  - unfold requiresPaymentsFinal. rewrite Hp. cbn [hint].
    unfold requiresPayments. rewrite !orb_true_iff.
    intros [H|H]; [left | now right].
    exact (includes_mono _ _ _ (features_grow toLowerCase raw hints) H).
Qed.

(** C7, the counterexample.  The hint [{audience: [""]}] supplies the
    entry [""], and the merged audience does not contain it.  On the
    text "pay by card" the hint [{pages: ["Zed"]}] lands before the
    pages [Billing] and [Checkout] that the classifier derives from the
    payment keyword, not after them.  On the text "a shop" the
    classifier's pages hold [Shop]; with the hints
    [{siteType: "blog", pages: ["Zed"]}] the merged pages do not.  On
    "pay by card" the classifier's pages hold [Billing]; with the hints
    [{requiresPayments: false, pages: ["Zed"]}] the merged pages do
    not. *)
Lemma C7_entries_dropped_and_classified_entries_lost :
  In [] (entries (hint Hints.audience
                    (Some (Hints.with_audience [[]] Hints.none))))
  /\ includes
       (Details.audience
          (details (improveIdea toLowerCasePlain noInherited (js "a shop")
                      (Some (Hints.with_audience [[]] Hints.none)) frozen)))
       [] = false
  /\ Details.pages
       (details (improveIdea toLowerCasePlain noInherited (js "pay by card")
                   None frozen))
     = jsl ["Home"; "About"; "Features"; "Pricing"; "Contact"; "Blog";
            "Billing"; "Checkout"]
  /\ Details.pages
       (details (improveIdea toLowerCasePlain noInherited (js "pay by card")
                   (Some (Hints.with_pages [js "Zed"] Hints.none)) frozen))
     = jsl ["Home"; "About"; "Features"; "Pricing"; "Contact"; "Blog"; "Zed";
            "Billing"; "Checkout"]
  /\ includes
       (Details.pages
          (details (improveIdea toLowerCasePlain noInherited (js "a shop")
                      None frozen)))
       (js "Shop") = true
  /\ Details.pages
       (details (improveIdea toLowerCasePlain noInherited (js "a shop")
                   (Some (Hints.with_siteType (js "blog")
                            (Hints.with_pages [js "Zed"] Hints.none)))
                   frozen))
     = jsl ["Home"; "Blog"; "Post"; "Categories"; "About"; "Contact";
            "Newsletter"; "Zed"]
  /\ Details.pages
       (details (improveIdea toLowerCasePlain noInherited (js "pay by card")
                   (Some (Hints.with_requiresPayments false
                            (Hints.with_pages [js "Zed"] Hints.none)))
                   frozen))
     = jsl ["Home"; "About"; "Features"; "Pricing"; "Contact"; "Blog"; "Zed"].
Proof. split; [now left | repeat split; vm_compute; reflexivity]. Qed.

(** C7, as amended: for every text and every hints, each set-valued
    field holds the entries it has just before its hint loop, then every
    non-empty hint entry not already present, in hint order, and has no
    duplicate; so it contains those entries and the non-empty hint
    entries.  For [selectedFeatures] the entries before the hints are
    the site type's defaults followed by the matched features; for
    [pages] the code still pushes [Billing] and [Checkout] after the
    hint entries when payments are required.  The fields made from the
    text alone ([audience], [tone], the detected features, [industries],
    [regions], [languages], [compliance] and the three fixed lists)
    always contain what the classifier alone (the run without hints)
    puts there; every field does so when the hints leave the site type
    as the classifier has it and do not switch off payments that the
    classifier requires, as is the case for hints that carry neither
    [siteType] nor [requiresPayments]. *)
Theorem C7_hint_entries_merged
  (toLowerCase : jsstring -> jsstring)
  (inherited : jsstring -> option jsstring)
  (raw : jsstring) (hints : option Hints.t) (clock : nat -> Z) :
  let d := details (improveIdea toLowerCase inherited raw hints clock) in
  let classified :=
    details (improveIdea toLowerCase inherited raw None clock) in
  let st := Details.siteType d in
  HintUnion (audienceDetected toLowerCase raw) (hint Hints.audience hints)
    [] (Details.audience d)
  /\ HintUnion (toneDetected toLowerCase raw) (hint Hints.tone hints)
       [] (Details.tone d)
  /\ HintUnion (featuresMatched toLowerCase raw) (hint Hints.features hints)
       [] (Details.detectedFeatures d)
  /\ HintUnion
       (uniq (defaultFeaturesByType st ++ featuresMatched toLowerCase raw))
       (hint Hints.features hints) [] (Details.selectedFeatures d)
  /\ HintUnion (industriesDetected toLowerCase raw)
       (hint Hints.industries hints) [] (Details.industries d)
  /\ HintUnion (regionsDetected toLowerCase raw) (hint Hints.regions hints)
       [] (Details.regions d)
  /\ HintUnion (languagesDetected toLowerCase raw)
       (hint Hints.languages hints) [] (Details.languages d)
  /\ HintUnion (complianceDetected toLowerCase raw)
       (hint Hints.compliance hints) [] (Details.compliance d)
  /\ (exists tail,
        HintUnion (pagesBase toLowerCase raw hints) (hint Hints.pages hints)
          tail (Details.pages d)
        /\ incl tail (jsl ["Billing"; "Checkout"])
        /\ (Details.requiresPayments d = false -> tail = []))
  /\ HintUnion (userStoriesDefault toLowerCase raw hints)
       (hint Hints.userStories hints) [] (Details.userStories d)
  /\ HintUnion (techDefault toLowerCase raw hints) (hint Hints.tech hints)
       [] (Details.techSuggestions d)
  /\ HintUnion (kpisByType st) (hint Hints.kpis hints) [] (Details.kpis d)
  /\ HintUnion contentChecklistBase (hint Hints.contentChecklist hints)
       [] (Details.contentChecklist d)
  /\ HintUnion milestonesBase (hint Hints.milestones hints)
       [] (Details.milestones d)
  /\ HintUnion personasBase (hint Hints.personas hints)
       [] (Details.personas d)
  /\ textFieldsIncluded classified d
  /\ (Details.siteType d = Details.siteType classified ->
      (Details.requiresPayments classified = true ->
       Details.requiresPayments d = true) ->
      fieldsIncluded classified d)
  /\ (hint Hints.siteType hints = None ->
      hint Hints.requiresPayments hints = None ->
      Details.siteType d = Details.siteType classified
      /\ (Details.requiresPayments classified = true ->
          Details.requiresPayments d = true)).
Proof.
  cbv zeta.
  assert (K : forall c,
             c = details (improveIdea toLowerCase inherited raw None clock) ->
             textFieldsIncluded c
               (details (improveIdea toLowerCase inherited raw hints clock))
             /\ (siteType toLowerCase raw hints = Details.siteType c ->
                 (Details.requiresPayments c = true ->
                  requiresPaymentsFinal toLowerCase raw hints = true) ->
                 fieldsIncluded c
                   (details (improveIdea toLowerCase inherited raw hints
                               clock)))
             /\ (hint Hints.siteType hints = None ->
                 hint Hints.requiresPayments hints = None ->
                 siteType toLowerCase raw hints = Details.siteType c
                 /\ (Details.requiresPayments c = true ->
                     requiresPaymentsFinal toLowerCase raw hints = true))).
  { intros c ->. split; [apply text_fields_kept|]. split.
    - intros Hs Hp.
      exact (unhinted_fields_kept toLowerCase inherited raw hints clock
               Hs Hp).
    - exact (unhinted_conditions toLowerCase raw hints). }
  specialize (K _ eq_refl). revert K.
  generalize (details (improveIdea toLowerCase inherited raw None clock)).
  intros c (K1 & K2 & K3). simpl.
  destruct fixed_lists_tidy as [[Tc _] [[Tm _] [Tp _]]].
  repeat match goal with |- _ /\ _ => split end;
    try (apply mergeHints_union);
    try exact K1; try exact K2; try exact K3.
  - apply audienceDetected_tidy.
  - apply toneDetected_tidy.
  - apply featuresMatched_tidy.
  - apply selectedFeatures_union.
  - apply industriesDetected_tidy.
  - apply regionsDetected_tidy.
  - apply languagesDetected_tidy.
  - apply complianceDetected_tidy.
  - apply pages_union.
  - apply userStoriesDefault_tidy.
  - apply techDefault_tidy.
  - apply kpisByType_tidy.
  - exact Tc.
  - exact Tm.
  - exact Tp.
Qed.

(** C7 at work: the hint [{pages: ["Zed"]}] on the text "pay by card"
    leaves the site type and the payments as they are, and keeps every
    page of the run without hints. *)
Lemma C7_witness :
  incl
    (Details.pages
       (details (improveIdea toLowerCasePlain noInherited (js "pay by card")
                   None frozen)))
    (Details.pages
       (details (improveIdea toLowerCasePlain noInherited (js "pay by card")
                   (Some (Hints.with_pages [js "Zed"] Hints.none)) frozen))).
Proof.
  pose proof (C7_hint_entries_merged toLowerCasePlain noInherited
                (js "pay by card")
                (Some (Hints.with_pages [js "Zed"] Hints.none)) frozen) as T.
  cbv zeta in T. do 16 destruct T as [_ T]. destruct T as [T _].
  assert (S : Details.siteType
                (details (improveIdea toLowerCasePlain noInherited
                            (js "pay by card")
                            (Some (Hints.with_pages [js "Zed"] Hints.none))
                            frozen))
              = Details.siteType
                  (details (improveIdea toLowerCasePlain noInherited
                              (js "pay by card") None frozen)))
    by (vm_compute; reflexivity).
  assert (P : Details.requiresPayments
                (details (improveIdea toLowerCasePlain noInherited
                            (js "pay by card") None frozen)) = true ->
              Details.requiresPayments
                (details (improveIdea toLowerCasePlain noInherited
                            (js "pay by card")
                            (Some (Hints.with_pages [js "Zed"] Hints.none))
                            frozen)) = true)
    by (intros _; vm_compute; reflexivity).
  specialize (T S P). unfold fieldsIncluded in T.
  do 8 destruct T as [_ T]. destruct T as [T _]. exact T.
Defined.

(** ** Empty strings *)

(** C10: for every text and every hints, no set-valued field of the
    merged vector contains the empty string, whatever the hint arrays
    hold; and an empty-string [currency] hint leaves the currency the
    classifier detected. *)
Theorem C10_empty_strings_ignored
  (toLowerCase : jsstring -> jsstring)
  (inherited : jsstring -> option jsstring)
  (raw : jsstring) (hints : option Hints.t) (clock : nat -> Z) :
  let d := details (improveIdea toLowerCase inherited raw hints clock) in
  (~ In [] (Details.audience d) /\ ~ In [] (Details.tone d)
   /\ ~ In [] (Details.detectedFeatures d)
   /\ ~ In [] (Details.selectedFeatures d)
   /\ ~ In [] (Details.industries d) /\ ~ In [] (Details.regions d)
   /\ ~ In [] (Details.languages d) /\ ~ In [] (Details.compliance d)
   /\ ~ In [] (Details.pages d) /\ ~ In [] (Details.userStories d)
   /\ ~ In [] (Details.techSuggestions d) /\ ~ In [] (Details.kpis d)
   /\ ~ In [] (Details.contentChecklist d)
   /\ ~ In [] (Details.milestones d) /\ ~ In [] (Details.personas d))
  /\ (hint Hints.currency hints = Some []
      -> Details.currency d = currencyDetected toLowerCase raw).
Proof.
  cbv zeta. simpl.
  destruct fixed_lists_tidy as [Tc [Tm Tp]].
  split.
  - repeat match goal with |- _ /\ _ => split end;
      try (apply mergeHints_tidy).
    + apply audienceDetected_tidy.
    + apply toneDetected_tidy.
    + apply featuresMatched_tidy.
    + apply selectedFeatures_tidy.
    + apply industriesDetected_tidy.
    + apply regionsDetected_tidy.
    + apply languagesDetected_tidy.
    + apply complianceDetected_tidy.
    + apply pages_tidy.
    + apply userStoriesDefault_tidy.
    + apply techDefault_tidy.
    + apply kpisByType_tidy.
    + exact Tc.
    + exact Tm.
    + exact Tp.
  - intros E. unfold currency. now rewrite E.
Qed.

(** C10 at work: the hints [{currency: "", pages: [""]}] on a text that
    names Egyptian pounds. *)
Lemma C10_witness :
  Details.currency
    (details (improveIdea toLowerCasePlain noInherited (js "prices in EGP")
                (Some (Hints.with_currency []
                         (Hints.with_pages [[]] Hints.none))) frozen))
  = currencyDetected toLowerCasePlain (js "prices in EGP").
Proof.
  apply (proj2 (C10_empty_strings_ignored toLowerCasePlain noInherited
                  (js "prices in EGP")
                  (Some (Hints.with_currency []
                           (Hints.with_pages [[]] Hints.none))) frozen)).
  reflexivity.
Defined.

(** ** Detected and selected features *)

(** C9, the counterexample: with the hint [{features: ["Dark mode"]}]
    the [detectedFeatures] field holds the hinted entry, although no
    feature pattern matches the text. *)
Lemma C9_detectedFeatures_holds_hinted_entries :
  featuresMatched toLowerCasePlain (js "a landing page") = []
  /\ Details.detectedFeatures
       (details (improveIdea toLowerCasePlain noInherited
                   (js "a landing page")
                   (Some (Hints.with_features [js "Dark mode"] Hints.none))
                   frozen))
     = [js "Dark mode"].
Proof. split; vm_compute; reflexivity. Qed.

(** C9, as amended: the feature labels whose patterns match the
    lower-cased text are a function of the text alone;
    [detectedFeatures] is that list followed by the non-empty hinted
    features not already in it; [selectedFeatures] is the site type's
    default features followed by [detectedFeatures], first occurrences
    only and order kept. *)
Theorem C9_detected_and_selected_features
  (toLowerCase : jsstring -> jsstring)
  (inherited : jsstring -> option jsstring)
  (raw : jsstring) (hints : option Hints.t) (clock : nat -> Z) :
  let d := details (improveIdea toLowerCase inherited raw hints clock) in
  let matched := featuresMatched toLowerCase raw in
  (NoDup matched
   /\ forall a,
        In a matched
        <-> exists k,
              In (k, a) featureMap
              /\ test k (toLowerCase (trim raw)) = true)
  /\ Details.detectedFeatures d
     = matched ++ fresh truthy matched (entries (hint Hints.features hints))
  /\ Details.selectedFeatures d
     = uniq (defaultFeaturesByType (Details.siteType d)
             ++ Details.detectedFeatures d)
  /\ NoDup (Details.selectedFeatures d)
  /\ subseq (Details.selectedFeatures d)
       (defaultFeaturesByType (Details.siteType d)
        ++ Details.detectedFeatures d)
  /\ forall a,
       In a (Details.selectedFeatures d)
       <-> In a (defaultFeaturesByType (Details.siteType d))
           \/ In a matched
           \/ (In a (entries (hint Hints.features hints)) /\ a <> []).
Proof.
  cbv zeta. simpl. repeat match goal with |- _ /\ _ => split end.
  - apply featuresMatched_tidy.
  - intros a. unfold featuresMatched. rewrite uniq_In.
    apply (collect_In (containsRe toLowerCase raw)).
  - apply mergeHints_fresh.
  - reflexivity.
  - apply uniq_NoDup.
  - unfold selectedFeatures. rewrite uniq_fresh. apply fresh_subseq.
  - intros a. unfold selectedFeatures, features.
    rewrite uniq_In, in_app_iff, mergeHints_In. tauto.
Qed.

(** ** Payments *)

(** C2, the counterexample: on the text "checkout" the payment pattern
    matches and the checkout feature is selected, yet the hint
    [{requiresPayments: false}] makes the merged value [false]. *)
Lemma C2_hint_false_wins :
  test paymentPattern (lower toLowerCasePlain (js "checkout")) = true
  /\ includes
       (Details.selectedFeatures
          (details (improveIdea toLowerCasePlain noInherited (js "checkout")
                      (Some (Hints.with_requiresPayments false Hints.none))
                      frozen)))
       (js "E-commerce checkout") = true
  /\ Details.requiresPayments
       (details (improveIdea toLowerCasePlain noInherited (js "checkout")
                   (Some (Hints.with_requiresPayments false Hints.none))
                   frozen))
     = false.
Proof. repeat split; vm_compute; reflexivity. Qed.

Lemma checkout_not_default t :
  ~ In (js "E-commerce checkout") (defaultFeaturesByType t).
Proof.
  apply includes_not_In. destruct t; vm_compute; reflexivity.
Qed.

(** C2, as amended: when the hints carry [requiresPayments], the merged
    value is the hinted one; otherwise it is true exactly when the
    e-commerce-checkout label is among the selected features or the
    payment pattern matches the lower-cased text. *)
Theorem C2_requiresPayments
  (toLowerCase : jsstring -> jsstring)
  (inherited : jsstring -> option jsstring)
  (raw : jsstring) (hints : option Hints.t) (clock : nat -> Z) :
  let d := details (improveIdea toLowerCase inherited raw hints clock) in
  Details.requiresPayments d = true
  <-> match hint Hints.requiresPayments hints with
      | Some b => b = true
      | None =>
          In (js "E-commerce checkout") (Details.selectedFeatures d)
          \/ test paymentPattern (toLowerCase (trim raw)) = true
      end.
Proof.
  cbv zeta. simpl. unfold requiresPaymentsFinal.
  destruct (hint Hints.requiresPayments hints) as [b|]; [tauto|].
  unfold requiresPayments, selectedFeatures.
  rewrite orb_true_iff, includes_In, uniq_In, in_app_iff.
  pose proof (checkout_not_default (siteType toLowerCase raw hints)).
  unfold containsRe, contains, lower, idea. tauto.
Qed.

(** ** Scalar hints *)

Lemma toLowerCasePlain_lowers : lowersPlainText toLowerCasePlain.
Proof. intros s _. reflexivity. Qed.

Lemma str_eqb_sym a b : str_eqb a b = str_eqb b a.
Proof.
  destruct (str_eqb b a) eqn:E.
  - apply str_eqb_eq in E. subst. apply str_eqb_refl.
  - apply str_eqb_neq in E. apply str_eqb_neq. congruence.
Qed.

(** [allowedSiteType] succeeds exactly on the members of [allowed], and
    returns the site type of that name. *)
Lemma allowedSiteType_allowed t :
  (includes allowed t = true <-> exists ty, allowedSiteType t = Some ty)
  /\ forall ty, allowedSiteType t = Some ty -> siteTypeName ty = t.
Proof.
  unfold includes, allowed, allowedSiteType. split.
  - induction allSiteTypes as [|x l IH]; simpl.
    + split; [discriminate | intros [ty H]; discriminate].
    + rewrite (str_eqb_sym t). destruct (str_eqb (siteTypeName x) t); simpl.
      * split; eauto.
      * exact IH.
  - intros ty H. apply find_some in H. now apply str_eqb_eq.
Qed.

Lemma allowedSiteType_name toLowerCase t :
  lowersPlainText toLowerCase ->
  allowedSiteType (toLowerCase (siteTypeName t)) = Some t.
Proof.
  intros L. rewrite L; destruct t; vm_compute; reflexivity.
Qed.

(** C1, the counterexample: the text "project plan" matches the
    project pattern, and the hint [{projectMode: false}] leaves
    [projectMode] true; the hint [{currency: ""}] leaves the currency
    "USD". *)
Lemma C1_projectMode_false_not_applied :
  Details.projectMode
    (details (improveIdea toLowerCasePlain noInherited (js "project plan")
                (Some (Hints.with_projectMode false Hints.none)) frozen))
  = true
  /\ Details.currency
       (details (improveIdea toLowerCasePlain noInherited (js "project plan")
                   (Some (Hints.with_currency [] Hints.none)) frozen))
     = js "USD".
Proof. split; vm_compute; reflexivity. Qed.

(** C1, as amended: a [siteType] hint within the enumeration, a
    non-empty [currency] hint, a [requiresPayments] hint and an
    [outputLang] hint each replace the classified value; a [projectMode]
    hint of [true] forces project mode, and a hint of [false] leaves the
    value detected from the text. *)
Theorem C1_scalar_hints
  (toLowerCase : jsstring -> jsstring)
  (inherited : jsstring -> option jsstring)
  (Hlower : lowersPlainText toLowerCase)
  (raw : jsstring) (hints : option Hints.t) (clock : nat -> Z) :
  let d := details (improveIdea toLowerCase inherited raw hints clock) in
  (forall t, hint Hints.siteType hints = Some (siteTypeName t)
             -> Details.siteType d = t)
  /\ (forall c, hint Hints.currency hints = Some c -> c <> []
                -> Details.currency d = c)
  /\ (forall b, hint Hints.requiresPayments hints = Some b
                -> Details.requiresPayments d = b)
  /\ (forall l, hint Hints.outputLang hints = Some (langName l)
                -> Details.outputLang d = l)
  /\ (hint Hints.projectMode hints = Some true
      -> Details.projectMode d = true)
  /\ (hint Hints.projectMode hints = Some false
      -> Details.projectMode d
         = test projectPattern (toLowerCase (trim raw))).
Proof.
  cbv zeta. simpl. repeat match goal with |- _ /\ _ => split end.
  - intros t E. unfold siteType. rewrite E.
    rewrite (allowedSiteType_name toLowerCase t Hlower).
    destruct t; reflexivity.
  - intros c E Hc. unfold currency. rewrite E.
    destruct c; [congruence | reflexivity].
  - intros b E. unfold requiresPaymentsFinal. now rewrite E.
  - intros l E. unfold lang. rewrite E. destruct l; reflexivity.
  - intros E. unfold projectMode. now rewrite E.
  - intros E. unfold projectMode. now rewrite E.
Qed.

(** C1 at work: the hint [{siteType: "booking"}] on a text the
    classifier reads as a shop. *)
Lemma C1_witness :
  Details.siteType
    (details (improveIdea toLowerCasePlain noInherited (js "a shop")
                (Some (Hints.with_siteType (js "booking") Hints.none))
                frozen))
  = booking.
Proof.
  apply (C1_scalar_hints toLowerCasePlain noInherited
           toLowerCasePlain_lowers (js "a shop")
           (Some (Hints.with_siteType (js "booking") Hints.none)) frozen).
  reflexivity.
Defined.

(** ** The clock *)

(** C8, the counterexample: the same text and hints under two clocks,
    one standing still and one advancing by a millisecond per reading,
    report different processing times. *)
Lemma C8_processingMs_follows_the_clock :
  processingMs
    (improveIdea toLowerCasePlain noInherited (js "a shop") None frozen)
  = 0%Z
  /\ processingMs
       (improveIdea toLowerCasePlain noInherited (js "a shop") None Z.of_nat)
     = 1%Z.
Proof. split; reflexivity. Qed.

(** *** The engine on the heap *)

Section Heap.

Local Open Scope nat_scope.

Lemma bind_step {A B} (m : M A) (f : A -> M B) (w w' : World.t) (a : A) :
  m w = (a, w') -> bind m f w = f a w'.
Proof. intros E. unfold bind. rewrite E. reflexivity. Qed.

Lemma ret_run {A} (a : A) (w : World.t) : ret a w = (a, w).
Proof. reflexivity. Qed.

Lemma now_run (clock : nat -> Z) (w : World.t) :
  now clock w
  = (clock (World.readings w),
     World.mk (World.arrays w) (S (World.readings w))).
Proof. reflexivity. Qed.

Lemma nth_after {X} (A L : list X) (i : nat) (d : X) :
  nth (List.length A + i) (A ++ L) d = nth i L d.
Proof. induction A as [|x A IH]; simpl; auto. Qed.

Lemma store_after {X} (A L : list X) (i : nat) (v : X) :
  store (List.length A + i) v (A ++ L) = A ++ store i v L.
Proof.
  induction A as [|x A IH]; simpl.
  - reflexivity.
  - rewrite IH. reflexivity.
Qed.

Lemma store_same {X} (L : list X) (i : nat) (d : X) :
  store i (nth i L d) L = L.
Proof.
  revert i. induction L as [|x L IH]; intros [|i]; simpl; auto.
  rewrite IH. reflexivity.
Qed.

Lemma store_store {X} (L : list X) (i : nat) (u v : X) :
  store i v (store i u L) = store i v L.
Proof.
  revert i. induction L as [|x L IH]; intros [|i]; simpl; auto.
  rewrite IH. reflexivity.
Qed.

Lemma nth_store {X} (L : list X) (i : nat) (v d : X) :
  (i < List.length L) -> nth i (store i v L) d = v.
Proof.
  revert i. induction L as [|x L IH]; intros [|i] Hi; simpl in *;
    try lia; auto.
  apply IH. lia.
Qed.

Lemma store_length {X} (L : list X) (i : nat) (v : X) :
  List.length (store i v L) = List.length L.
Proof.
  revert i. induction L as [|x L IH]; intros [|i]; simpl; auto.
Qed.

Lemma mergeHints_entries (l : list jsstring) (h : option (list jsstring)) :
  mergeHints l h = fold_left pushHint (entries h) l.
Proof. destruct h; reflexivity. Qed.

(** *** The primitives, on an array at a known place of the heap *)

Lemma newArray_run (l : list jsstring) (A : list (list jsstring)) (n : nat) :
  newArray l (World.mk A n) = (List.length A, World.mk (A ++ [l]) n).
Proof. reflexivity. Qed.

Lemma elements_at (A L : list (list jsstring)) (i n : nat) :
  elements (List.length A + i) (World.mk (A ++ L) n)
  = (nth i L [], World.mk (A ++ L) n).
Proof. unfold elements. simpl. rewrite nth_after. reflexivity. Qed.

Lemma push_at (A L : list (list jsstring)) (i n : nat) (a : jsstring) :
  push (List.length A + i) a (World.mk (A ++ L) n)
  = (tt, World.mk (A ++ store i (nth i L [] ++ [a]) L) n).
Proof.
  unfold push. simpl. rewrite nth_after, store_after. reflexivity.
Qed.

Lemma pushIfNew_at (A L : list (list jsstring)) (i n : nat) (a : jsstring) :
  pushIfNew (List.length A + i) a (World.mk (A ++ L) n)
  = (tt, World.mk (A ++ store i (pushNew (nth i L []) a) L) n).
Proof.
  unfold pushIfNew. rewrite (bind_step _ _ _ _ _ (elements_at A L i n)).
  unfold pushNew. destruct (includes (nth i L []) a); simpl.
  - rewrite store_same. reflexivity.
  - apply push_at.
Qed.

Lemma forEach_pushHint_at (es : list jsstring) :
  forall (A L : list (list jsstring)) (i n : nat),
    (i < List.length L) ->
    forEach es (fun a => when (truthy a) (pushIfNew (List.length A + i) a))
      (World.mk (A ++ L) n)
    = (tt,
       World.mk (A ++ store i (fold_left pushHint es (nth i L [])) L) n).
Proof.
  induction es as [|a es IH]; intros A L i n Hi; simpl.
  - rewrite store_same. reflexivity.
  - assert (S : when (truthy a) (pushIfNew (List.length A + i) a)
                  (World.mk (A ++ L) n)
                = (tt,
                   World.mk (A ++ store i (pushHint (nth i L []) a) L) n)).
    { unfold pushHint. destruct (truthy a); simpl.
      - apply pushIfNew_at.
      - rewrite store_same. reflexivity. }
    rewrite (bind_step _ _ _ _ _ S). rewrite IH.
    + rewrite nth_store by exact Hi. rewrite store_store. reflexivity.
    + rewrite store_length. exact Hi.
Qed.

Lemma hintLoop_at (A L : list (list jsstring)) (i n : nat)
  (h : option (list jsstring)) :
  (i < List.length L) ->
  hintLoop (List.length A + i) h (World.mk (A ++ L) n)
  = (tt, World.mk (A ++ store i (mergeHints (nth i L []) h) L) n).
Proof.
  intros Hi. unfold hintLoop. rewrite mergeHints_entries.
  apply forEach_pushHint_at. exact Hi.
Qed.

(** *** The primitives, on the array allocated last *)

Lemma elements_last (A : list (list jsstring)) (l : list jsstring) (n : nat) :
  elements (List.length A) (World.mk (A ++ [l]) n)
  = (l, World.mk (A ++ [l]) n).
Proof.
  rewrite <- (Nat.add_0_r (List.length A)) at 1. apply (elements_at A [l] 0).
Qed.

Lemma push_last (A : list (list jsstring)) (l : list jsstring) (n : nat)
  (a : jsstring) :
  push (List.length A) a (World.mk (A ++ [l]) n)
  = (tt, World.mk (A ++ [l ++ [a]]) n).
Proof.
  rewrite <- (Nat.add_0_r (List.length A)) at 1. apply (push_at A [l] 0).
Qed.

Lemma when_push_last (c : bool) (A : list (list jsstring))
  (l : list jsstring) (n : nat) (a : jsstring) :
  when c (push (List.length A) a) (World.mk (A ++ [l]) n)
  = (tt, World.mk (A ++ [if c then l ++ [a] else l]) n).
Proof. destruct c; simpl; [apply push_last | reflexivity]. Qed.

Lemma pushIfNew_last (A : list (list jsstring)) (l : list jsstring)
  (n : nat) (a : jsstring) :
  pushIfNew (List.length A) a (World.mk (A ++ [l]) n)
  = (tt, World.mk (A ++ [pushNew l a]) n).
Proof.
  rewrite <- (Nat.add_0_r (List.length A)) at 1. apply (pushIfNew_at A [l] 0).
Qed.

Lemma hintLoop_last (A : list (list jsstring)) (l : list jsstring)
  (n : nat) (h : option (list jsstring)) :
  hintLoop (List.length A) h (World.mk (A ++ [l]) n)
  = (tt, World.mk (A ++ [mergeHints l h]) n).
Proof.
  rewrite <- (Nat.add_0_r (List.length A)) at 1.
  apply (hintLoop_at A [l] 0). simpl. lia.
Qed.

(** A loop of conditional pushes appends what [collect] gathers. *)
Lemma forEach_push_last {K} (c : K -> bool) (table : list (K * jsstring)) :
  forall (A : list (list jsstring)) (l : list jsstring) (n : nat),
    forEach table
      (fun kv => when (c (fst kv)) (push (List.length A) (snd kv)))
      (World.mk (A ++ [l]) n)
    = (tt, World.mk (A ++ [l ++ collect c table]) n).
Proof.
  induction table as [|[k v] table IH]; intros A l n; simpl.
  - unfold collect. simpl. rewrite app_nil_r. reflexivity.
  - rewrite (bind_step _ _ _ _ _ (when_push_last (c k) A l n v)).
    rewrite IH. unfold collect. simpl.
    destruct (c k); simpl; [rewrite <- app_assoc|]; reflexivity.
Qed.

Lemma forEach_pushAll_last (items : list jsstring) :
  forall (A : list (list jsstring)) (l : list jsstring) (n : nat),
    forEach items (push (List.length A)) (World.mk (A ++ [l]) n)
    = (tt, World.mk (A ++ [l ++ items]) n).
Proof.
  induction items as [|a items IH]; intros A l n; simpl.
  - rewrite app_nil_r. reflexivity.
  - rewrite (bind_step _ _ _ _ _ (push_last A l n a)).
    rewrite IH, <- app_assoc. reflexivity.
Qed.

Lemma forEach_pushIfNew_last (items : list jsstring) :
  forall (A : list (list jsstring)) (l : list jsstring) (n : nat),
    forEach items (pushIfNew (List.length A)) (World.mk (A ++ [l]) n)
    = (tt, World.mk (A ++ [fold_left pushNew items l]) n).
Proof.
  induction items as [|a items IH]; intros A l n; simpl.
  - reflexivity.
  - rewrite (bind_step _ _ _ _ _ (pushIfNew_last A l n a)).
    apply IH.
Qed.

(** *** Tables *)

Lemma rowIndex_bound (t : SiteType) (rows : SiteType -> list jsstring) :
  (rowIndex t < List.length (map rows allSiteTypes)).
Proof. destruct t; simpl; lia. Qed.

Lemma nth_row (t : SiteType) (rows : SiteType -> list jsstring) :
  nth (rowIndex t) (map rows allSiteTypes) [] = rows t.
Proof. destruct t; reflexivity. Qed.

Lemma newTable_run (rows : SiteType -> list jsstring)
  (A : list (list jsstring)) (n : nat) :
  exists byType,
    newTable rows (World.mk A n)
    = (byType, World.mk (A ++ map rows allSiteTypes) n)
    /\ forall t, byType t = (List.length A + rowIndex t).
Proof.
  eexists. split.
  - unfold newTable.
    repeat (rewrite (bind_step _ _ _ _ _ (newArray_run _ _ _))).
    unfold ret. simpl. rewrite <- !app_assoc. simpl. reflexivity.
  - intros t. destruct t; simpl; rewrite ?length_app; simpl; lia.
Qed.

(** *** Worlds that only gain arrays *)

Lemma gains_refl (w : World.t) : gains w w.
Proof. split; [exists []; symmetry; apply app_nil_r | reflexivity]. Qed.

Lemma gains_trans (w1 w2 w3 : World.t) :
  gains w1 w2 -> gains w2 w3 -> gains w1 w3.
Proof.
  intros [[n1 E1] R1] [[n2 E2] R2]. split.
  - exists (n1 ++ n2). rewrite E2, E1, app_assoc. reflexivity.
  - congruence.
Qed.

Lemma gains_app (A news : list (list jsstring)) (n : nat) :
  gains (World.mk A n) (World.mk (A ++ news) n).
Proof. split; [exists news|]; reflexivity. Qed.

Lemma holds_gains (r : ref) (v : list jsstring) (w w' : World.t) :
  gains w w' -> holds r v w -> holds r v w'.
Proof.
  intros [[news E] _] Hh. unfold holds in *. rewrite E.
  rewrite nth_error_app1; [exact Hh|].
  apply nth_error_Some. congruence.
Qed.

Lemma holds_last (A : list (list jsstring)) (v : list jsstring) (n : nat) :
  holds (List.length A) v (World.mk (A ++ [v]) n).
Proof.
  unfold holds. simpl. rewrite nth_error_app2 by lia.
  rewrite Nat.sub_diag. reflexivity.
Qed.

Lemma holds_at (A L : list (list jsstring)) (i n : nat) (v : list jsstring) :
  nth_error L i = Some v ->
  holds (List.length A + i) v (World.mk (A ++ L) n).
Proof.
  intros E. unfold holds. simpl. rewrite nth_error_app2 by lia.
  replace (List.length A + i - List.length A) with i by lia. exact E.
Qed.

Lemma nth_error_store {X} (L : list X) (i : nat) (v : X) :
  i < List.length L -> nth_error (store i v L) i = Some v.
Proof.
  revert i. induction L as [|x L IH]; intros [|i] Hi; simpl in *;
    try lia; auto.
  apply IH. lia.
Qed.

Lemma nth_error_row (t : SiteType) (rows : SiteType -> list jsstring) :
  nth_error (map rows allSiteTypes) (rowIndex t) = Some (rows t).
Proof. destruct t; reflexivity. Qed.

Lemma elements_holds (r : ref) (v : list jsstring) (w : World.t) :
  holds r v w -> elements r w = (v, w).
Proof.
  intros Hh. unfold elements. rewrite (nth_error_nth _ _ _ Hh). reflexivity.
Qed.

Ltac step E := rewrite (bind_step _ _ _ _ _ E); cbv beta iota.

Ltac settle :=
  unfold ret; eexists; eexists; split; [reflexivity|]; split;
  [ rewrite <- ?app_assoc; apply gains_app |].

(** Reading an array that an earlier block has left. *)
Ltac recall Hh :=
  match goal with
  | |- context [bind (elements ?r) _ (World.mk ?B ?n)] =>
      let Hh' := fresh "Hh" in
      assert (Hh' : holds r _ (World.mk B n))
        by (eapply holds_gains;
            [ rewrite <- ?app_assoc; apply gains_app | exact Hh ]);
      step (elements_holds _ _ _ Hh'); clear Hh'
  end.

(** Moving what is known of the heap to the world a block leaves. *)
Ltac transport G :=
  repeat match goal with
         | Hh : holds _ _ ?w0 |- _ =>
             match type of G with
             | gains w0 _ => apply (holds_gains _ _ _ _ G) in Hh
             end
         | Hh : forall t, holds _ _ ?w0 |- _ =>
             match type of G with
             | gains w0 _ =>
                 let Hh' := fresh "Ht" in
                 pose proof (fun t => holds_gains _ _ _ _ G (Hh t)) as Hh';
                 cbv beta in Hh'; clear Hh; rename Hh' into Hh
             end
         | Gall : gains _ ?w0 |- _ =>
             match type of G with
             | gains w0 _ => apply (fun g => gains_trans _ _ _ g G) in Gall
             end
         end.

(** Running a block whose specification is [S]. *)
Ltac run S r Hr :=
  let w' := fresh "w" in
  let E := fresh "E" in
  let G := fresh "G" in
  destruct S as (r & w' & E & G & Hr);
  step E; clear E; transport G; clear G.

Ltac run0 L r Hr :=
  match goal with
  | |- context [bind _ _ ?w] => run (L w) r Hr
  end.

Lemma newArray_spec (l : list jsstring) (w : World.t) :
  allocates (newArray l) w (fun r w' => holds r l w').
Proof.
  destruct w as [A n]. unfold allocates. rewrite newArray_run.
  eexists; eexists. split; [reflexivity|]. split.
  - apply gains_app.
  - apply holds_last.
Qed.

Section HeapRun.

Variable toLowerCase : jsstring -> jsstring.
Variable inherited : jsstring -> option jsstring.
Variable raw : jsstring.
Variable hints : option Hints.t.
Variable clock : nat -> Z.

Lemma audienceM_spec (w : World.t) :
  allocates (audienceM toLowerCase raw hints) w
    (fun r w' => holds r (audience toLowerCase raw hints) w').
Proof.
  destruct w as [A n]. unfold allocates, audienceM.
  step (newArray_run [] A n).
  step (forEach_push_last (fun k => contains toLowerCase raw (Str k))
          audienceHints A [] n).
  rewrite app_nil_l.
  step (elements_last A
          (collect (fun k => contains toLowerCase raw (Str k))
             audienceHints) n).
  unfold audience, audienceDetected. cbv zeta.
  destruct (collect (fun k => contains toLowerCase raw (Str k))
              audienceHints) as [|x found]; cbv beta iota.
  - step (newArray_run [audienceFallback] (A ++ [[]]) n).
    step (elements_last (A ++ [[]]) [audienceFallback] n).
    step (newArray_run (uniq [audienceFallback])
            ((A ++ [[]]) ++ [[audienceFallback]]) n).
    step (hintLoop_last ((A ++ [[]]) ++ [[audienceFallback]])
            (uniq [audienceFallback]) n (hint Hints.audience hints)).
    settle. apply holds_last.
  - step (ret_run (List.length A) (World.mk (A ++ [x :: found]) n)).
    step (elements_last A (x :: found) n).
    step (newArray_run (uniq (x :: found)) (A ++ [x :: found]) n).
    step (hintLoop_last (A ++ [x :: found]) (uniq (x :: found)) n
            (hint Hints.audience hints)).
    settle. apply holds_last.
Qed.


Lemma toneWordsM_spec (w : World.t) :
  allocates (toneWordsM toLowerCase raw hints) w
    (fun r w' => holds r (toneWords toLowerCase raw hints) w').
Proof.
  destruct w as [A n]. unfold allocates, toneWordsM.
  step (newArray_run [] A n).
  step (forEach_push_last (containsRe toLowerCase raw) toneTests A [] n).
  rewrite app_nil_l.
  step (elements_last A (collect (containsRe toLowerCase raw) toneTests) n).
  unfold toneWords, toneDetected.
  destruct (collect (containsRe toLowerCase raw) toneTests) as [|x found];
    unfold when; cbv beta iota.
  - step (forEach_pushAll_last toneFallback A [] n). rewrite app_nil_l.
    step (hintLoop_last A toneFallback n (hint Hints.tone hints)).
    settle. apply holds_last.
  - step (ret_run tt (World.mk (A ++ [x :: found]) n)).
    step (hintLoop_last A (x :: found) n (hint Hints.tone hints)).
    settle. apply holds_last.
Qed.

Lemma featuresM_spec (w : World.t) :
  allocates (featuresM toLowerCase raw hints) w
    (fun r w' => holds r (features toLowerCase raw hints) w').
Proof.
  destruct w as [A n]. unfold allocates, featuresM.
  step (newArray_run
          (uniq (collect (containsRe toLowerCase raw) featureMap)) A n).
  step (hintLoop_last A
          (uniq (collect (containsRe toLowerCase raw) featureMap)) n
          (hint Hints.features hints)).
  settle. unfold features, featuresMatched. apply holds_last.
Qed.

Lemma newTable_spec (rows : SiteType -> list jsstring) (w : World.t) :
  allocates (newTable rows) w
    (fun byType w' => forall t, holds (byType t) (rows t) w').
Proof.
  destruct w as [A n]. unfold allocates.
  destruct (newTable_run rows A n) as (byType & E & Hrow).
  exists byType. eexists. split; [exact E|]. split.
  - apply gains_app.
  - intros t. rewrite Hrow. apply holds_at. apply nth_error_row.
Qed.

Lemma selectedFeaturesM_spec (d f : ref) (w : World.t) :
  holds d (defaultFeaturesByType (siteType toLowerCase raw hints)) w ->
  holds f (features toLowerCase raw hints) w ->
  allocates (selectedFeaturesM d f) w
    (fun r w' => holds r (selectedFeatures toLowerCase raw hints) w').
Proof.
  intros Hd Hf. unfold allocates, selectedFeaturesM.
  step (elements_holds _ _ _ Hd). step (elements_holds _ _ _ Hf).
  apply newArray_spec.
Qed.

Lemma improvedOf_improvedText :
  improvedOf toLowerCase inherited raw hints
    (mapAudienceOut inherited hints (audience toLowerCase raw hints))
    (mapToneOut inherited hints (toneWords toLowerCase raw hints))
    (sectionsByType (siteType toLowerCase raw hints))
    (selectedFeatures toLowerCase raw hints)
  = improvedText toLowerCase inherited raw hints.
Proof. reflexivity. Qed.

Lemma improvedM_run (a t s f : ref) (w : World.t) :
  holds a (audience toLowerCase raw hints) w ->
  holds t (toneWords toLowerCase raw hints) w ->
  holds s (sectionsByType (siteType toLowerCase raw hints)) w ->
  holds f (selectedFeatures toLowerCase raw hints) w ->
  improvedM toLowerCase inherited raw hints a t s f w
  = (improvedText toLowerCase inherited raw hints, w).
Proof.
  intros Ha Ht Hs Hf. unfold improvedM.
  step (elements_holds _ _ _ Ha). step (elements_holds _ _ _ Ht).
  step (elements_holds _ _ _ Hs). step (elements_holds _ _ _ Hf).
  rewrite improvedOf_improvedText. reflexivity.
Qed.

Lemma industriesM_spec (w : World.t) :
  allocates (industriesM toLowerCase raw hints) w
    (fun r w' => holds r (industries toLowerCase raw hints) w').
Proof.
  destruct w as [A n]. unfold allocates, industriesM.
  step (newArray_run
          (uniq (collect (containsRe toLowerCase raw) industryMap)) A n).
  step (elements_last A
          (uniq (collect (containsRe toLowerCase raw) industryMap)) n).
  unfold industries, industriesDetected.
  destruct (uniq (collect (containsRe toLowerCase raw) industryMap))
    as [|x found]; unfold when; cbv beta iota.
  - step (push_last A [] n (js "General")). rewrite app_nil_l.
    step (hintLoop_last A [js "General"] n (hint Hints.industries hints)).
    settle. apply holds_last.
  - step (ret_run tt (World.mk (A ++ [x :: found]) n)).
    step (hintLoop_last A (x :: found) n (hint Hints.industries hints)).
    settle. apply holds_last.
Qed.

Lemma languagesM_spec (w : World.t) :
  allocates (languagesM toLowerCase raw hints) w
    (fun r w' => holds r (languages toLowerCase raw hints) w').
Proof.
  destruct w as [A n]. unfold allocates, languagesM.
  step (newArray_run (languagesDetected toLowerCase raw) A n).
  step (hintLoop_last A (languagesDetected toLowerCase raw) n
          (hint Hints.languages hints)).
  settle. apply holds_last.
Qed.

Lemma regionsM_spec (w : World.t) :
  allocates (regionsM toLowerCase raw hints) w
    (fun r w' => holds r (regions toLowerCase raw hints) w').
Proof.
  destruct w as [A n]. unfold allocates, regionsM.
  step (newArray_run
          (uniq (collect (containsRe toLowerCase raw) regionMap)) A n).
  step (elements_last A
          (uniq (collect (containsRe toLowerCase raw) regionMap)) n).
  unfold regions, regionsDetected.
  destruct (uniq (collect (containsRe toLowerCase raw) regionMap))
    as [|x found]; unfold when; cbv beta iota.
  - step (push_last A [] n (js "Global")). rewrite app_nil_l.
    step (hintLoop_last A [js "Global"] n (hint Hints.regions hints)).
    settle. apply holds_last.
  - step (ret_run tt (World.mk (A ++ [x :: found]) n)).
    step (hintLoop_last A (x :: found) n (hint Hints.regions hints)).
    settle. apply holds_last.
Qed.

Lemma requiresPaymentsM_run (f : ref) (w : World.t) :
  holds f (features toLowerCase raw hints) w ->
  requiresPaymentsM toLowerCase raw hints f w
  = (requiresPaymentsFinal toLowerCase raw hints, w).
Proof.
  intros Hf. unfold requiresPaymentsM.
  step (elements_holds _ _ _ Hf). reflexivity.
Qed.

Lemma complianceM_spec (w : World.t) :
  allocates (complianceM toLowerCase raw hints) w
    (fun r w' => holds r (compliance toLowerCase raw hints) w').
Proof.
  destruct w as [A n]. unfold allocates, complianceM.
  step (newArray_run [] A n).
  step (forEach_push_last (containsRe toLowerCase raw) complianceTests
          A [] n).
  rewrite app_nil_l.
  step (hintLoop_last A
          (collect (containsRe toLowerCase raw) complianceTests) n
          (hint Hints.compliance hints)).
  settle. apply holds_last.
Qed.

Lemma pagesM_spec (f : ref) (w : World.t) :
  holds f (features toLowerCase raw hints) w ->
  allocates
    (pagesM toLowerCase raw hints f
       (requiresPaymentsFinal toLowerCase raw hints)) w
    (fun r w' => holds r (pages toLowerCase raw hints) w').
Proof.
  intros Hf. destruct w as [A n]. unfold allocates, pagesM.
  destruct (newTable_run pagesByType A n) as (byType & E & Hrow).
  step E. rewrite Hrow.
  step (elements_at A (map pagesByType allSiteTypes)
          (rowIndex (siteType toLowerCase raw hints)) n).
  rewrite nth_row.
  step (newArray_run (uniq (pagesByType (siteType toLowerCase raw hints)))
          (A ++ map pagesByType allSiteTypes) n).
  recall Hf.
  step (elements_last (A ++ map pagesByType allSiteTypes)
          (uniq (pagesByType (siteType toLowerCase raw hints))) n).
  step (when_push_last
          (includes (features toLowerCase raw hints) (js "Blog")
           && negb (includes
                      (uniq (pagesByType (siteType toLowerCase raw hints)))
                      (js "Blog")))
          (A ++ map pagesByType allSiteTypes)
          (uniq (pagesByType (siteType toLowerCase raw hints))) n
          (js "Blog")).
  match goal with
  | |- context [bind (hintLoop _ _) _ (World.mk (_ ++ [?l]) _)] =>
      step (hintLoop_last (A ++ map pagesByType allSiteTypes) l n
              (hint Hints.pages hints));
      assert (B : l = pagesBase toLowerCase raw hints)
  end.
  { unfold pagesBase, pushNew. cbv zeta.
    destruct (includes (features toLowerCase raw hints) (js "Blog"));
      destruct (includes
                  (uniq (pagesByType (siteType toLowerCase raw hints)))
                  (js "Blog")); reflexivity. }
  rewrite B. unfold pages. cbv zeta.
  destruct (requiresPaymentsFinal toLowerCase raw hints); unfold when.
  - step (forEach_pushIfNew_last (jsl ["Billing"; "Checkout"])
            (A ++ map pagesByType allSiteTypes)
            (mergeHints (pagesBase toLowerCase raw hints)
               (hint Hints.pages hints)) n).
    settle. apply holds_last.
  - step (ret_run tt
            (World.mk
               ((A ++ map pagesByType allSiteTypes)
                ++ [mergeHints (pagesBase toLowerCase raw hints)
                      (hint Hints.pages hints)]) n)).
    settle. apply holds_last.
Qed.

Lemma sitemapM_run (p : ref) (w : World.t) :
  holds p (pages toLowerCase raw hints) w ->
  sitemapM toLowerCase p w = (sitemap toLowerCase raw hints, w).
Proof.
  intros Hp. unfold sitemapM. step (elements_holds _ _ _ Hp). reflexivity.
Qed.

Lemma userStoriesM_spec (w : World.t) :
  allocates (userStoriesM toLowerCase raw hints) w
    (fun r w' => holds r (userStories toLowerCase raw hints) w').
Proof.
  destruct w as [A n]. unfold allocates, userStoriesM.
  destruct (newTable_run userStoriesByType A n) as (byType & E & Hrow).
  step E. rewrite Hrow.
  step (elements_at A (map userStoriesByType allSiteTypes)
          (rowIndex (siteType toLowerCase raw hints)) n).
  rewrite nth_row.
  step (newArray_run (userStoriesDefault toLowerCase raw hints)
          (A ++ map userStoriesByType allSiteTypes) n).
  step (hintLoop_last (A ++ map userStoriesByType allSiteTypes)
          (userStoriesDefault toLowerCase raw hints) n
          (hint Hints.userStories hints)).
  settle. apply holds_last.
Qed.

Lemma techSuggestionsM_spec (f : ref) (w : World.t) :
  holds f (features toLowerCase raw hints) w ->
  allocates
    (techSuggestionsM toLowerCase raw hints f
       (requiresPaymentsFinal toLowerCase raw hints)) w
    (fun r w' => holds r (techSuggestions toLowerCase raw hints) w').
Proof.
  intros Hf. destruct w as [A n]. unfold allocates, techSuggestionsM.
  step (newArray_run techBaseline A n).
  step (when_push_last (requiresPaymentsFinal toLowerCase raw hints) A
          techBaseline n (js "Stripe (or regional: Paymob/Fawry/MADA)")).
  match goal with
  | |- context [World.mk (A ++ [?l]) n] =>
      step (when_push_last (usesArabic toLowerCase raw) A l n
              (js "i18n with Arabic + RTL support"))
  end.
  recall Hf.
  match goal with
  | |- context [World.mk (A ++ [?l]) n] =>
      step (when_push_last
              (includes (features toLowerCase raw hints) (js "Blog")) A l n
              (js "MDX or headless CMS (e.g., Sanity)"))
  end.
  match goal with
  | |- context [World.mk (A ++ [?l]) n] =>
      step (elements_last A l n);
      step (newArray_run (uniq l) (A ++ [l]) n);
      step (hintLoop_last (A ++ [l]) (uniq l) n (hint Hints.tech hints))
  end.
  settle. apply holds_last.
Qed.

Lemma kpisM_spec (w : World.t) :
  allocates (kpisM toLowerCase raw hints) w
    (fun r w' => holds r (kpis toLowerCase raw hints) w').
Proof.
  destruct w as [A n]. unfold allocates, kpisM.
  destruct (newTable_run kpisByType A n) as (byType & E & Hrow).
  step E. cbv zeta. rewrite Hrow.
  step (hintLoop_at A (map kpisByType allSiteTypes)
          (rowIndex (siteType toLowerCase raw hints)) n
          (hint Hints.kpis hints)
          (rowIndex_bound (siteType toLowerCase raw hints) kpisByType)).
  rewrite nth_row. settle.
  apply holds_at. apply nth_error_store. apply rowIndex_bound.
Qed.

Lemma fixedListM_spec (base : list jsstring) (h : option (list jsstring))
  (w : World.t) :
  allocates (fixedListM base h) w
    (fun r w' => holds r (mergeHints base h) w').
Proof.
  destruct w as [A n]. unfold allocates, fixedListM.
  step (newArray_run base A n). step (hintLoop_last A base n h).
  settle. apply holds_last.
Qed.

Lemma clarifyingQuestionsM_spec (l c : ref) (w : World.t) :
  holds l (languages toLowerCase raw hints) w ->
  holds c (compliance toLowerCase raw hints) w ->
  allocates
    (clarifyingQuestionsM toLowerCase raw hints
       (requiresPaymentsFinal toLowerCase raw hints) l c) w
    (fun r w' => holds r (clarifyingQuestions toLowerCase raw hints) w').
Proof.
  intros Hl Hc. destruct w as [A n].
  unfold allocates, clarifyingQuestionsM.
  step (newArray_run clarifyingBase A n).
  step (when_push_last (requiresPaymentsFinal toLowerCase raw hints) A
          clarifyingBase n
          (js "Which payment gateways do you prefer (Stripe, Paymob, Fawry, MADA, etc.) and which currency to charge?")).
  recall Hl.
  do 5 match goal with
  | |- context [bind (when ?b (push _ ?q)) _ (World.mk (A ++ [?x]) n)] =>
      step (when_push_last b A x n q)
  end.
  recall Hc.
  match goal with
  | |- context [bind (when ?b (push _ ?q)) _ (World.mk (A ++ [?x]) n)] =>
      step (when_push_last b A x n q)
  end.
  settle. apply holds_last.
Qed.


Lemma blueprintOf_projectBlueprint :
  blueprintOf toLowerCase inherited raw hints
    (industries toLowerCase raw hints) (regions toLowerCase raw hints)
    (languages toLowerCase raw hints) (sitemap toLowerCase raw hints)
    (userStories toLowerCase raw hints) (nonFunctional toLowerCase raw)
    (kpis toLowerCase raw hints) (techSuggestions toLowerCase raw hints)
    (contentChecklist hints) (milestones hints)
    (clarifyingQuestions toLowerCase raw hints)
  = projectBlueprint toLowerCase inherited raw hints.
Proof. reflexivity. Qed.

Lemma blueprintM_run (i r l u nf k t c m q : ref) (w : World.t) :
  holds i (industries toLowerCase raw hints) w ->
  holds r (regions toLowerCase raw hints) w ->
  holds l (languages toLowerCase raw hints) w ->
  holds u (userStories toLowerCase raw hints) w ->
  holds nf (nonFunctional toLowerCase raw) w ->
  holds k (kpis toLowerCase raw hints) w ->
  holds t (techSuggestions toLowerCase raw hints) w ->
  holds c (contentChecklist hints) w ->
  holds m (milestones hints) w ->
  holds q (clarifyingQuestions toLowerCase raw hints) w ->
  blueprintM toLowerCase inherited raw hints i r l
    (sitemap toLowerCase raw hints) u nf k t c m q w
  = (projectBlueprint toLowerCase inherited raw hints, w).
Proof.
  intros Hi Hr Hl Hu Hn Hk Ht Hc Hm Hq. unfold blueprintM.
  step (elements_holds _ _ _ Hi). step (elements_holds _ _ _ Hr).
  step (elements_holds _ _ _ Hl). step (elements_holds _ _ _ Hu).
  step (elements_holds _ _ _ Hn). step (elements_holds _ _ _ Hk).
  step (elements_holds _ _ _ Ht). step (elements_holds _ _ _ Hc).
  step (elements_holds _ _ _ Hm). step (elements_holds _ _ _ Hq).
  rewrite blueprintOf_projectBlueprint. reflexivity.
Qed.

Lemma detailsM_run (a t s d f sf i r l c p u ts nf k cc m ps q : ref)
  (w : World.t) :
  holds a (audience toLowerCase raw hints) w ->
  holds t (toneWords toLowerCase raw hints) w ->
  holds s (sectionsByType (siteType toLowerCase raw hints)) w ->
  holds d (defaultFeaturesByType (siteType toLowerCase raw hints)) w ->
  holds f (features toLowerCase raw hints) w ->
  holds sf (selectedFeatures toLowerCase raw hints) w ->
  holds i (industries toLowerCase raw hints) w ->
  holds r (regions toLowerCase raw hints) w ->
  holds l (languages toLowerCase raw hints) w ->
  holds c (compliance toLowerCase raw hints) w ->
  holds p (pages toLowerCase raw hints) w ->
  holds u (userStories toLowerCase raw hints) w ->
  holds ts (techSuggestions toLowerCase raw hints) w ->
  holds nf (nonFunctional toLowerCase raw) w ->
  holds k (kpis toLowerCase raw hints) w ->
  holds cc (contentChecklist hints) w ->
  holds m (milestones hints) w ->
  holds ps (personas hints) w ->
  holds q (clarifyingQuestions toLowerCase raw hints) w ->
  detailsM toLowerCase raw hints a t s d f sf i r l
    (requiresPaymentsFinal toLowerCase raw hints) c p
    (sitemap toLowerCase raw hints) u ts nf k cc m ps q
    (projectBlueprint toLowerCase inherited raw hints) w
  = (detailsOf toLowerCase inherited raw hints, w).
Proof.
  intros Ha Ht Hs Hd Hf Hsf Hi Hr Hl Hc Hp Hu Hts Hnf Hk Hcc Hm Hps Hq.
  unfold detailsM.
  step (elements_holds _ _ _ Ha). step (elements_holds _ _ _ Ht).
  step (elements_holds _ _ _ Hs). step (elements_holds _ _ _ Hd).
  step (elements_holds _ _ _ Hf). step (elements_holds _ _ _ Hsf).
  step (elements_holds _ _ _ Hi). step (elements_holds _ _ _ Hr).
  step (elements_holds _ _ _ Hl). step (elements_holds _ _ _ Hc).
  step (elements_holds _ _ _ Hp). step (elements_holds _ _ _ Hu).
  step (elements_holds _ _ _ Hts). step (elements_holds _ _ _ Hnf).
  step (elements_holds _ _ _ Hk). step (elements_holds _ _ _ Hcc).
  step (elements_holds _ _ _ Hm). step (elements_holds _ _ _ Hps).
  step (elements_holds _ _ _ Hq).
  reflexivity.
Qed.


(** One invocation in any world: it returns what [improveIdea] returns
    on the two clock readings it takes, and leaves the arrays it found
    as they were. *)
Lemma improveIdeaM_run (w : World.t) :
  exists news,
    improveIdeaM toLowerCase inherited raw hints clock w
    = (improveIdea toLowerCase inherited raw hints
         (fun k => clock (World.readings w + k)),
       World.mk (World.arrays w ++ news) (World.readings w + 2)).
Proof.
  destruct w as [A n]. unfold improveIdeaM.
  step (now_run clock (World.mk A n)). cbn [World.arrays World.readings].
  assert (Gall : gains (World.mk A (S n)) (World.mk A (S n)))
    by apply gains_refl.
  revert Gall. generalize (World.mk A (S n)) at 2 3. intros w0 Gall.
  run0 (audienceM_spec) a Ha.
  run0 (toneWordsM_spec) t Ht.
  run0 (featuresM_spec) f Hf.
  run0 (newTable_spec defaultFeaturesByType) defaults Hd.
  run0 (newTable_spec sectionsByType) sections Hs.
  cbv zeta.
  pose proof (Hd (siteType toLowerCase raw hints)) as Hd'.
  pose proof (Hs (siteType toLowerCase raw hints)) as Hs'.
  clear Hd Hs.
  run (selectedFeaturesM_spec _ _ _ Hd' Hf) sf Hsf.
  step (improvedM_run _ _ _ _ _ Ha Ht Hs' Hsf).
  run0 (industriesM_spec) i Hi.
  run0 (languagesM_spec) l Hl.
  run0 (regionsM_spec) r Hr.
  step (requiresPaymentsM_run _ _ Hf).
  run0 (complianceM_spec) c Hc.
  run (pagesM_spec _ _ Hf) p Hp.
  step (sitemapM_run _ _ Hp).
  run0 (userStoriesM_spec) u Hu.
  run (techSuggestionsM_spec _ _ Hf) ts Hts.
  run0 (newArray_spec (nonFunctional toLowerCase raw)) nf Hnf.
  run0 (kpisM_spec) k Hk.
  run0 (fixedListM_spec contentChecklistBase
          (hint Hints.contentChecklist hints)) cc Hcc.
  run0 (fixedListM_spec milestonesBase (hint Hints.milestones hints)) m Hm.
  run0 (fixedListM_spec personasBase (hint Hints.personas hints)) ps Hps.
  run (clarifyingQuestionsM_spec _ _ _ Hl Hc) q Hq.
  step (blueprintM_run _ _ _ _ _ _ _ _ _ _ _ Hi Hr Hl Hu Hnf Hk Hts Hcc Hm
          Hq).
  step (detailsM_run _ _ _ _ _ _ _ _ _ _ _ _ _ _ _ _ _ _ _ _
          Ha Ht Hs' Hd' Hf Hsf Hi Hr Hl Hc Hp Hu Hts Hnf Hk Hcc Hm Hps Hq).
  match goal with
  | |- context [bind (now clock) _ ?w] => step (now_run clock w)
  end.
  destruct Gall as [[news E] R]. cbn [World.arrays World.readings] in E, R.
  exists news. rewrite E, R. unfold ret, improveIdea. cbv zeta beta.
  rewrite Nat.add_0_r, Nat.add_1_r.
  replace (n + 2) with (S (S n)) by lia. reflexivity.
Qed.

End HeapRun.

End Heap.

(** C8, as amended: for a fixed text and hints, two invocations, the
    second in the world the first has left (its arrays on the heap, its
    clock readings taken), return the same improved prompt, the same
    blueprint and the same details object, although each builds and
    pushes to its arrays, one of them a row of its [kpisByType] table:
    every array an invocation writes to is one it has made itself, and
    the arrays it found are as they were.  The processing time of each
    is the difference of the two clock readings it takes, the first
    and second reading for the first invocation and the third and
    fourth for the second. *)
Theorem C8_invocations_agree
  (toLowerCase : jsstring -> jsstring)
  (inherited : jsstring -> option jsstring)
  (raw : jsstring) (hints : option Hints.t) (clock : nat -> Z)
  (w : World.t) :
  let invocation := improveIdeaM toLowerCase inherited raw hints clock in
  let outputs := fst (twice invocation invocation w) in
  let left := snd (twice invocation invocation w) in
  let first := fst outputs in
  let second := snd outputs in
  let read := fun k => clock (World.readings w + k)%nat in
  improved first = improved second
  /\ Details.blueprint (details first) = Details.blueprint (details second)
  /\ details first = details second
  /\ processingMs first = (read 1%nat - read 0%nat)%Z
  /\ processingMs second = (read 3%nat - read 2%nat)%Z
  /\ first = improveIdea toLowerCase inherited raw hints read
  /\ World.readings left = (World.readings w + 4)%nat
  /\ exists made, World.arrays left = World.arrays w ++ made.
Proof.
  cbv zeta.
  destruct (improveIdeaM_run toLowerCase inherited raw hints clock w)
    as [made1 E1].
  destruct (improveIdeaM_run toLowerCase inherited raw hints clock
              (World.mk (World.arrays w ++ made1)
                 (World.readings w + 2)))
    as [made2 E2].
  unfold twice. rewrite (bind_step _ _ _ _ _ E1).
  rewrite (bind_step _ _ _ _ _ E2). unfold ret.
  cbn [fst snd World.arrays World.readings].
  unfold improveIdea. cbv zeta.
  cbn [improved details processingMs].
  replace (World.readings w + 2 + 1)%nat with (World.readings w + 3)%nat
    by lia.
  replace (World.readings w + 2 + 0)%nat with (World.readings w + 2)%nat
    by lia.
  repeat split.
  - lia.
  - exists (made1 ++ made2). rewrite app_assoc. reflexivity.
Qed.

(** ** The site-type chain *)

Lemma siteTypeDetected_firstTest toLowerCase raw :
  siteTypeDetected toLowerCase raw
  = firstTest (fun k => test k (toLowerCase (trim raw))) siteTypeTests.
Proof. reflexivity. Qed.

Lemma firstTest_split matches before k t after :
  (forall k' t', In (k', t') before -> matches k' = false) ->
  matches k = true ->
  firstTest matches (before ++ (k, t) :: after) = t.
Proof.
  intros Hb Hk. induction before as [|[k' t'] before IH]; simpl.
  - now rewrite Hk.
  - rewrite (Hb k' t') by now left.
    apply IH. intros k2 t2 H2. apply (Hb k2 t2). now right.
Qed.

Lemma firstTest_In matches tests :
  firstTest matches tests = generic
  \/ exists before k after,
       tests = before ++ (k, firstTest matches tests) :: after
       /\ matches k = true
       /\ forall k' t', In (k', t') before -> matches k' = false.
Proof.
  induction tests as [|[k t] tests IH]; simpl; [now left|].
  destruct (matches k) eqn:E.
  - right. exists [], k, tests. simpl. split; [reflexivity|].
    split; [assumption | intros ? ? []].
  - destruct IH as [G|[before [k1 [after [E1 [M1 B1]]]]]]; [now left|].
    right. exists ((k, t) :: before), k1, after. simpl.
    split; [now rewrite <- E1|]. split; [assumption|].
    intros k' t' [H|H]; [now inversion H; subst | eauto].
Qed.

Lemma firstTest_none matches tests :
  (forall k t, In (k, t) tests -> matches k = false) ->
  firstTest matches tests = generic.
Proof.
  induction tests as [|[k t] tests IH]; simpl; intros H; [reflexivity|].
  rewrite (H k t) by now left. apply IH. intros k' t' H'.
  apply (H k' t'). now right.
Qed.

Lemma split_unique {K V} (b1 : list (K * V)) :
  forall b2 k1 k2 v a1 a2,
    NoDup (map snd (b1 ++ (k1, v) :: a1)) ->
    b1 ++ (k1, v) :: a1 = b2 ++ (k2, v) :: a2 ->
    b1 = b2 /\ k1 = k2.
Proof.
  induction b1 as [|[k w] b1 IH]; intros [|[k' w'] b2] k1 k2 v a1 a2 D E;
    simpl in *.
  - injection E as -> _. auto.
  - exfalso. injection E as _ <- ->. inversion_clear D as [|? ? N _].
    apply N. rewrite map_app, in_app_iff. right. now left.
  - exfalso. injection E as _ -> _. inversion_clear D as [|? ? N _].
    apply N. rewrite map_app, in_app_iff. right. now left.
  - injection E as -> -> E. inversion_clear D as [|? ? _ D'].
    destruct (IH _ _ _ _ _ _ D' E) as [-> ->]. auto.
Qed.

(** The order at work: "b2b shop blog" matches the saas, the ecommerce
    and the blog pattern and is classified as saas, whose test comes
    first. *)
Lemma saas_test_comes_first :
  test saasPattern (lower toLowerCasePlain (js "b2b shop blog")) = true
  /\ test ecommercePattern (lower toLowerCasePlain (js "b2b shop blog")) = true
  /\ test blogPattern (lower toLowerCasePlain (js "b2b shop blog")) = true
  /\ Details.siteType
       (details (improveIdea toLowerCasePlain noInherited
                   (js "b2b shop blog") None frozen))
     = saas.
Proof. repeat split; vm_compute; reflexivity. Qed.

(** C3: the classifier yields exactly one of the eight site types; it
    is the type of the first test of the chain saas, ecommerce,
    portfolio, restaurant, blog, event, booking whose pattern matches
    the lower-cased text, and [generic] exactly when no pattern matches.
    So text matching both the ecommerce and the blog pattern is never
    classified as blog: by the order it is ecommerce, unless the saas
    pattern, the one test before ecommerce, matches too. *)
Theorem C3_site_type_first_match
  (toLowerCase : jsstring -> jsstring)
  (inherited : jsstring -> option jsstring)
  (raw : jsstring) (clock : nat -> Z) :
  let text := toLowerCase (trim raw) in
  let matches := fun k => test k text in
  let t := Details.siteType
             (details (improveIdea toLowerCase inherited raw None clock)) in
  (In t allSiteTypes /\ NoDup allSiteTypes /\ List.length allSiteTypes = 8%nat)
  /\ map snd siteTypeTests
     = [saas; ecommerce; portfolio; restaurant; blog; event; booking]
  /\ (forall before k ty after,
        siteTypeTests = before ++ (k, ty) :: after ->
        (t = ty
         <-> matches k = true
             /\ forall k' ty', In (k', ty') before -> matches k' = false))
  /\ (t = generic
      <-> forall k ty, In (k, ty) siteTypeTests -> matches k = false)
  /\ (matches ecommercePattern = true -> matches blogPattern = true ->
      t <> blog
      /\ (t = ecommerce \/ t = saas)
      /\ (matches saasPattern = false -> t = ecommerce)).
Proof.
  cbv zeta.
  change (Details.siteType
            (details (improveIdea toLowerCase inherited raw None clock)))
    with (firstTest (fun k => test k (toLowerCase (trim raw))) siteTypeTests).
  set (matches := fun k => test k (toLowerCase (trim raw))).
  assert (D : NoDup (map snd siteTypeTests)).
  { simpl. repeat constructor; simpl; intuition discriminate. }
  assert (G : ~ In generic (map snd siteTypeTests)).
  { simpl. intuition discriminate. }
  split; [|split; [|split; [|split]]].
  - split; [|split].
    + destruct (firstTest matches siteTypeTests); simpl; tauto.
    + repeat constructor; simpl; intuition discriminate.
    + reflexivity.
  - reflexivity.
  - intros before k ty after S. split.
    + intros E.
      destruct (firstTest_In matches siteTypeTests)
        as [Hg|[b1 [k1 [a1 [E1 [M1 B1]]]]]].
      * exfalso. apply G. rewrite S, map_app, in_app_iff.
        right. left. simpl. congruence.
      * rewrite E in E1. rewrite E1 in D.
        assert (Same : b1 = before /\ k1 = k).
        { apply (split_unique b1 before k1 k ty a1 after D).
          now rewrite <- E1, <- S. }
        destruct Same as [-> ->]. auto.
    + intros [Hk Hb]. rewrite S. now apply firstTest_split.
  - split.
    + intros E k ty Hin.
      destruct (matches k) eqn:M; [exfalso | reflexivity].
      apply in_split in Hin. destruct Hin as [before [after S]].
      assert (exists ty', firstTest matches (before ++ (k, ty) :: after) = ty'
                          /\ In ty' (map snd (before ++ (k, ty) :: after)))
        as [ty' [E' I']].
      { clear - M.
        induction before as [|[k2 t2] before IH]; simpl.
        - rewrite M. eauto.
        - destruct (matches k2); [eauto|].
          destruct IH as [ty' [E' I']]. eauto. }
      rewrite <- S in E', I'. apply G. congruence.
    + now apply firstTest_none.
  - intros He Hb.
    change (firstTest matches siteTypeTests)
      with (if matches saasPattern then saas
            else if matches ecommercePattern then ecommerce
                 else firstTest matches (skipn 2 siteTypeTests)).
    rewrite He.
    destruct (matches saasPattern); repeat split; auto; discriminate.
Qed.

(** C3 at work: "an ecommerce blog" matches the ecommerce and the blog
    pattern and is classified as ecommerce. *)
Lemma C3_witness :
  Details.siteType
    (details (improveIdea toLowerCasePlain noInherited
                (js "an ecommerce blog") None frozen))
  = ecommerce.
Proof.
  apply (C3_site_type_first_match toLowerCasePlain noInherited
           (js "an ecommerce blog") frozen); reflexivity.
Defined.

(** ** The slug *)

Lemma isHyphen_eq c : isHyphen c = true <-> c = hyphen.
Proof. apply N.eqb_eq. Qed.

Lemma slugChar_not_hyphen c : notSlugChar c = false -> isHyphen c = false.
Proof.
  unfold notSlugChar, isLowerAZ, isDigit, isHyphen, hyphen.
  intros H. apply negb_false_iff in H.
  destruct (N.eqb_spec c 45) as [->|]; [discriminate H | reflexivity].
Qed.

Lemma squeeze_cons_other c r :
  isHyphen c = false -> squeeze (c :: r) = c :: squeeze r.
Proof. intros H. simpl. rewrite H. destruct r; reflexivity. Qed.

Lemma squeeze_hyphen_head r :
  exists r', squeeze (hyphen :: r) = hyphen :: r'.
Proof.
  induction r as [|d r IH].
  - now exists [].
  - cbn [squeeze]. change (isHyphen hyphen) with true. cbn [andb].
    destruct (isHyphen d) eqn:E.
    + apply isHyphen_eq in E. subst d. exact IH.
    + eauto.
Qed.

Lemma squeeze_cons_hyphen r :
  squeeze (hyphen :: r) = hyphen :: dropLead (squeeze r).
Proof.
  destruct r as [|d r]; [reflexivity|].
  destruct (isHyphen d) eqn:Ed.
  - apply isHyphen_eq in Ed. subst d.
    destruct (squeeze_hyphen_head r) as [r' Er].
    change (squeeze (hyphen :: hyphen :: r)) with (squeeze (hyphen :: r)).
    rewrite Er. reflexivity.
  - rewrite (squeeze_cons_other d r Ed). cbn [dropLead]. rewrite Ed.
    cbn [squeeze]. rewrite Ed, andb_false_r. destruct r; reflexivity.
Qed.

(** Every code unit below 128 is met by running through them. *)
Lemma below_128 (p : unit16 -> bool) :
  forallb p (map N.of_nat (seq 0 128)) = true ->
  forall c, (c <? 128) = true -> p c = true.
Proof.
  intros H c L. rewrite forallb_forall in H. apply H.
  apply in_map_iff. exists (N.to_nat c). split; [apply N2Nat.id|].
  apply in_seq. apply N.ltb_lt in L. lia.
Qed.

(** The class of the pattern [[^a-z0-9]] is the complement of the
    thirty-six kept characters. *)
Lemma notSlugChar_kept_ascii :
  forallb (fun c => Bool.eqb (notSlugChar c) (negb (keptInSlug c)))
    (map N.of_nat (seq 0 128)) = true.
Proof. vm_compute. reflexivity. Qed.

Lemma slugAlphabet_ascii : isAscii slugAlphabet = true.
Proof. vm_compute. reflexivity. Qed.

Lemma keptInSlug_unfold c :
  keptInSlug c = existsb (N.eqb c) slugAlphabet.
Proof. reflexivity. Qed.

Lemma notSlugChar_kept c : notSlugChar c = negb (keptInSlug c).
Proof.
  destruct (c <? 128) eqn:L.
  - pose proof (below_128 _ notSlugChar_kept_ascii c L) as E.
    cbv beta in E. apply eqb_prop in E. exact E.
  - apply N.ltb_ge in L.
    assert (K : keptInSlug c = false).
    { destruct (keptInSlug c) eqn:K; [|reflexivity].
      rewrite keptInSlug_unfold in K. apply existsb_exists in K.
      destruct K as (x & Hx & E). apply N.eqb_eq in E. subst x.
      pose proof (proj1 (forallb_forall _ _) slugAlphabet_ascii c Hx) as B.
      cbv beta in B. apply N.ltb_lt in B. lia. }
    rewrite K. unfold notSlugChar, isLowerAZ, isDigit.
    replace (c <=? 122) with false by (symmetry; apply N.leb_gt; lia).
    replace (c <=? 57) with false by (symmetry; apply N.leb_gt; lia).
    now rewrite !andb_false_r.
Qed.

Lemma hyphenate_notSlugChar c :
  hyphenate c = if notSlugChar c then hyphen else c.
Proof.
  unfold hyphenate. rewrite notSlugChar_kept. now destruct (keptInSlug c).
Qed.

Lemma replaceRuns_squeeze s :
  replaceRuns notSlugChar [hyphen] false s = squeeze (map hyphenate s)
  /\ replaceRuns notSlugChar [hyphen] true s
     = dropLead (squeeze (map hyphenate s)).
Proof.
  induction s as [|c s [IHf IHt]]; [split; reflexivity|].
  cbn [replaceRuns map]. rewrite !(hyphenate_notSlugChar c).
  destruct (notSlugChar c) eqn:Ec.
  - rewrite IHt, squeeze_cons_hyphen. split; reflexivity.
  - pose proof (slugChar_not_hyphen c Ec) as Hc.
    rewrite IHf, (squeeze_cons_other _ _ Hc). cbn [dropLead]. rewrite Hc.
    split; reflexivity.
Qed.

Lemma dropWhile_all {A} (p : A -> bool) l :
  forallb p l = true -> dropWhile p l = [].
Proof.
  induction l as [|x l IH]; simpl; [reflexivity|].
  destruct (p x); simpl; [exact IH | discriminate].
Qed.

Lemma dropWhile_snoc {A} (p : A -> bool) l c :
  dropWhile p (l ++ [c])
  = if forallb p l then (if p c then [] else [c]) else dropWhile p l ++ [c].
Proof.
  induction l as [|x l IH]; simpl; [reflexivity|].
  destruct (p x); simpl; [exact IH | reflexivity].
Qed.

Lemma forallb_rev' {A} (p : A -> bool) l : forallb p (rev l) = forallb p l.
Proof.
  induction l as [|x l IH]; simpl; [reflexivity|].
  rewrite forallb_app, IH. simpl. rewrite andb_true_r. apply andb_comm.
Qed.

Lemma dropTrailingHyphens_spec s :
  dropTrailingHyphens s = dropWhileEnd isHyphen s.
Proof.
  unfold dropWhileEnd. induction s as [|c s IH]; [reflexivity|].
  cbn [dropTrailingHyphens rev]. rewrite dropWhile_snoc, forallb_rev', IH.
  destruct (forallb isHyphen s) eqn:Es.
  - rewrite andb_true_r.
    rewrite (dropWhile_all isHyphen (rev s)) by now rewrite forallb_rev'.
    destruct (isHyphen c); reflexivity.
  - rewrite andb_false_r, rev_app_distr. reflexivity.
Qed.

Lemma stripEdgeHyphens_spec s :
  stripEdgeHyphens s = dropWhileEnd isHyphen (dropWhile isHyphen s).
Proof.
  destruct s as [|c s]; [reflexivity|].
  unfold stripEdgeHyphens. rewrite !dropTrailingHyphens_spec.
  cbn [dropWhile]. destruct (isHyphen c); reflexivity.
Qed.

Lemma slugify_spec toLowerCase s :
  slugify toLowerCase s = js "/" ++ slugSpec (toLowerCase s).
Proof.
  unfold slugify, slugSpec. rewrite stripEdgeHyphens_spec.
  change (js "-") with [hyphen].
  now rewrite (proj1 (replaceRuns_squeeze (toLowerCase s))).
Qed.

(** On lower-cased ASCII text the alphanumeric characters are the
    thirty-six kept ones. *)
Lemma alphanumeric_kept_ascii :
  forallb (fun c => Bool.eqb (isAlphanumeric (lowerUnit c))
                      (keptInSlug (lowerUnit c)))
    (map N.of_nat (seq 0 128)) = true.
Proof. vm_compute. reflexivity. Qed.

Lemma slugAsStated_ascii name :
  isAscii name = true ->
  slugAsStated (map lowerUnit name) = slugSpec (map lowerUnit name).
Proof.
  intros A. unfold slugAsStated, slugSpec. do 3 f_equal.
  rewrite !map_map. apply map_ext_in. intros c Hc.
  unfold isAscii in A. rewrite forallb_forall in A. specialize (A _ Hc).
  pose proof (below_128 _ alphanumeric_kept_ascii c A) as E.
  cbv beta in E. apply eqb_prop in E. unfold hyphenate. now rewrite E.
Qed.

Lemma ascii_plain name : isAscii name = true -> plain name = true.
Proof.
  unfold isAscii, plain, plainUnit. rewrite !forallb_forall.
  intros A c Hc. now rewrite (A _ Hc).
Qed.

(** C6, the counterexample: the page name "مدونة" (blog), supplied as a
    hint, is made of letters only, so that the path as the claim words
    it is "/مدونة"; the path in the site map is "/", since the pattern
    of the code keeps the letters a to z and the digits only. *)
Lemma C6_arabic_page_name_gives_bare_slash :
  last
    (Details.sitemap
       (details (improveIdea toLowerCasePlain noInherited (js "a shop")
                   (Some (Hints.with_pages [js "مدونة"] Hints.none))
                   frozen)))
    (Sitemap.mk [] [])
  = Sitemap.mk (js "مدونة") (js "/")
  /\ forallb isAlphanumeric (js "مدونة") = true
  /\ js "/" ++ slugAsStated (toLowerCasePlain (js "مدونة")) = js "/مدونة"
  /\ str_eqb (js "/") (js "/مدونة") = false.
Proof. repeat split; vm_compute; reflexivity. Qed.

(** C6, as amended: the site map has one entry per page, in the order
    of the pages; each entry pairs the page name with "/" followed by
    the lower-cased name in which every run of characters other than
    the letters a to z and the digits 0 to 9 (letters of other
    alphabets and accented letters among them) is one hyphen and the
    hyphens at both ends are removed.  For a name of ASCII characters
    that is the path as the claim words it, with every run of
    non-alphanumeric characters collapsed; the name "Cart / Checkout"
    gives "/cart-checkout". *)
Theorem C6_sitemap_slugs
  (toLowerCase : jsstring -> jsstring)
  (inherited : jsstring -> option jsstring)
  (Hlower : lowersPlainText toLowerCase)
  (raw : jsstring) (hints : option Hints.t) (clock : nat -> Z) :
  let d := details (improveIdea toLowerCase inherited raw hints clock) in
  Details.sitemap d
  = map (fun name => Sitemap.mk name (js "/" ++ slugSpec (toLowerCase name)))
        (Details.pages d)
  /\ map Sitemap.name (Details.sitemap d) = Details.pages d
  /\ List.length (Details.sitemap d) = List.length (Details.pages d)
  /\ (forall name,
        isAscii name = true ->
        slugify toLowerCase name = js "/" ++ slugAsStated (toLowerCase name))
  /\ slugify toLowerCase (js "Cart / Checkout") = js "/cart-checkout".
Proof.
  cbv zeta. simpl. unfold sitemap. repeat split.
  - apply map_ext. intros name. now rewrite slugify_spec.
  - rewrite map_map. simpl. apply map_id.
  - apply length_map.
  - intros name A. rewrite slugify_spec, (Hlower _ (ascii_plain _ A)).
    now rewrite slugAsStated_ascii.
  - unfold slugify. rewrite Hlower by (vm_compute; reflexivity).
    vm_compute. reflexivity.
Qed.

(** C6 at work, with the host's lower-casing of plain text. *)
Lemma C6_witness :
  slugify toLowerCasePlain (js "Cart / Checkout") = js "/cart-checkout".
Proof.
  pose proof (C6_sitemap_slugs toLowerCasePlain noInherited
                toLowerCasePlain_lowers [] None frozen) as T.
  cbv zeta in T. do 4 destruct T as [_ T]. exact T.
Defined.

(** ** The Arabic shop scenario *)

(** C4, the counterexample: on the scenario's text and hint the
    regions are ["Global"], without "Egypt", and the currency is "USD":
    the text names Egypt in Arabic only, and the region and currency
    patterns know Egypt by its English names and by the word for its
    pound. *)
Lemma C4_no_Egypt_no_EGP :
  Details.regions
    (details (improveIdea toLowerCasePlain noInherited scenario_text
                scenario_hints frozen))
  = [js "Global"]
  /\ includes
       (Details.regions
          (details (improveIdea toLowerCasePlain noInherited scenario_text
                      scenario_hints frozen)))
       (js "Egypt") = false
  /\ Details.currency
       (details (improveIdea toLowerCasePlain noInherited scenario_text
                   scenario_hints frozen))
     = js "USD".
Proof. repeat split; vm_compute; reflexivity. Qed.

(** Unfolds a run of the engine down to its calls of [toLowerCase]. *)
Ltac expose_lower :=
  cbv beta delta
    [improveIdea detailsOf improvedText improvedParts overviewLine
     typeLabelOut audienceOut toneOut sectionsOut selectedFeatures features
     featuresMatched audience audienceDetected toneWords toneDetected
     siteType siteTypeDetected regions regionsDetected currency
     currencyDetected firstMatch requiresPaymentsFinal requiresPayments
     statedGoal containsRe contains lower idea].

(** C4, as amended: on the text "متجر إلكتروني للأزياء في مصر مع سلة
    وشراء ودفع" with the hint [{outputLang: "ar"}] the site type is
    ecommerce, payments are required, the output language is Arabic and
    every heading of the improved prompt is the Arabic one; the regions
    are ["Global"] and the currency is "USD". *)
Theorem C4_arabic_shop_scenario
  (toLowerCase : jsstring -> jsstring)
  (inherited : jsstring -> option jsstring)
  (Hlower : lowersPlainText toLowerCase) (clock : nat -> Z) :
  let r := improveIdea toLowerCase inherited scenario_text scenario_hints
             clock in
  Details.siteType (details r) = ecommerce
  /\ Details.regions (details r) = [js "Global"]
  /\ Details.currency (details r) = js "USD"
  /\ Details.requiresPayments (details r) = true
  /\ Details.outputLang (details r) = ar
  /\ map (H inherited scenario_hints) improvedHeadings
     = jsl ["نظرة عامة على المشروع"; "الجمهور المستهدف"; "الأهداف الرئيسية";
            "النبرة والأسلوب"; "هيكل الموقع المقترح"; "الميزات الأساسية";
            "المحتوى والدعوات للإجراء"; "الأسلوب البصري";
            "ملاحظات من الفكرة الأصلية"]
  /\ improved r = scenario_improved.
Proof.
  assert (E : toLowerCase (trim scenario_text)
              = toLowerCasePlain (trim scenario_text)).
  { apply Hlower. vm_compute. reflexivity. }
  cbv zeta. cbn [details improved Details.siteType Details.regions
                 Details.currency Details.requiresPayments
                 Details.outputLang].
  repeat match goal with |- _ /\ _ => split end;
    expose_lower; rewrite ?E; vm_compute; reflexivity.
Qed.

(** C4 at work, with the host's lower-casing of plain text. *)
Lemma C4_witness :
  improved (improveIdea toLowerCasePlain noInherited scenario_text
              scenario_hints frozen)
  = scenario_improved.
Proof.
  apply (C4_arabic_shop_scenario toLowerCasePlain noInherited
           toLowerCasePlain_lowers frozen).
Defined.

(** ** The other scenarios of the specification *)

Example scenario_saas :
  let d := details (improveIdea toLowerCasePlain noInherited
                      (js "A SaaS landing page for time tracking. Pricing, FAQ, testimonials, blog.")
                      None frozen) in
  Details.siteType d = saas
  /\ forallb (includes (Details.selectedFeatures d))
       (jsl ["Pricing with clear plan comparison"; "FAQ"; "Testimonials";
             "Blog"]) = true
  /\ forallb (includes (Details.pages d)) (jsl ["Pricing"; "Blog"]) = true.
Proof. cbv zeta. repeat split; vm_compute; reflexivity. Qed.

Example scenario_empty_text :
  let r := improveIdea toLowerCasePlain noInherited [] None frozen in
  Details.siteType (details r) = generic
  /\ Details.audience (details r)
     = [js "Prospective customers and early adopters"]
  /\ Details.statedGoal (details r) = []
  /\ str_includes (improved r) (js "Notes from the original idea") = false.
Proof. cbv zeta. repeat split; vm_compute; reflexivity. Qed.

Example scenario_project_booking :
  let d := details (improveIdea toLowerCasePlain noInherited
                      (js "project, mvp, milestones")
                      (Some (Hints.with_siteType (js "booking") Hints.none))
                      frozen) in
  Details.projectMode d = true
  /\ Details.siteType d = booking
  /\ Details.blueprint d <> None.
Proof.
  cbv zeta. repeat split; try (vm_compute; reflexivity).
  vm_compute. discriminate.
Qed.

(** * Further properties of the engine *)

(** ** Trimming and runs *)

Lemma dropWhile_suffix {A} (p : A -> bool) l :
  exists h, l = h ++ dropWhile p l.
Proof.
  induction l as [|x l [h IH]]; simpl.
  - now exists [].
  - destruct (p x); [exists (x :: h); simpl; now rewrite <- IH | now exists []].
Qed.

Lemma dropWhile_head {A} (p : A -> bool) l x :
  hd_error (dropWhile p l) = Some x -> p x = false.
Proof.
  induction l as [|y l IH]; simpl; [discriminate|].
  destruct (p y) eqn:E; [exact IH|]. simpl. now intros [= <-].
Qed.

Lemma dropWhileEnd_prefix {A} (p : A -> bool) l :
  exists t, l = dropWhileEnd p l ++ t.
Proof.
  unfold dropWhileEnd. destruct (dropWhile_suffix p (rev l)) as [h E].
  exists (rev h). rewrite <- rev_app_distr, <- E. now rewrite rev_involutive.
Qed.

Lemma dropWhileEnd_last {A} (p : A -> bool) l x :
  hd_error (rev (dropWhileEnd p l)) = Some x -> p x = false.
Proof.
  unfold dropWhileEnd. rewrite rev_involutive. apply dropWhile_head.
Qed.

Lemma prefix_head {A} (a l t : list A) x :
  l = a ++ t -> hd_error a = Some x -> hd_error l = Some x.
Proof. intros ->. destruct a; simpl; [discriminate | auto]. Qed.

Lemma trim_head s c : hd_error (trim s) = Some c -> isSpace c = false.
Proof.
  unfold trim. intros H.
  destruct (dropWhileEnd_prefix isSpace (dropWhile isSpace s)) as [t E].
  apply (dropWhile_head isSpace s). exact (prefix_head _ _ _ _ E H).
Qed.

Lemma trim_last s c :
  hd_error (rev (trim s)) = Some c -> isSpace c = false.
Proof. apply dropWhileEnd_last. Qed.

Lemma noAdjacent_cons p c s :
  noAdjacent p (c :: s)
  = negb (p c && match s with d :: _ => p d | [] => false end)
    && noAdjacent p s.
Proof. destruct s; simpl; [now rewrite andb_false_r | reflexivity]. Qed.

Lemma noAdjacent_app p a b :
  noAdjacent p (a ++ b) = true ->
  noAdjacent p a = true /\ noAdjacent p b = true.
Proof.
  induction a as [|c a IH]; [simpl; auto|].
  rewrite <- app_comm_cons, !noAdjacent_cons, !andb_true_iff.
  intros [H1 H2]. destruct (IH H2) as [Ha Hb]. repeat split; auto.
  destruct a; simpl in *; [now rewrite andb_false_r | exact H1].
Qed.

Lemma noAdjacent_firstn p n s :
  noAdjacent p s = true -> noAdjacent p (firstn n s) = true.
Proof.
  intros H. rewrite <- (firstn_skipn n s) in H.
  now apply noAdjacent_app in H.
Qed.

Lemma firstn_incl {A} n (l : list A) x : In x (firstn n l) -> In x l.
Proof.
  intros H. rewrite <- (firstn_skipn n l). apply in_or_app. now left.
Qed.

Lemma replaceRuns_In p by_ b s c :
  In c (replaceRuns p by_ b s) -> (In c s /\ p c = false) \/ In c by_.
Proof.
  revert b. induction s as [|x s IH]; intros b; simpl; [tauto|].
  destruct (p x) eqn:E.
  - destruct b; [|rewrite in_app_iff; intros [H|H]; [now right|]];
      intros; destruct (IH _ ltac:(eassumption)); tauto.
  - intros [<-|H]; [tauto|]. destruct (IH _ H); tauto.
Qed.

Lemma replaceRuns_single p x s :
  p x = true ->
  noAdjacent p (replaceRuns p [x] false s) = true
  /\ noAdjacent p (replaceRuns p [x] true s) = true
  /\ forall c, hd_error (replaceRuns p [x] true s) = Some c -> p c = false.
Proof.
  intros Hx. induction s as [|c s (IHf & IHt & IHh)]; simpl.
  - repeat split. discriminate.
  - destruct (p c) eqn:E.
    + repeat split; auto. rewrite noAdjacent_cons, IHt, andb_true_r.
      destruct (replaceRuns p [x] true s) as [|d r] eqn:R; simpl.
      * now rewrite andb_false_r.
      * now rewrite (IHh d eq_refl), andb_false_r.
    + rewrite !noAdjacent_cons, E, IHf. simpl. repeat split.
      now intros ? [= <-].
Qed.

Lemma statedGoal_nonempty raw :
  trim raw <> [] -> truthy (statedGoal raw) = true.
Proof.
  unfold statedGoal, idea. intros N.
  pose proof (trim_head raw) as Hh.
  destruct (trim raw) as [|c s]; [contradiction|].
  specialize (Hh c eq_refl). simpl. rewrite Hh. reflexivity.
Qed.

(** X1: the goal quoted back to the user has at most 280 units; its
    only white space is the plain space, never two in a row and never
    at the start; and it is empty exactly when the trimmed text is. *)
Theorem X1_statedGoal_normalised
  (toLowerCase : jsstring -> jsstring)
  (inherited : jsstring -> option jsstring)
  (raw : jsstring) (hints : option Hints.t) (clock : nat -> Z) :
  let g := Details.statedGoal
             (details (improveIdea toLowerCase inherited raw hints clock)) in
  (List.length g <= 280)%nat
  /\ (forall c, In c g -> isSpace c = true -> c = 32)
  /\ noAdjacent isSpace g = true
  /\ (forall c, hd_error g = Some c -> isSpace c = false)
  /\ (g = [] <-> trim raw = []).
Proof.
  cbv zeta. cbn [details improveIdea detailsOf Details.statedGoal].
  unfold statedGoal, idea.
  pose proof (trim_head raw) as Hh.
  destruct (trim raw) as [|c s] eqn:E.
  - simpl. split; [lia|]. split; [intros ? []|]. split; [reflexivity|].
    split; [discriminate | tauto].
  - specialize (Hh c eq_refl).
    change (js " ") with [32].
    destruct (replaceRuns_single isSpace 32 (c :: s) eq_refl)
      as (Hf & _ & _).
    split; [apply firstn_le_length|]. split; [|split; [|split]].
    + intros x Hx Sx. apply firstn_incl in Hx.
      apply replaceRuns_In in Hx. destruct Hx as [[_ N]|[<-|[]]]; congruence.
    + now apply noAdjacent_firstn.
    + simpl. rewrite Hh. simpl. now intros ? [= <-].
    + simpl. rewrite Hh. simpl. split; discriminate.
Qed.


Lemma truthy_rev (s : jsstring) : truthy (rev s) = truthy s.
Proof.
  destruct s as [|c s]; [reflexivity|]. simpl.
  destruct (rev s); reflexivity.
Qed.

Lemma splitRuns_words s :
  forall cur inRun,
    (inRun = true -> cur = []) ->
    List.length (filter truthy (splitRuns isSpace cur inRun s))
    = ((if truthy cur then 1 else 0)
       + wordStarts (negb (truthy cur)) s)%nat.
Proof.
  induction s as [|c s IH]; intros cur inRun Hrun; simpl.
  - rewrite truthy_rev. destruct (truthy cur); reflexivity.
  - destruct (isSpace c).
    + destruct inRun.
      * rewrite (Hrun eq_refl). now rewrite IH.
      * simpl. rewrite truthy_rev.
        destruct (truthy cur); simpl; now rewrite IH.
    + rewrite IH by discriminate. simpl.
      destruct (truthy cur); simpl; lia.
Qed.

Lemma wordStarts_le b s : (wordStarts b s <= List.length s)%nat.
Proof.
  revert b. induction s as [|c s IH]; intros b; simpl; [lia|].
  pose proof (IH true). pose proof (IH false).
  destruct (isSpace c), b; simpl; lia.
Qed.

(** X2: the word count is the number of maximal runs of units that are
    not white space in the trimmed text; it is zero exactly when the
    trimmed text is empty, and never more than its length. *)
Theorem X2_wordCount_counts_runs
  (toLowerCase : jsstring -> jsstring)
  (inherited : jsstring -> option jsstring)
  (raw : jsstring) (hints : option Hints.t) (clock : nat -> Z) :
  let d := details (improveIdea toLowerCase inherited raw hints clock) in
  Details.wordCount d = wordStarts true (trim raw)
  /\ Details.ideaLength d = List.length (trim raw)
  /\ (Details.wordCount d = 0%nat <-> trim raw = [])
  /\ (Details.wordCount d <= Details.ideaLength d)%nat.
Proof.
  cbv zeta.
  cbn [details improveIdea detailsOf Details.wordCount Details.ideaLength].
  unfold wordCount, idea.
  assert (E : match trim raw with
              | [] => 0%nat
              | _ :: _ =>
                  List.length
                    (filter truthy (splitRuns isSpace [] false (trim raw)))
              end = wordStarts true (trim raw)).
  { destruct (trim raw) eqn:T; [reflexivity|]. rewrite <- T.
    now rewrite splitRuns_words. }
  rewrite E. split; [reflexivity|]. split; [reflexivity|]. split.
  - pose proof (trim_head raw) as Hh.
    destruct (trim raw) as [|c s]; [tauto|].
    simpl. rewrite (Hh c eq_refl). split; [lia | discriminate].
  - apply wordStarts_le.
Qed.

(** ** The shape of a path *)

Lemma squeeze_In s c : In c (squeeze s) -> In c s.
Proof.
  induction s as [|x s IH]; [tauto|]. cbn [squeeze].
  destruct s as [|d s]; [tauto|].
  destruct (isHyphen x && isHyphen d).
  - intros H. right. now apply IH.
  - intros [<-|H]; [now left | right; now apply IH].
Qed.

Lemma squeeze_noAdjacent s : noAdjacent isHyphen (squeeze s) = true.
Proof.
  induction s as [|x s IH]; [reflexivity|].
  destruct (isHyphen x) eqn:Ex.
  - apply isHyphen_eq in Ex. subst x. rewrite squeeze_cons_hyphen.
    destruct (squeeze s) as [|d r]; [reflexivity|]. cbn [dropLead].
    destruct (isHyphen d) eqn:Ed.
    + rewrite noAdjacent_cons in IH |- *. rewrite Ed in IH. exact IH.
    + rewrite noAdjacent_cons. cbn [hd_error]. rewrite Ed, andb_false_r.
      exact IH.
  - rewrite (squeeze_cons_other _ _ Ex), noAdjacent_cons, Ex. exact IH.
Qed.

Lemma hyphenate_slugUnit c : isSlugUnit (hyphenate c) = true.
Proof.
  rewrite hyphenate_notSlugChar. unfold isSlugUnit.
  destruct (notSlugChar c) eqn:E.
  - rewrite orb_true_r. reflexivity.
  - unfold notSlugChar in E. apply negb_false_iff in E. now rewrite E.
Qed.

Lemma slugSpec_shape l :
  let t := slugSpec l in
  forallb isSlugUnit t = true
  /\ noAdjacent isHyphen t = true
  /\ hd_error t <> Some hyphen
  /\ hd_error (rev t) <> Some hyphen.
Proof.
  cbv zeta. unfold slugSpec.
  set (q := squeeze (map hyphenate l)).
  destruct (dropWhile_suffix isHyphen q) as [h Eh].
  destruct (dropWhileEnd_prefix isHyphen (dropWhile isHyphen q)) as [t Et].
  set (w := dropWhileEnd isHyphen (dropWhile isHyphen q)) in *.
  assert (Hin : forall c, In c w -> In c (map hyphenate l)).
  { intros c Hc. apply squeeze_In. fold q. rewrite Eh, Et.
    rewrite !in_app_iff. tauto. }
  repeat split.
  - apply forallb_forall. intros c Hc. apply Hin in Hc.
    apply in_map_iff in Hc. destruct Hc as [x [<- _]].
    apply hyphenate_slugUnit.
  - pose proof (squeeze_noAdjacent (map hyphenate l)) as N. fold q in N.
    rewrite Eh in N. apply noAdjacent_app in N. destruct N as [_ N].
    rewrite Et in N. now apply noAdjacent_app in N.
  - intros H. assert (F : isHyphen hyphen = false).
    { apply (dropWhile_head isHyphen q). exact (prefix_head _ _ _ _ Et H). }
    discriminate F.
  - intros H. apply dropWhileEnd_last in H. discriminate H.
Qed.

(** X3: whatever a page is called, its path in the site map is "/"
    followed by letters [a-z], digits and single hyphens only, with no
    hyphen at the start or at the end. *)
Theorem X3_sitemap_paths_are_well_formed
  (toLowerCase : jsstring -> jsstring)
  (inherited : jsstring -> option jsstring)
  (raw : jsstring) (hints : option Hints.t) (clock : nat -> Z) :
  let d := details (improveIdea toLowerCase inherited raw hints clock) in
  (forall name, wellFormedPath (slugify toLowerCase name))
  /\ forall e, In e (Details.sitemap d) ->
               In (Sitemap.name e) (Details.pages d)
               /\ wellFormedPath (Sitemap.path e).
Proof.
  cbv zeta. cbn [details improveIdea detailsOf Details.sitemap Details.pages].
  assert (W : forall name, wellFormedPath (slugify toLowerCase name)).
  { intros name. exists (slugSpec (toLowerCase name)).
    split; [apply slugify_spec | apply slugSpec_shape]. }
  split; [exact W|]. unfold sitemap. intros e He.
  apply in_map_iff in He. destruct He as [name [<- Hn]]. simpl. auto.
Qed.

(** ** What payments and Arabic bring along *)

Ltac differ := apply str_eqb_neq; vm_compute; reflexivity.
Ltac forget_strings :=
  repeat match goal with
         | |- context [js ?x] =>
             let v := fresh "str" in set (v := js x) in *; clearbody v
         | H : context [js ?x] |- _ =>
             let v := fresh "str" in set (v := js x) in *; clearbody v
         end.
Ltac not_listed := apply includes_not_In; vm_compute; reflexivity.

Lemma pushIf_In c q l a :
  In a (pushIf c q l) <-> In a l \/ (c = true /\ a = js q).
Proof. apply In_conditional_push. Qed.

Lemma clarifyingQuestions_In toLowerCase raw hints a :
  In a (clarifyingQuestions toLowerCase raw hints)
  <-> In a clarifyingBase
      \/ (requiresPaymentsFinal toLowerCase raw hints = true
          /\ a = js "Which payment gateways do you prefer (Stripe, Paymob, Fawry, MADA, etc.) and which currency to charge?")
      \/ (includes (languages toLowerCase raw hints) (js "Arabic") = true
          /\ a = js "Do you require Arabic RTL support and translation for all pages?")
      \/ (isSiteType toLowerCase raw hints ecommerce = true
          /\ a = js "What is the product catalog size, categories, variants, shipping/returns policy?")
      \/ (isSiteType toLowerCase raw hints saas = true
          /\ a = js "What is the pricing model (free, freemium, trial), onboarding flow, and docs scope?")
      \/ (isSiteType toLowerCase raw hints booking = true
          /\ a = js "What services, durations, availability rules, and rescheduling/cancellation policies apply?")
      \/ (isSiteType toLowerCase raw hints event = true
          /\ a = js "What ticket types, seating, speakers, and content schedule are expected?")
      \/ (truthy_list (compliance toLowerCase raw hints) = true
          /\ a = js "Do you need legal pages (Privacy, Terms, Cookies) and data retention policies aligned with compliance?").
Proof.
  unfold clarifyingQuestions. cbv zeta. rewrite !pushIf_In.
  change (match compliance toLowerCase raw hints with
          | [] => false
          | _ :: _ => true
          end) with (truthy_list (compliance toLowerCase raw hints)).
  tauto.
Qed.

Lemma text_eq_iff (a b : jsstring) : a = b <-> str_eqb a b = true.
Proof. symmetry. apply str_eqb_eq. Qed.

(** Settles, by computation, which of the conditional questions a
    given question is, and that it is none of the base questions. *)
Ltac which_question :=
  rewrite clarifyingQuestions_In;
  repeat match goal with
         | |- context [js ?a = js ?b] =>
             rewrite (text_eq_iff (js a) (js b));
             let r := eval vm_compute in (str_eqb (js a) (js b)) in
             change (str_eqb (js a) (js b)) with r
         | |- context [In (js ?a) clarifyingBase] =>
             rewrite <- (includes_In clarifyingBase (js a));
             let r := eval vm_compute in (includes clarifyingBase (js a)) in
             change (includes clarifyingBase (js a)) with r
         end;
  intuition discriminate.

Lemma pagesByType_no_billing t : ~ In (js "Billing") (pagesByType t).
Proof. destruct t; not_listed. Qed.

Lemma pagesByType_checkout t :
  In (js "Checkout") (pagesByType t) <-> t = ecommerce.
Proof.
  split.
  - intros H. apply includes_In in H.
    destruct t; try reflexivity; vm_compute in H; discriminate H.
  - intros ->. apply includes_In. vm_compute. reflexivity.
Qed.

(** X4: required payments show in the pages, the tech stack and the
    questions, and only there: [Billing] is a page exactly when payments
    are required or the page is hinted; [Checkout] also when the site
    type is ecommerce; the payment gateway suggestion is in the tech
    stack exactly when payments are required or it is hinted; the
    payment question is asked exactly when payments are required. *)
Theorem X4_payments_in_pages_tech_and_questions
  (toLowerCase : jsstring -> jsstring)
  (inherited : jsstring -> option jsstring)
  (raw : jsstring) (hints : option Hints.t) (clock : nat -> Z) :
  let d := details (improveIdea toLowerCase inherited raw hints clock) in
  let pays := Details.requiresPayments d = true in
  (In (js "Billing") (Details.pages d)
   <-> pays \/ In (js "Billing") (entries (hint Hints.pages hints)))
  /\ (In (js "Checkout") (Details.pages d)
      <-> pays \/ Details.siteType d = ecommerce
          \/ In (js "Checkout") (entries (hint Hints.pages hints)))
  /\ (In (js "Stripe (or regional: Paymob/Fawry/MADA)")
         (Details.techSuggestions d)
      <-> pays
          \/ In (js "Stripe (or regional: Paymob/Fawry/MADA)")
               (entries (hint Hints.tech hints)))
  /\ (In (js "Which payment gateways do you prefer (Stripe, Paymob, Fawry, MADA, etc.) and which currency to charge?")
         (Details.clarifyingQuestions d)
      <-> pays).
Proof.
  cbv zeta.
  cbn [details improveIdea detailsOf Details.pages Details.siteType
       Details.requiresPayments Details.techSuggestions
       Details.clarifyingQuestions].
  set (st := siteType toLowerCase raw hints).
  set (rp := requiresPaymentsFinal toLowerCase raw hints).
  split; [|split; [|split]].
  - rewrite pages_In, pagesBase_In. fold st rp.
    pose proof (pagesByType_no_billing st) as N.
    assert (D : js "Billing" <> js "Blog") by differ.
    assert (E : js "Billing" <> []) by differ.
    assert (I : In (js "Billing") (jsl ["Billing"; "Checkout"])) by now left.
    forget_strings. tauto.
  - rewrite pages_In, pagesBase_In. fold st rp.
    pose proof (pagesByType_checkout st) as C.
    assert (D : js "Checkout" <> js "Blog") by differ.
    assert (E : js "Checkout" <> []) by differ.
    assert (I : In (js "Checkout") (jsl ["Billing"; "Checkout"]))
      by (right; now left).
    forget_strings. tauto.
  - unfold techSuggestions. rewrite mergeHints_In, techDefault_In. fold rp.
    assert (N : ~ In
      (js "Stripe (or regional: Paymob/Fawry/MADA)")
      techBaseline) by not_listed.
    assert (D1 :
      (js "Stripe (or regional: Paymob/Fawry/MADA)")
      <> js "i18n with Arabic + RTL support")
      by differ.
    assert (D2 :
      (js "Stripe (or regional: Paymob/Fawry/MADA)")
      <> js "MDX or headless CMS (e.g., Sanity)")
      by differ.
    assert (E : (js "Stripe (or regional: Paymob/Fawry/MADA)") <> []) by differ.
    forget_strings. tauto.
  - subst rp. which_question.
Qed.

Lemma nonFunctional_eq toLowerCase raw :
  nonFunctional toLowerCase raw
  = nonFunctionalBase
    ++ (if usesArabic toLowerCase raw
        then [js "Internationalization: RTL and Arabic typography"]
        else []).
Proof.
  unfold nonFunctional. destruct (usesArabic toLowerCase raw).
  - vm_compute. reflexivity.
  - vm_compute. reflexivity.
Qed.

Lemma languagesDetected_In toLowerCase raw a :
  In a (languagesDetected toLowerCase raw)
  <-> a = js "English"
      \/ (usesArabic toLowerCase raw = true /\ a = js "Arabic").
Proof.
  unfold languagesDetected. rewrite uniq_In.
  destruct (usesArabic toLowerCase raw); simpl; intuition congruence.
Qed.

(** X8: Arabic in the text (the Arabic pattern matches) adds the
    language "Arabic", the i18n suggestion, the RTL requirement and the
    RTL question.  A hinted language "Arabic" adds the question too, but
    the RTL requirement follows the text alone, and the i18n suggestion
    the text or a [tech] hint. *)
Theorem X8_arabic_support
  (toLowerCase : jsstring -> jsstring)
  (inherited : jsstring -> option jsstring)
  (raw : jsstring) (hints : option Hints.t) (clock : nat -> Z) :
  let d := details (improveIdea toLowerCase inherited raw hints clock) in
  let inText := test arabicPattern (toLowerCase (trim raw)) = true in
  (In (js "Arabic") (Details.languages d)
   <-> inText \/ In (js "Arabic") (entries (hint Hints.languages hints)))
  /\ (In (js "Do you require Arabic RTL support and translation for all pages?")
         (Details.clarifyingQuestions d)
      <-> In (js "Arabic") (Details.languages d))
  /\ (In (js "Internationalization: RTL and Arabic typography")
         (Details.nonFunctional d)
      <-> inText)
  /\ (In (js "i18n with Arabic + RTL support") (Details.techSuggestions d)
      <-> inText
          \/ In (js "i18n with Arabic + RTL support")
               (entries (hint Hints.tech hints))).
Proof.
  cbv zeta.
  cbn [details improveIdea detailsOf Details.languages
       Details.nonFunctional Details.techSuggestions
       Details.clarifyingQuestions].
  change (test arabicPattern (toLowerCase (trim raw)))
    with (usesArabic toLowerCase raw).
  set (u := usesArabic toLowerCase raw).
  split; [|split; [|split]].
  - unfold languages. rewrite mergeHints_In, languagesDetected_In. fold u.
    assert (D : js "Arabic" <> js "English") by differ.
    assert (E : js "Arabic" <> []) by differ.
    forget_strings. tauto.
  - rewrite <- (includes_In (languages toLowerCase raw hints)).
    which_question.
  - rewrite nonFunctional_eq, in_app_iff. fold u.
    assert (N : ~ In
      (js "Internationalization: RTL and Arabic typography")
      nonFunctionalBase) by not_listed.
    forget_strings. destruct u; cbn [In]; intuition congruence.
  - unfold techSuggestions. rewrite mergeHints_In, techDefault_In. fold u.
    assert (N : ~ In
      (js "i18n with Arabic + RTL support")
      techBaseline) by not_listed.
    assert (D1 :
      (js "i18n with Arabic + RTL support")
      <> js "Stripe (or regional: Paymob/Fawry/MADA)")
      by differ.
    assert (D2 :
      (js "i18n with Arabic + RTL support")
      <> js "MDX or headless CMS (e.g., Sanity)")
      by differ.
    assert (E : (js "i18n with Arabic + RTL support") <> []) by differ.
    forget_strings. tauto.
Qed.

(** ** The site-type hint *)

(** X5: a [siteType] hint is compared after lower-casing, so on plain
    text any casing of one of the eight names selects that site type; a
    hint that is no such name, an empty hint and a missing hint leave
    the site type detected from the text. *)
Theorem X5_siteType_hint_is_case_insensitive
  (toLowerCase : jsstring -> jsstring)
  (inherited : jsstring -> option jsstring)
  (Hlower : lowersPlainText toLowerCase)
  (raw : jsstring) (hints : option Hints.t) (clock : nat -> Z) :
  let d := details (improveIdea toLowerCase inherited raw hints clock) in
  (forall h t,
     hint Hints.siteType hints = Some h -> plain h = true ->
     map lowerUnit h = siteTypeName t -> Details.siteType d = t)
  /\ (forall h,
        hint Hints.siteType hints = Some h ->
        allowedSiteType (toLowerCase h) = None ->
        Details.siteType d = siteTypeDetected toLowerCase raw)
  /\ (hint Hints.siteType hints = None
      \/ hint Hints.siteType hints = Some [] ->
      Details.siteType d = siteTypeDetected toLowerCase raw).
Proof.
  cbv zeta. cbn [details improveIdea detailsOf Details.siteType].
  unfold siteType. split; [|split].
  - intros h t E P M. rewrite E, (Hlower h P), M.
    assert (T : truthy h = true).
    { destruct h; [destruct t; discriminate M | reflexivity]. }
    rewrite T. destruct t; vm_compute; reflexivity.
  - intros h E A. rewrite E, A. now destruct (truthy h).
  - intros [E|E]; rewrite E; reflexivity.
Qed.

(** X5 at work: the hint "SaaS" on a text the classifier reads as a
    shop. *)
Lemma X5_witness :
  Details.siteType
    (details (improveIdea toLowerCasePlain noInherited (js "a shop")
                (Some (Hints.with_siteType (js "SaaS") Hints.none)) frozen))
  = saas.
Proof.
  pose proof (X5_siteType_hint_is_case_insensitive toLowerCasePlain
                noInherited toLowerCasePlain_lowers (js "a shop")
                (Some (Hints.with_siteType (js "SaaS") Hints.none)) frozen)
    as T.
  cbv zeta in T. destruct T as [T _].
  apply (T (js "SaaS") saas); reflexivity.
Defined.

(** ** Currency *)

Lemma firstMatch_find toLowerCase raw table current :
  firstMatch toLowerCase raw table current
  = match find (fun kv => test (fst kv) (toLowerCase (trim raw))) table with
    | Some kv => snd kv
    | None => current
    end.
Proof.
  induction table as [|[k v] table IH]; simpl; [reflexivity|].
  unfold containsRe at 1, contains, lower, idea.
  destruct (test k (toLowerCase (trim raw))); [reflexivity | exact IH].
Qed.

Lemma find_split {A} (f : A -> bool) before x after :
  (forall y, In y before -> f y = false) -> f x = true ->
  find f (before ++ x :: after) = Some x.
Proof.
  intros Hb Hx. induction before as [|y before IH]; simpl.
  - now rewrite Hx.
  - rewrite (Hb y) by now left. apply IH. intros z Hz. apply Hb. now right.
Qed.

(** X6: the detected currency is the code of the first row of the
    table EGP, SAR, AED, USD, EUR, GBP whose pattern matches the
    lower-cased text, and USD when none does; so it is always one of the
    six codes, and it is the merged currency unless a non-empty hint
    replaces it. *)
Theorem X6_currency_first_match
  (toLowerCase : jsstring -> jsstring)
  (inherited : jsstring -> option jsstring)
  (raw : jsstring) (hints : option Hints.t) (clock : nat -> Z) :
  let d := details (improveIdea toLowerCase inherited raw hints clock) in
  let text := toLowerCase (trim raw) in
  let c := currencyDetected toLowerCase raw in
  map snd currencyHints = jsl ["EGP"; "SAR"; "AED"; "USD"; "EUR"; "GBP"]
  /\ In c (map snd currencyHints)
  /\ (forall before k v after,
        currencyHints = before ++ (k, v) :: after ->
        (forall k' v', In (k', v') before -> test k' text = false) ->
        test k text = true -> c = v)
  /\ ((forall k v, In (k, v) currencyHints -> test k text = false) ->
      c = js "USD")
  /\ (hint Hints.currency hints = None \/ hint Hints.currency hints = Some []
      -> Details.currency d = c).
Proof.
  cbv zeta. cbn [details improveIdea detailsOf Details.currency].
  unfold currencyDetected. rewrite firstMatch_find.
  set (f := fun kv : regex * jsstring =>
              test (fst kv) (toLowerCase (trim raw))).
  split; [reflexivity|]. split; [|split; [|split]].
  - destruct (find f currencyHints) as [kv|] eqn:E.
    + apply find_some in E. apply in_map. tauto.
    + apply includes_In. vm_compute. reflexivity.
  - intros before k v after S Hb Hk. rewrite S.
    rewrite (find_split f before (k, v) after); [reflexivity | | exact Hk].
    intros [k' v'] Hin. exact (Hb k' v' Hin).
  - intros Hn. destruct (find f currencyHints) as [[k v]|] eqn:E;
      [|reflexivity].
    apply find_some in E. destruct E as [Hin Hf]. unfold f in Hf. simpl in Hf.
    rewrite (Hn k v Hin) in Hf. discriminate Hf.
  - unfold currency, currencyDetected. rewrite firstMatch_find. fold f.
    intros [E|E]; rewrite E; reflexivity.
Qed.

(** X6 at work: a text that names dollars and Egypt is priced in EGP,
    the Egyptian row coming first. *)
Lemma X6_witness :
  currencyDetected toLowerCasePlain (js "prices in dollars, shipping to egypt")
  = js "EGP".
Proof.
  pose proof (X6_currency_first_match toLowerCasePlain noInherited
                (js "prices in dollars, shipping to egypt") None frozen) as T.
  cbv zeta in T. destruct T as (_ & _ & T & _).
  apply (T [] (fst (hd (Lit [], []) currencyHints)) (js "EGP")
           (tl currencyHints)).
  - reflexivity.
  - intros ? ? [].
  - vm_compute. reflexivity.
Defined.

(** ** Defaults come first *)

Lemma fresh_all_new es :
  forall seen, NoDup es -> (forall a, In a es -> ~ In a seen) ->
               fresh always seen es = es.
Proof.
  induction es as [|a es IH]; intros seen Hd Hn; simpl; [reflexivity|].
  inversion_clear Hd as [|? ? Ha Hd'].
  assert (E : includes seen a = false).
  { apply includes_not_In. apply Hn. now left. }
  rewrite E. simpl. f_equal. apply IH; [assumption|].
  intros b Hb. rewrite in_app_iff. simpl.
  intros [H|[H|[]]].
  - exact (Hn b (or_intror Hb) H).
  - subst. contradiction.
Qed.

Lemma uniq_id l : NoDup l -> uniq l = l.
Proof. intros H. rewrite uniq_fresh. now apply fresh_all_new. Qed.

Lemma startsWith_refl l : startsWith l l.
Proof. exists []. now rewrite app_nil_r. Qed.

Lemma startsWith_app l a r : startsWith l a -> startsWith (l ++ r) a.
Proof. intros [t ->]. exists (t ++ r). now rewrite app_assoc. Qed.

Lemma startsWith_mergeHints l h a :
  startsWith l a -> startsWith (mergeHints l h) a.
Proof. rewrite mergeHints_fresh. apply startsWith_app. Qed.

Lemma startsWith_pushNew l x a : startsWith l a -> startsWith (pushNew l x) a.
Proof.
  unfold pushNew. destruct (includes l x); [auto | apply startsWith_app].
Qed.

Lemma startsWith_fold_pushNew es l a :
  startsWith l a -> startsWith (fold_left pushNew es l) a.
Proof. rewrite fold_pushNew. apply startsWith_app. Qed.

Lemma startsWith_uniq_app l m : NoDup l -> startsWith (uniq (l ++ m)) l.
Proof.
  intros H. rewrite uniq_app, (uniq_id l H). apply startsWith_app.
  apply startsWith_refl.
Qed.

Lemma userStories_tables_NoDup t :
  NoDup (userStoriesBase ++ userStoriesByType t).
Proof. apply nodupb_sound. destruct t; vm_compute; reflexivity. Qed.

Lemma techBaseline_NoDup : NoDup techBaseline.
Proof. apply nodupb_sound. vm_compute. reflexivity. Qed.

(** X7: detection and hints only ever add after the defaults.  The
    selected features begin with the site type's default features, the
    pages with its default pages, the user stories with the base stories
    and the site type's, the KPIs with the site type's, the tech
    suggestions with the baseline stack, and the three fixed lists with
    their fixed entries, all in table order. *)
Theorem X7_defaults_come_first
  (toLowerCase : jsstring -> jsstring)
  (inherited : jsstring -> option jsstring)
  (raw : jsstring) (hints : option Hints.t) (clock : nat -> Z) :
  let d := details (improveIdea toLowerCase inherited raw hints clock) in
  let st := Details.siteType d in
  startsWith (Details.selectedFeatures d) (defaultFeaturesByType st)
  /\ startsWith (Details.pages d) (pagesByType st)
  /\ startsWith (Details.userStories d)
       (userStoriesBase ++ userStoriesByType st)
  /\ startsWith (Details.kpis d) (kpisByType st)
  /\ startsWith (Details.techSuggestions d) techBaseline
  /\ startsWith (Details.contentChecklist d) contentChecklistBase
  /\ startsWith (Details.milestones d) milestonesBase
  /\ startsWith (Details.personas d) personasBase.
Proof.
  cbv zeta.
  cbn [details improveIdea detailsOf Details.siteType
       Details.selectedFeatures Details.pages Details.userStories
       Details.kpis Details.techSuggestions Details.contentChecklist
       Details.milestones Details.personas].
  set (st := siteType toLowerCase raw hints).
  repeat match goal with |- _ /\ _ => split end.
  - unfold selectedFeatures. fold st. apply startsWith_uniq_app.
    apply defaultFeaturesByType_tidy.
  - unfold pages, pagesBase. fold st.
    assert (B : startsWith (uniq (pagesByType st)) (pagesByType st)).
    { rewrite uniq_id by apply pagesByType_tidy. apply startsWith_refl. }
    destruct (requiresPaymentsFinal toLowerCase raw hints),
      (includes (features toLowerCase raw hints) (js "Blog"));
      auto using startsWith_fold_pushNew, startsWith_mergeHints,
        startsWith_pushNew.
  - unfold userStories, userStoriesDefault. fold st.
    apply startsWith_mergeHints.
    rewrite uniq_id by apply userStories_tables_NoDup.
    apply startsWith_refl.
  - unfold kpis. fold st. apply startsWith_mergeHints, startsWith_refl.
  - unfold techSuggestions, techDefault. cbv zeta.
    apply startsWith_mergeHints.
    destruct (requiresPaymentsFinal toLowerCase raw hints),
      (usesArabic toLowerCase raw),
      (includes (features toLowerCase raw hints) (js "Blog"));
      rewrite <- ?app_assoc;
      try (apply startsWith_uniq_app, techBaseline_NoDup).
    rewrite uniq_id by apply techBaseline_NoDup. apply startsWith_refl.
  - unfold contentChecklist. apply startsWith_mergeHints, startsWith_refl.
  - unfold milestones. apply startsWith_mergeHints, startsWith_refl.
  - unfold personas. apply startsWith_mergeHints, startsWith_refl.
Qed.

(** ** The notes of the improved prompt *)

Lemma join_snoc sep l a :
  l <> [] -> join sep (l ++ [a]) = join sep l ++ sep ++ a.
Proof.
  induction l as [|x l IH]; [congruence|]. intros _.
  destruct l as [|y l]; [reflexivity|].
  change (join sep ((x :: y :: l) ++ [a]))
    with (x ++ sep ++ join sep ((y :: l) ++ [a])).
  rewrite IH by discriminate.
  change (join sep (x :: y :: l)) with (x ++ sep ++ join sep (y :: l)).
  now rewrite <- !app_assoc.
Qed.

Lemma filterBoolean_app a b :
  filterBoolean (a ++ b) = filterBoolean a ++ filterBoolean b.
Proof. apply flat_map_app. Qed.

Lemma heading_truthy inherited hints :
  truthy (H inherited hints "Project overview") = true
  /\ truthy (H inherited hints "Notes from the original idea") = true.
Proof. unfold H. destruct (lang hints); split; vm_compute; reflexivity. Qed.

(** X9: when the trimmed text is not empty, the improved prompt ends
    with the notes heading and, on the last line, the stated goal as a
    bullet. *)
Theorem X9_improved_ends_with_the_notes
  (toLowerCase : jsstring -> jsstring)
  (inherited : jsstring -> option jsstring)
  (raw : jsstring) (hints : option Hints.t) (clock : nat -> Z)
  (Hidea : trim raw <> []) :
  let r := improveIdea toLowerCase inherited raw hints clock in
  exists body,
    improved r
    = body ++ newline ++ H inherited hints "Notes from the original idea"
      ++ newline ++ js "- " ++ Details.statedGoal (details r).
Proof.
  cbv zeta. cbn [improved details improveIdea detailsOf Details.statedGoal].
  assert (G : truthy (statedGoal raw) = true)
    by now apply statedGoal_nonempty.
  destruct (heading_truthy inherited hints) as [H1 H2].
  set (parts := improvedParts toLowerCase inherited raw hints).
  assert (P : parts
              = firstn 24 parts
                ++ [Some (H inherited hints "Notes from the original idea");
                    Some (bullet (statedGoal raw))]).
  { transitivity (firstn 24 parts ++ skipn 24 parts);
      [symmetry; apply firstn_skipn|].
    f_equal. unfold parts, improvedParts. rewrite G. reflexivity. }
  assert (N : filterBoolean (firstn 24 parts) <> []).
  { unfold parts, improvedParts. cbn [firstn filterBoolean flat_map].
    rewrite H1. discriminate. }
  unfold improvedText. fold parts. rewrite P, filterBoolean_app.
  set (front := filterBoolean (firstn 24 parts)) in *.
  assert (L : filterBoolean
                [Some (H inherited hints "Notes from the original idea");
                 Some (bullet (statedGoal raw))]
              = [H inherited hints "Notes from the original idea"]
                ++ [js "- " ++ statedGoal raw]).
  { cbn [filterBoolean flat_map]. rewrite H2. reflexivity. }
  rewrite L, app_assoc, join_snoc, join_snoc by
    (try assumption; destruct front; discriminate).
  exists (join newline front). now rewrite <- !app_assoc.
Qed.

(** X9 at work, on the text "a shop" without hints. *)
Lemma X9_witness :
  trim (js "a shop") <> []
  /\ exists body,
       improved (improveIdea toLowerCasePlain noInherited (js "a shop") None
                   frozen)
       = body ++ newline
         ++ H noInherited None "Notes from the original idea"
         ++ newline ++ js "- "
         ++ Details.statedGoal
              (details (improveIdea toLowerCasePlain noInherited
                          (js "a shop") None frozen)).
Proof.
  assert (N : trim (js "a shop") <> []) by (vm_compute; discriminate).
  split; [exact N|].
  exact (X9_improved_ends_with_the_notes toLowerCasePlain noInherited
           (js "a shop") None frozen N).
Defined.

(** ** Fallback labels *)

Lemma audienceDetected_In toLowerCase raw a :
  In a (audienceDetected toLowerCase raw)
  <-> (exists k, In (k, a) audienceHints
                 /\ str_includes (toLowerCase (trim raw)) k = true)
      \/ (a = audienceFallback
          /\ forall k v, In (k, v) audienceHints ->
                         str_includes (toLowerCase (trim raw)) k = false).
Proof.
  unfold audienceDetected. cbv zeta. rewrite uniq_In.
  set (f := fun k => contains toLowerCase raw (Str k)).
  assert (F : forall k, f k = str_includes (toLowerCase (trim raw)) k)
    by reflexivity.
  destruct (collect f audienceHints) as [|x l] eqn:E.
  - assert (None_ : forall k v,
               In (k, v) audienceHints ->
               str_includes (toLowerCase (trim raw)) k = false).
    { intros k v Hin. rewrite <- F. destruct (f k) eqn:Fk; [|reflexivity].
      assert (In v (collect f audienceHints))
        by (apply collect_In; eauto).
      rewrite E in *. contradiction. }
    simpl. split.
    + intros [<-|[]]. now right.
    + intros [[k [Hin Hk]]|[-> _]]; [|now left].
      rewrite (None_ k a Hin) in Hk. discriminate.
  - rewrite <- E, collect_In. split.
    + intros [k [Hin Hk]]. left. exists k. now rewrite <- F.
    + intros [[k [Hin Hk]]|[_ Hn]].
      * exists k. now rewrite F.
      * exfalso. assert (Hx : In x (collect f audienceHints))
          by (rewrite E; now left).
        apply collect_In in Hx. destruct Hx as [k [Hin Hk]].
        rewrite F, (Hn k x Hin) in Hk. discriminate.
Qed.

(** X10: every audience entry is the label of a keyword found in the
    lower-cased text, the fallback label, or a non-empty hint entry; and
    the fallback label is in the audience exactly when no keyword of the
    table occurs in the text (or the hints supply that very label). *)
Theorem X10_audience_labels_and_fallback
  (toLowerCase : jsstring -> jsstring)
  (inherited : jsstring -> option jsstring)
  (raw : jsstring) (hints : option Hints.t) (clock : nat -> Z) :
  let d := details (improveIdea toLowerCase inherited raw hints clock) in
  let text := toLowerCase (trim raw) in
  let hinted := entries (hint Hints.audience hints) in
  (forall a,
     In a (Details.audience d)
     <-> (exists k, In (k, a) audienceHints /\ str_includes text k = true)
         \/ (a = audienceFallback
             /\ forall k v, In (k, v) audienceHints ->
                            str_includes text k = false)
         \/ (In a hinted /\ a <> []))
  /\ (In audienceFallback (Details.audience d)
      <-> (forall k v, In (k, v) audienceHints -> str_includes text k = false)
          \/ In audienceFallback hinted).
Proof.
  cbv zeta. cbn [details improveIdea detailsOf Details.audience].
  unfold audience.
  assert (A : forall a,
             In a (mergeHints (audienceDetected toLowerCase raw)
                     (hint Hints.audience hints))
             <-> (exists k, In (k, a) audienceHints
                            /\ str_includes (toLowerCase (trim raw)) k = true)
                 \/ (a = audienceFallback
                     /\ forall k v, In (k, v) audienceHints ->
                          str_includes (toLowerCase (trim raw)) k = false)
                 \/ (In a (entries (hint Hints.audience hints)) /\ a <> [])).
  { intros a. rewrite mergeHints_In, audienceDetected_In. tauto. }
  split; [exact A|]. rewrite A.
  assert (N : ~ In audienceFallback (map snd audienceHints)) by not_listed.
  assert (E : audienceFallback <> []) by differ.
  split.
  - intros [[k [Hin _]]|[[_ Hn]|[Hh _]]]; auto.
    exfalso. apply N. apply in_map_iff. now exists (k, audienceFallback).
  - intros [Hn|Hh]; auto.
Qed.

(** ** Labels, fallbacks and questions *)

Lemma collect_nil {K} (f : K -> bool) (table : list (K * jsstring)) :
  collect f table = [] <-> forall k v, In (k, v) table -> f k = false.
Proof.
  split.
  - intros E k v Hin. destruct (f k) eqn:F; [|reflexivity].
    assert (H : In v (collect f table)) by (apply collect_In; eauto).
    rewrite E in H. contradiction.
  - intros N. destruct (collect f table) as [|x l] eqn:E; [reflexivity|].
    assert (H : In x (collect f table)) by (rewrite E; now left).
    apply collect_In in H. destruct H as (k & Hin & F).
    rewrite (N _ _ Hin) in F. discriminate.
Qed.

Lemma uniq_nil l : uniq l = [] <-> l = [].
Proof.
  split; [|now intros ->].
  destruct l as [|x l]; [reflexivity|]. intros E.
  assert (H : In x (uniq (x :: l))) by (apply uniq_In; now left).
  rewrite E in H. contradiction.
Qed.

Lemma fallback_In (l fallback : list jsstring) a :
  In a (match l with [] => fallback | x :: r => x :: r end)
  <-> In a l \/ (In a fallback /\ l = []).
Proof.
  destruct l as [|x l]; [simpl; tauto|].
  split; [tauto | intros [H|[_ H]]; [exact H | discriminate]].
Qed.

Lemma detected_In toLowerCase raw table fallback a :
  In a (match uniq (collect (containsRe toLowerCase raw) table) with
        | [] => fallback
        | x :: r => x :: r
        end)
  <-> found (toLowerCase (trim raw)) table a
      \/ (In a fallback /\ nothingFound (toLowerCase (trim raw)) table).
Proof.
  eapply iff_trans; [apply fallback_In|].
  rewrite uniq_In, uniq_nil, collect_In, collect_nil. reflexivity.
Qed.

Lemma toneDetected_In toLowerCase raw a :
  In a (toneDetected toLowerCase raw)
  <-> found (toLowerCase (trim raw)) toneTests a
      \/ (In a toneFallback /\ nothingFound (toLowerCase (trim raw)) toneTests).
Proof.
  eapply iff_trans; [apply fallback_In|].
  rewrite collect_In, collect_nil. reflexivity.
Qed.

Lemma industriesDetected_In toLowerCase raw a :
  In a (industriesDetected toLowerCase raw)
  <-> found (toLowerCase (trim raw)) industryMap a
      \/ (In a [js "General"]
          /\ nothingFound (toLowerCase (trim raw)) industryMap).
Proof. apply detected_In. Qed.

Lemma regionsDetected_In toLowerCase raw a :
  In a (regionsDetected toLowerCase raw)
  <-> found (toLowerCase (trim raw)) regionMap a
      \/ (In a [js "Global"]
          /\ nothingFound (toLowerCase (trim raw)) regionMap).
Proof. apply detected_In. Qed.

Lemma mergeHints_nil l h :
  mergeHints l h = [] <-> l = [] /\ forall a, In a (entries h) -> a = [].
Proof.
  split.
  - intros E. split.
    + destruct l as [|x l]; [reflexivity|].
      assert (H : In x (mergeHints (x :: l) h))
        by (apply mergeHints_In; left; now left).
      rewrite E in H. contradiction.
    + intros a Ha. destruct a as [|c s]; [reflexivity|].
      assert (H : In (c :: s) (mergeHints l h))
        by (apply mergeHints_In; right; split; [exact Ha | discriminate]).
      rewrite E in H. contradiction.
  - intros [-> N]. destruct (mergeHints [] h) as [|x m] eqn:E; [reflexivity|].
    assert (H : In x (mergeHints [] h)) by (rewrite E; now left).
    apply mergeHints_In in H. destruct H as [[]|[Hx Nx]].
    now specialize (N _ Hx).
Qed.

(** X11: where the entries of [tone], [industries], [regions] and
    [compliance] come from.  Each entry is the label of a pattern of the
    field's table found in the lower-cased text, a fallback, or a
    non-empty hint entry.  The fallbacks (three tone words, "General",
    "Global") are used exactly when no pattern of the table is found;
    [compliance] has none, and is empty exactly when nothing is found
    and no hint entry counts. *)
Theorem X11_labels_and_fallbacks
  (toLowerCase : jsstring -> jsstring)
  (inherited : jsstring -> option jsstring)
  (raw : jsstring) (hints : option Hints.t) (clock : nat -> Z) :
  let d := details (improveIdea toLowerCase inherited raw hints clock) in
  let text := toLowerCase (trim raw) in
  (forall a, In a (Details.tone d)
             <-> found text toneTests a
                 \/ (In a toneFallback /\ nothingFound text toneTests)
                 \/ hinted (hint Hints.tone hints) a)
  /\ (forall a, In a (Details.industries d)
                <-> found text industryMap a
                    \/ (a = js "General" /\ nothingFound text industryMap)
                    \/ hinted (hint Hints.industries hints) a)
  /\ (forall a, In a (Details.regions d)
                <-> found text regionMap a
                    \/ (a = js "Global" /\ nothingFound text regionMap)
                    \/ hinted (hint Hints.regions hints) a)
  /\ (forall a, In a (Details.compliance d)
                <-> found text complianceTests a
                    \/ hinted (hint Hints.compliance hints) a)
  /\ (Details.compliance d = []
      <-> nothingFound text complianceTests
          /\ forall a, In a (entries (hint Hints.compliance hints)) -> a = []).
Proof.
  cbv zeta.
  cbn [details improveIdea detailsOf Details.tone Details.industries
       Details.regions Details.compliance].
  unfold hinted. split; [|split; [|split; [|split]]].
  - intros a. unfold toneWords. rewrite mergeHints_In, toneDetected_In. tauto.
  - intros a. unfold industries.
    rewrite mergeHints_In, industriesDetected_In. cbn [In].
    forget_strings. intuition congruence.
  - intros a. unfold regions.
    rewrite mergeHints_In, regionsDetected_In. cbn [In].
    forget_strings. intuition congruence.
  - intros a. unfold compliance, complianceDetected.
    rewrite mergeHints_In, collect_In. reflexivity.
  - unfold compliance, complianceDetected.
    rewrite mergeHints_nil, collect_nil. reflexivity.
Qed.

Lemma isSiteType_true toLowerCase raw hints t :
  isSiteType toLowerCase raw hints t = true
  <-> siteType toLowerCase raw hints = t.
Proof.
  unfold isSiteType. rewrite str_eqb_eq. split; [|now intros ->].
  destruct (siteType toLowerCase raw hints), t; intros E;
    try reflexivity; vm_compute in E; discriminate E.
Qed.

Lemma truthy_list_true l : truthy_list l = true <-> l <> [].
Proof. destruct l; simpl; split; congruence. Qed.

Lemma startsWith_pushIf c q l a :
  startsWith l a -> startsWith (pushIf c q l) a.
Proof. unfold pushIf. destruct c; [apply startsWith_app | auto]. Qed.

(** X12: the questions follow the details.  The list begins with the
    base questions; the catalogue, pricing-model, services and tickets
    questions are asked exactly when the site type is ecommerce, saas,
    booking and event; the legal-pages question exactly when
    [compliance] is not empty. *)
Theorem X12_questions_follow_the_details
  (toLowerCase : jsstring -> jsstring)
  (inherited : jsstring -> option jsstring)
  (raw : jsstring) (hints : option Hints.t) (clock : nat -> Z) :
  let d := details (improveIdea toLowerCase inherited raw hints clock) in
  let q := Details.clarifyingQuestions d in
  startsWith q clarifyingBase
  /\ (In (js "What is the product catalog size, categories, variants, shipping/returns policy?") q
      <-> Details.siteType d = ecommerce)
  /\ (In (js "What is the pricing model (free, freemium, trial), onboarding flow, and docs scope?") q
      <-> Details.siteType d = saas)
  /\ (In (js "What services, durations, availability rules, and rescheduling/cancellation policies apply?") q
      <-> Details.siteType d = booking)
  /\ (In (js "What ticket types, seating, speakers, and content schedule are expected?") q
      <-> Details.siteType d = event)
  /\ (In (js "Do you need legal pages (Privacy, Terms, Cookies) and data retention policies aligned with compliance?") q
      <-> Details.compliance d <> []).
Proof.
  cbv zeta.
  cbn [details improveIdea detailsOf Details.clarifyingQuestions
       Details.siteType Details.compliance].
  rewrite <- !isSiteType_true, <- truthy_list_true.
  split; [|split; [|split; [|split; [|split]]]].
  - unfold clarifyingQuestions. cbv zeta.
    repeat apply startsWith_pushIf. apply startsWith_refl.
  - which_question.
  - which_question.
  - which_question.
  - which_question.
  - which_question.
Qed.


(** ** The output language *)

(** X23: the output language changes the rendering only.  Setting
    [outputLang] among the hints leaves every field of the details as
    it was, the labels and lists in English included, apart from
    [blueprint] and [outputLang] itself, which is Arabic exactly for
    "ar". *)
Theorem X23_language_changes_the_rendering_only
  (toLowerCase : jsstring -> jsstring)
  (inherited : jsstring -> option jsstring)
  (raw : jsstring) (hints : option Hints.t) (l : jsstring)
  (clock : nat -> Z) :
  let h := match hints with Some h => h | None => Hints.none end in
  let d := details (improveIdea toLowerCase inherited raw hints clock) in
  let d' :=
    details (improveIdea toLowerCase inherited raw
               (Some (Hints.with_outputLang l h)) clock) in
  d' = Details.mk (Details.audience d) (Details.siteType d)
         (Details.siteTypeLabel d) (Details.tone d)
         (Details.suggestedSections d) (Details.defaultFeatures d)
         (Details.detectedFeatures d) (Details.selectedFeatures d)
         (Details.ideaLength d) (Details.wordCount d) (Details.statedGoal d)
         (Details.projectMode d) (Details.industries d) (Details.regions d)
         (Details.languages d) (Details.currency d)
         (Details.requiresPayments d) (Details.compliance d)
         (Details.pages d) (Details.sitemap d) (Details.userStories d)
         (Details.techSuggestions d) (Details.nonFunctional d)
         (Details.kpis d) (Details.contentChecklist d) (Details.milestones d)
         (Details.personas d) (Details.clarifyingQuestions d)
         (Details.blueprint d') (Details.outputLang d')
  /\ Details.outputLang d' = (if str_eqb l (js "ar") then ar else en).
Proof.
  cbv zeta. split.
  - destruct hints as [h|];
      cbv beta iota zeta delta
        [details improveIdea detailsOf audience siteType projectMode
         toneWords features selectedFeatures industries languages regions
         currency requiresPayments requiresPaymentsFinal compliance
         pagesBase pages sitemap userStories techSuggestions kpis
         contentChecklist milestones personas isSiteType
         clarifyingQuestions hint Hints.none Hints.with_outputLang
         Hints.audience Hints.siteType Hints.tone Hints.features
         Hints.industries Hints.regions Hints.languages Hints.currency
         Hints.pages Hints.requiresPayments Hints.compliance Hints.kpis
         Hints.userStories Hints.tech Hints.contentChecklist
         Hints.milestones Hints.personas Hints.projectMode
         Details.audience Details.siteType Details.siteTypeLabel
         Details.tone Details.suggestedSections Details.defaultFeatures
         Details.detectedFeatures Details.selectedFeatures
         Details.ideaLength Details.wordCount Details.statedGoal
         Details.projectMode Details.industries Details.regions
         Details.languages Details.currency Details.requiresPayments
         Details.compliance Details.pages Details.sitemap
         Details.userStories Details.techSuggestions Details.nonFunctional
         Details.kpis Details.contentChecklist Details.milestones
         Details.personas Details.clarifyingQuestions];
      reflexivity.
  - cbn [details improveIdea detailsOf Details.outputLang].
    unfold lang. reflexivity.
Qed.

(** * Properties of the route *)

(** ** The client address *)

Lemma splitUnit_head sep s :
  forall cur,
    hd [] (splitUnit sep cur s) = rev cur ++ takeUntil sep s.
Proof.
  induction s as [|c s IH]; intros cur; simpl.
  - now rewrite app_nil_r.
  - destruct (c =? sep); simpl; [now rewrite app_nil_r|].
    rewrite IH. simpl. now rewrite <- app_assoc.
Qed.

Lemma takeUntil_no_sep sep s : ~ In sep (takeUntil sep s).
Proof.
  induction s as [|c s IH]; simpl; [tauto|].
  destruct (N.eqb_spec c sep); simpl; [tauto|]. intuition.
Qed.

Lemma trim_incl s c : In c (trim s) -> In c s.
Proof.
  unfold trim. intros H.
  destruct (dropWhile_suffix isSpace s) as [h Eh].
  destruct (dropWhileEnd_prefix isSpace (dropWhile isSpace s)) as [t Et].
  rewrite Eh, Et, !in_app_iff. tauto.
Qed.

Lemma getClientIp_cases xForwardedFor xRealIp :
  (exists xf, xForwardedFor = Some xf /\ xf <> []
              /\ getClientIp xForwardedFor xRealIp
                 = trim (takeUntil comma xf))
  \/ ((xForwardedFor = None \/ xForwardedFor = Some [])
      /\ ((exists realIp, xRealIp = Some realIp /\ realIp <> []
                          /\ getClientIp xForwardedFor xRealIp = trim realIp)
          \/ ((xRealIp = None \/ xRealIp = Some [])
              /\ getClientIp xForwardedFor xRealIp = js "unknown"))).
Proof.
  unfold getClientIp.
  destruct xForwardedFor as [[|c xf]|].
  - right. split; [now right|].
    destruct xRealIp as [[|c' rip]|].
    + right. split; [now right | reflexivity].
    + left. exists (c' :: rip).
      split; [reflexivity|]. split; [discriminate | reflexivity].
    + right. split; [now left | reflexivity].
  - left. exists (c :: xf). split; [reflexivity|]. split; [discriminate|].
    now rewrite splitUnit_head.
  - right. split; [now left|].
    destruct xRealIp as [[|c' rip]|].
    + right. split; [now right | reflexivity].
    + left. exists (c' :: rip).
      split; [reflexivity|]. split; [discriminate | reflexivity].
    + right. split; [now left | reflexivity].
Qed.

(** X13: the client address is taken from [x-forwarded-for] whenever
    that header is not empty: it is the text before the first comma,
    trimmed, so it holds no comma, and it is empty when the header
    starts with a comma; [x-real-ip] is then not looked at.  Otherwise
    it is the trimmed [x-real-ip] when that is not empty, and "unknown"
    when both are missing or empty.  In every case the address has no
    white space at either end. *)
Theorem X13_client_address (xForwardedFor xRealIp : option jsstring) :
  let ip := getClientIp xForwardedFor xRealIp in
  let missing := fun h : option jsstring => h = None \/ h = Some [] in
  (forall c, hd_error ip = Some c -> isSpace c = false)
  /\ (forall c, hd_error (rev ip) = Some c -> isSpace c = false)
  /\ (forall xf, xForwardedFor = Some xf -> xf <> [] ->
                 ip = trim (takeUntil comma xf) /\ ~ In comma ip)
  /\ (forall xf, xForwardedFor = Some (comma :: xf) -> ip = [])
  /\ (forall realIp, missing xForwardedFor -> xRealIp = Some realIp ->
                     realIp <> [] -> ip = trim realIp)
  /\ (missing xForwardedFor -> missing xRealIp -> ip = js "unknown").
Proof.
  cbv zeta.
  destruct (getClientIp_cases xForwardedFor xRealIp)
    as [(xf & Ex & Nx & E)
       |(Mx & [(rip & Er & Nr & E)|(Mr & E)])];
    rewrite E.
  - split; [apply trim_head|]. split; [apply trim_last|].
    split; [|split; [|split]].
    + intros xf' Ex' _. assert (xf' = xf) by congruence. subst xf'.
      split; [reflexivity|]. intros Hin. apply trim_incl in Hin.
      exact (takeUntil_no_sep _ _ Hin).
    + intros xf' Ex'. assert (xf = comma :: xf') by congruence. subst xf.
      reflexivity.
    + intros rip [M|M]; congruence.
    + intros [M|M]; congruence.
  - split; [apply trim_head|]. split; [apply trim_last|].
    split; [|split; [|split]].
    + intros xf Ex Nx. destruct Mx; congruence.
    + intros xf Ex. destruct Mx; congruence.
    + intros rip' _ Er' _. congruence.
    + intros _ [M|M]; congruence.
  - split; [vm_compute; now intros ? [= <-]|].
    split; [vm_compute; now intros ? [= <-]|].
    split; [|split; [|split]].
    + intros xf Ex Nx. destruct Mx; congruence.
    + intros xf Ex. destruct Mx; congruence.
    + intros rip _ Er Nr. destruct Mr; congruence.
    + reflexivity.
Qed.

(** X13 at work: a proxy chain in [x-forwarded-for]. *)
Lemma X13_witness :
  getClientIp (Some (js "203.0.113.7 , 10.0.0.1")) (Some (js "10.0.0.2"))
  = trim (takeUntil comma (js "203.0.113.7 , 10.0.0.1"))
  /\ ~ In comma
        (getClientIp (Some (js "203.0.113.7 , 10.0.0.1"))
           (Some (js "10.0.0.2"))).
Proof.
  apply (X13_client_address (Some (js "203.0.113.7 , 10.0.0.1"))
           (Some (js "10.0.0.2"))).
  - reflexivity.
  - discriminate.
Defined.

(** ** The two maps *)

Lemma get_set_same {V} (m : JsMap.t V) k v :
  JsMap.get (JsMap.set m k v) k = Some v.
Proof.
  induction m as [|[k' v'] m IH]; simpl.
  - now rewrite str_eqb_refl.
  - destruct (str_eqb k' k) eqn:E; simpl; rewrite E; [reflexivity | exact IH].
Qed.

Lemma get_set_other {V} (m : JsMap.t V) k v k' :
  k' <> k -> JsMap.get (JsMap.set m k v) k' = JsMap.get m k'.
Proof.
  intros D.
  assert (F : str_eqb k k' = false) by (apply str_eqb_neq; congruence).
  induction m as [|[k0 v0] m IH]; simpl.
  - now rewrite F.
  - destruct (str_eqb k0 k) eqn:E; simpl.
    + apply str_eqb_eq in E. subst k0. now rewrite F.
    + destruct (str_eqb k0 k'); [reflexivity | exact IH].
Qed.

Lemma get_None_keys {V} (m : JsMap.t V) k :
  JsMap.get m k = None <-> ~ In k (JsMap.keys m).
Proof.
  induction m as [|[k' v'] m IH]; simpl; [tauto|].
  destruct (str_eqb k' k) eqn:E.
  - apply str_eqb_eq in E. split; [discriminate | tauto].
  - apply str_eqb_neq in E. rewrite IH. tauto.
Qed.

Lemma keys_set {V} (m : JsMap.t V) k v :
  JsMap.keys (JsMap.set m k v)
  = match JsMap.get m k with
    | Some _ => JsMap.keys m
    | None => JsMap.keys m ++ [k]
    end.
Proof.
  unfold JsMap.keys.
  induction m as [|[k' v'] m IH]; simpl; [reflexivity|].
  destruct (str_eqb k' k) eqn:E; simpl; [reflexivity|].
  rewrite IH. now destruct (JsMap.get m k).
Qed.

Lemma keys_set_incl {V} (m : JsMap.t V) k v :
  incl (JsMap.keys m) (JsMap.keys (JsMap.set m k v)).
Proof.
  rewrite keys_set. destruct (JsMap.get m k); intros a Ha; [exact Ha|].
  apply in_or_app. now left.
Qed.

Lemma keys_set_NoDup {V} (m : JsMap.t V) k v :
  NoDup (JsMap.keys m) -> NoDup (JsMap.keys (JsMap.set m k v)).
Proof.
  intros N. rewrite keys_set. destruct (JsMap.get m k) eqn:E; [exact N|].
  apply get_None_keys in E.
  apply NoDup_app; [exact N | repeat constructor; simpl; tauto |].
  intros a Ha [<-|[]]. contradiction.
Qed.

(** ** The rate limit *)

Lemma rateLimit_cases m ip now :
  (exists e, JsMap.get m ip = Some e
             /\ (now <= Rate.resetAt e)%Z /\ (RATE_LIMIT <= Rate.count e)%Z
             /\ rateLimit m ip now = inr (Rate.resetAt e))
  \/ (exists e, JsMap.get m ip = Some e
                /\ (now <= Rate.resetAt e)%Z /\ (Rate.count e < RATE_LIMIT)%Z
                /\ rateLimit m ip now
                   = inl (JsMap.set m ip
                            (Rate.mk (Rate.count e + 1) (Rate.resetAt e))))
  \/ ((forall e, JsMap.get m ip = Some e -> (Rate.resetAt e < now)%Z)
      /\ rateLimit m ip now
         = inl (JsMap.set m ip (Rate.mk 1 (now + RATE_WINDOW_MS)))).
Proof.
  unfold rateLimit. destruct (JsMap.get m ip) as [e|].
  - destruct (Z.ltb_spec (Rate.resetAt e) now) as [L|L].
    + right. right. split; [|reflexivity]. now intros e' [= <-].
    + destruct (Z.leb_spec RATE_LIMIT (Rate.count e)) as [C|C].
      * left. exists e. auto.
      * right. left. exists e. auto.
  - right. right. split; [discriminate | reflexivity].
Qed.

Lemma rateRun_in_window times :
  forall m ip c r,
    JsMap.get m ip = Some (Rate.mk c r) ->
    Forall (fun t => (t <= r)%Z) times ->
    rateRun m ip times
    = map (fun i => (Z.of_nat i + c <? RATE_LIMIT)%Z)
        (seq 0 (List.length times)).
Proof.
  induction times as [|t times IH]; intros m ip c r G F; [reflexivity|].
  inversion F as [|? ? Ht Ft]; subst.
  cbn [rateRun List.length seq map].
  rewrite <- seq_shift, map_map.
  destruct (rateLimit_cases m ip t)
    as [(e & Ge & _ & C & E)|[(e & Ge & _ & C & E)|(O & _)]].
  - rewrite G in Ge. injection Ge as <-. simpl in C, E. rewrite E.
    f_equal.
    + symmetry. apply Z.ltb_ge. simpl. lia.
    + rewrite (IH m ip c r G Ft). apply map_ext_in. intros i _.
      destruct (Z.ltb_spec (Z.of_nat i + c) RATE_LIMIT);
        destruct (Z.ltb_spec (Z.of_nat (S i) + c) RATE_LIMIT); lia.
  - rewrite G in Ge. injection Ge as <-. simpl in C, E. rewrite E.
    f_equal.
    + symmetry. apply Z.ltb_lt. simpl. lia.
    + rewrite (IH _ ip (c + 1)%Z r (get_set_same m ip _) Ft).
      apply map_ext. intros i. f_equal. lia.
  - specialize (O _ G). simpl in O. lia.
Qed.

(** X14: an address opens a window with its first request, or with the
    first one after its last window has ended.  Of the requests it
    sends until that window ends, the opening one included, exactly the
    first 60 pass and every later one is refused. *)
Theorem X14_sixty_requests_per_window
  (m : JsMap.t Rate.entry) (ip : jsstring) (t0 : Z) (rest : list Z)
  (Hopens : forall e, JsMap.get m ip = Some e -> (Rate.resetAt e < t0)%Z)
  (Hwithin : Forall (fun t => (t <= t0 + RATE_WINDOW_MS)%Z) rest) :
  rateRun m ip (t0 :: rest)
  = map (fun i => Nat.ltb i 60) (seq 0 (S (List.length rest))).
Proof.
  cbn [rateRun seq map].
  destruct (rateLimit_cases m ip t0)
    as [(e & Ge & L & _)|[(e & Ge & L & _)|(_ & E)]];
    try (specialize (Hopens _ Ge); lia).
  rewrite E. f_equal.
  rewrite (rateRun_in_window rest _ ip 1%Z _ (get_set_same m ip _) Hwithin).
  rewrite <- seq_shift, map_map. apply map_ext. intros i.
  unfold RATE_LIMIT.
  destruct (Z.ltb_spec (Z.of_nat i + 1) 60);
    destruct (Nat.ltb_spec (S i) 60); try reflexivity; lia.
Qed.

(** X14 at work: 62 requests within one second, on a fresh map. *)
Lemma X14_witness :
  rateRun JsMap.empty (js "203.0.113.7")
    (0 :: map Z.of_nat (seq 1 61))%Z
  = map (fun i => Nat.ltb i 60)
      (seq 0 (S (List.length (map Z.of_nat (seq 1 61))))).
Proof.
  apply (X14_sixty_requests_per_window JsMap.empty (js "203.0.113.7") 0%Z
           (map Z.of_nat (seq 1 61))).
  - intros e; discriminate.
  - apply Forall_forall. intros t Ht. apply in_map_iff in Ht.
    destruct Ht as (i & <- & Hi). apply in_seq in Hi.
    unfold RATE_WINDOW_MS. lia.
Defined.

(** X15: the rate limit keeps the addresses apart and never forgets
    one.  A request that passes leaves every other address' entry as it
    was, so whether another address is refused does not change; a
    refused request reports an end of window that is not in the past,
    and the same address passes again at any time after it. *)
Theorem X15_rate_limit_per_address
  (m : JsMap.t Rate.entry) (ip : jsstring) (now : Z) :
  (forall m', rateLimit m ip now = inl m' ->
     (forall ip', ip' <> ip -> JsMap.get m' ip' = JsMap.get m ip')
     /\ (forall ip' now', ip' <> ip ->
                          refused m' ip' now' = refused m ip' now')
     /\ incl (JsMap.keys m) (JsMap.keys m')
     /\ In ip (JsMap.keys m'))
  /\ (forall resetAt, rateLimit m ip now = inr resetAt ->
        (now <= resetAt)%Z
        /\ (forall later, (resetAt < later)%Z -> refused m ip later = false)
        /\ (forall t, (t <= resetAt)%Z -> refused m ip t = true)).
Proof.
  split.
  - intros m' E.
    assert (S : exists e, m' = JsMap.set m ip e).
    { destruct (rateLimit_cases m ip now)
        as [(e & _ & _ & _ & E')|[(e & _ & _ & _ & E')|(_ & E')]];
        rewrite E' in E; [discriminate| |]; injection E as <-; eauto. }
    destruct S as (e & ->).
    assert (G : forall ip', ip' <> ip ->
                JsMap.get (JsMap.set m ip e) ip' = JsMap.get m ip')
      by (intros; now apply get_set_other).
    split; [exact G|]. split; [|split].
    + intros ip' now' D. unfold refused, rateLimit. rewrite (G _ D).
      destruct (JsMap.get m ip') as [rl|]; [|reflexivity].
      destruct (Rate.resetAt rl <? now')%Z; [reflexivity|].
      now destruct (RATE_LIMIT <=? Rate.count rl)%Z.
    + apply keys_set_incl.
    + destruct (in_dec str_eq_dec ip (JsMap.keys (JsMap.set m ip e)))
        as [I|I]; [exact I|].
      apply get_None_keys in I. rewrite get_set_same in I. discriminate.
  - intros r E.
    destruct (rateLimit_cases m ip now)
      as [(e & Ge & L & C & E')|[(e & _ & _ & _ & E')|(_ & E')]];
      rewrite E' in E; try discriminate.
    injection E as <-. split; [exact L|].
    split; intros t Ht; unfold refused, rateLimit; rewrite Ge.
    + apply Z.ltb_lt in Ht. now rewrite Ht.
    + apply Z.ltb_ge in Ht. rewrite Ht.
      apply Z.leb_le in C. now rewrite C.
Qed.

(** ** The handler *)

Section Handler.

Variable toLowerCase : jsstring -> jsstring.
Variable inherited : jsstring -> option jsstring.
Variable number : Type.
Variable cacheKey : jsstring -> option (object number) -> bool -> jsstring.

Lemma respond_cases (st : Store) (rm : JsMap.t Rate.entry)
  (p : Parsed.t number) (h : option Hints.t) (clock : nat -> Z) :
  let answer :=
    respond toLowerCase inherited number cacheKey st rm (truncatedOf p)
      (mergedHintsCandidate p) h (includeDetailsOf p) clock in
  (exists e,
      JsMap.get (cache st) (keyOf number cacheKey p) = Some e
      /\ (clock 0%nat < Cache.expiresAt e)%Z
      /\ answer = (Ok200 (Cache.value e), mkStore (cache st) rm))
  \/ ((forall e, JsMap.get (cache st) (keyOf number cacheKey p) = Some e ->
                 (Cache.expiresAt e <= clock 0%nat)%Z)
      /\ answer
         = (Ok200 (computed toLowerCase inherited number p h clock),
            mkStore
              (JsMap.set (cache st) (keyOf number cacheKey p)
                 (Cache.mk (computed toLowerCase inherited number p h clock)
                    (clock 0%nat + CACHE_TTL_MS)%Z))
              rm)).
Proof.
  unfold respond, computed, keyOf. cbv zeta.
  generalize (improveIdea toLowerCase inherited (truncatedOf p) h
                (fun n => clock (S n))).
  intros out.
  destruct (JsMap.get (cache st) _) as [e|].
  - destruct (Z.ltb_spec (clock 0%nat) (Cache.expiresAt e)) as [L|L].
    + left. exists e. auto.
    + right. split; [now intros e' [= <-] | reflexivity].
  - right. split; [discriminate | reflexivity].
Qed.

(** The five ways out of [POST]. *)
Lemma POST_cases (st : Store) (req : Request.t number) (clock : nat -> Z) :
  let answer := POST toLowerCase inherited number cacheKey st req clock in
  (parseRequest (bodyOf req) = None
   /\ answer = (Bad400 (js "Invalid request"), st))
  \/ exists p, parseRequest (bodyOf req) = Some p /\
     ((exists resetAt,
         rateLimit (rateMap st) (ipOf req) (clock 0%nat) = inr resetAt
         /\ answer = (Limited429 resetAt, st))
      \/ exists rm,
         rateLimit (rateMap st) (ipOf req) (clock 0%nat) = inl rm /\
         ((hintsOf (mergedHintsCandidate p) = None
           /\ answer = (Bad400 (js "Invalid hints"), mkStore (cache st) rm))
          \/ exists h, hintsOf (mergedHintsCandidate p) = Some h /\
             ((exists e,
                 JsMap.get (cache st) (keyOf number cacheKey p) = Some e
                 /\ (clock 0%nat < Cache.expiresAt e)%Z
                 /\ answer = (Ok200 (Cache.value e), mkStore (cache st) rm))
              \/ ((forall e,
                     JsMap.get (cache st) (keyOf number cacheKey p) = Some e ->
                     (Cache.expiresAt e <= clock 0%nat)%Z)
                  /\ answer
                     = (Ok200 (computed toLowerCase inherited number p h clock),
                        mkStore
                          (JsMap.set (cache st) (keyOf number cacheKey p)
                             (Cache.mk
                                (computed toLowerCase inherited number p h
                                   clock)
                                (clock 0%nat + CACHE_TTL_MS)%Z))
                          rm))))).
Proof.
  unfold POST. cbv zeta. fold (bodyOf req). fold (ipOf req).
  destruct (parseRequest (bodyOf req)) as [p|]; [right | now left].
  exists p. split; [reflexivity|]. fold (truncatedOf p).
  destruct (rateLimit (rateMap st) (ipOf req) (clock 0%nat)) as [rm|r];
    [right | left; eauto].
  exists rm. split; [reflexivity|].
  pose proof (fun h => respond_cases st rm p h clock) as R. cbv zeta in R.
  unfold hintsOf.
  destruct (mergedHintsCandidate p) as [|b c] eqn:C.
  - right. exists None. split; [reflexivity|]. apply R.
  - destruct (parseHints (b :: c)) as [h|].
    + right. exists (Some h). split; [reflexivity|]. apply R.
    + left. split; reflexivity.
Qed.

Lemma keys_set_grows {V} (m : JsMap.t V) k v :
  exists l, JsMap.keys (JsMap.set m k v) = JsMap.keys m ++ l
            /\ (List.length l <= 1)%nat.
Proof.
  rewrite keys_set. destruct (JsMap.get m k).
  - exists []. rewrite app_nil_r. split; [reflexivity | simpl; lia].
  - exists [k]. split; [reflexivity | simpl; lia].
Qed.

Lemma grows_refl (l : list jsstring) :
  exists d, l = l ++ d /\ (List.length d <= 1)%nat.
Proof. exists []. rewrite app_nil_r. split; [reflexivity | simpl; lia]. Qed.

Lemma rateLimit_sets m ip now m' :
  rateLimit m ip now = inl m' ->
  exists e, m' = JsMap.set m ip e
            /\ (Rate.count e = 1%Z
                \/ exists e0, JsMap.get m ip = Some e0
                              /\ (Rate.count e0 < RATE_LIMIT)%Z
                              /\ Rate.count e = (Rate.count e0 + 1)%Z).
Proof.
  intros E.
  destruct (rateLimit_cases m ip now)
    as [(e & _ & _ & _ & E')|[(e & G & _ & C & E')|(_ & E')]];
    rewrite E' in E; [discriminate| |]; injection E as <-.
  - eexists. split; [reflexivity|]. right. exists e. auto.
  - eexists. split; [reflexivity|]. now left.
Qed.

Lemma rateLimit_ok m ip now m' :
  rateOk m -> rateLimit m ip now = inl m' -> rateOk m'.
Proof.
  intros [N B] E. destruct (rateLimit_sets _ _ _ _ E) as (e & -> & C).
  split; [now apply keys_set_NoDup|].
  intros ip' e' G. destruct (str_eq_dec ip' ip) as [->|D].
  - rewrite get_set_same in G. injection G as <-.
    destruct C as [C|(e0 & G0 & C0 & C)]; rewrite C.
    + unfold RATE_LIMIT. lia.
    + specialize (B _ _ G0). lia.
  - rewrite (get_set_other _ _ _ _ D) in G. eauto.
Qed.

(** X16: the two maps are never pruned.  Whatever the request and the
    answer, each map keeps its keys in their order and gains at most
    one at the end, an expired cache entry included; each key stays
    once in its map, and every rate count stays between 1 and the
    limit of 60. *)
Theorem X16_maps_only_grow
  (st : Store) (req : Request.t number) (clock : nat -> Z)
  (Hok : storeOk st) :
  let st' := snd (POST toLowerCase inherited number cacheKey st req clock) in
  storeOk st'
  /\ (exists l, JsMap.keys (cache st') = JsMap.keys (cache st) ++ l
                /\ (List.length l <= 1)%nat)
  /\ (exists l, JsMap.keys (rateMap st') = JsMap.keys (rateMap st) ++ l
                /\ (List.length l <= 1)%nat).
Proof.
  cbv zeta. destruct Hok as [R C].
  assert (G : forall rm, rateLimit (rateMap st) (ipOf req) (clock 0%nat)
                         = inl rm ->
              rateOk rm
              /\ exists l, JsMap.keys rm = JsMap.keys (rateMap st) ++ l
                           /\ (List.length l <= 1)%nat).
  { intros rm E. split; [now apply (rateLimit_ok _ _ _ _ R E)|].
    destruct (rateLimit_sets _ _ _ _ E) as (e & -> & _).
    apply keys_set_grows. }
  destruct (POST_cases st req clock)
    as [(_ & E)
       |(p & _ & [(r & _ & E)
                 |(rm & L & [(_ & E)
                            |(h & _ & [(e & _ & _ & E)|(_ & E)])])])];
    rewrite E; cbn [snd cache rateMap];
    try destruct (G _ L) as (R' & Gr).
  - split; [now split|]. split; apply grows_refl.
  - split; [now split|]. split; apply grows_refl.
  - split; [now split|]. split; [apply grows_refl | exact Gr].
  - split; [now split|]. split; [apply grows_refl | exact Gr].
  - split; [split; [exact R' | now apply keys_set_NoDup]|].
    split; [apply keys_set_grows | exact Gr].
Qed.

(** X17: what a rejected request costs.  A body that fails the request
    schema is answered 400 "Invalid request" before the clock and the
    rate limit are looked at: the store stays as it was.  A refused
    address is answered 429 with the end of its window, whatever its
    hints are, and the store stays as it was.  Hints that fail their
    schema are answered 400 "Invalid hints" only after the request has
    been counted against its address; the cache is not touched. *)
Theorem X17_rejections
  (st : Store) (req : Request.t number) (clock : nat -> Z) :
  let now := clock 0%nat in
  let answer := POST toLowerCase inherited number cacheKey st req clock in
  (parseRequest (bodyOf req) = None ->
   answer = (Bad400 (js "Invalid request"), st))
  /\ (forall p, parseRequest (bodyOf req) = Some p ->
        refused (rateMap st) (ipOf req) now = true ->
        exists e, JsMap.get (rateMap st) (ipOf req) = Some e
                  /\ (now <= Rate.resetAt e)%Z
                  /\ answer = (Limited429 (Rate.resetAt e), st))
  /\ (forall p, parseRequest (bodyOf req) = Some p ->
        refused (rateMap st) (ipOf req) now = false ->
        hintsOf (mergedHintsCandidate p) = None ->
        exists rm, rateLimit (rateMap st) (ipOf req) now = inl rm
                   /\ answer
                      = (Bad400 (js "Invalid hints"), mkStore (cache st) rm))
  /\ (forall error st', answer = (Bad400 error, st') ->
        cache st' = cache st)
  /\ (forall resetAt st', answer = (Limited429 resetAt, st') -> st' = st).
Proof.
  cbv zeta. unfold refused.
  destruct (POST_cases st req clock)
    as [(Q & E)
       |(p & Q & [(r & L & E)
                 |(rm & L & [(Hh & E)
                            |(h & Hh & [(e & _ & _ & E)|(_ & E)])])])];
    rewrite E, Q; (split; [|split; [|split; [|split]]]);
    try discriminate; try reflexivity;
    try (intros ? [= <-]; rewrite L; try discriminate).
  - now intros ? ? [= _ <-].
  - intros _.
    destruct (rateLimit_cases (rateMap st) (ipOf req) (clock 0%nat))
      as [(e & G & B & _ & E')|[(e & _ & _ & _ & E')|(_ & E')]];
      rewrite E' in L; try discriminate.
    injection L as <-. eauto.
  - now intros ? ? [= _ <-].
  - intros _ _. eauto.
  - now intros ? ? [= _ <-].
  - intros _. congruence.
  - intros _. congruence.
Qed.

(** X18: a cached answer is served again as it is.  When every entry
    of the cache has expired (or the cache is empty) and a request is
    answered 200, a request with the same body that comes less than
    60000 ms later by the clock and is not refused by the rate limit
    gets the very same response object, whatever its address headers:
    the [processingMs] it reports is that of the first computation.
    The cache is left as it was. *)
Theorem X18_cached_answer_is_served_again
  (st : Store) (req req' : Request.t number) (clock clock' : nat -> Z)
  (response : Payload)
  (Hexpired : allExpired (cache st) (clock 0%nat))
  (Hfirst :
     fst (POST toLowerCase inherited number cacheKey st req clock)
     = Ok200 response)
  (Hsame : Request.body req' = Request.body req)
  (Hsoon : (clock' 0%nat < clock 0%nat + CACHE_TTL_MS)%Z)
  (Hpasses :
     refused
       (rateMap (snd (POST toLowerCase inherited number cacheKey st req clock)))
       (ipOf req') (clock' 0%nat) = false) :
  let st' := snd (POST toLowerCase inherited number cacheKey st req clock) in
  fst (POST toLowerCase inherited number cacheKey st' req' clock')
  = Ok200 response
  /\ cache (snd (POST toLowerCase inherited number cacheKey st' req' clock'))
     = cache st'.
Proof.
  cbv zeta. revert Hfirst Hpasses.
  assert (B : bodyOf req' = bodyOf req) by (unfold bodyOf; now rewrite Hsame).
  destruct (POST_cases st req clock)
    as [(_ & E)
       |(p & Q & [(r & _ & E)
                 |(rm & _ & [(_ & E)
                            |(h & Hh & [(e & G & L & E)|(_ & E)])])])];
    rewrite E; cbn [fst snd rateMap cache]; try discriminate.
  - specialize (Hexpired _ _ G). lia.
  - intros [= <-] Hpasses.
    set (st' := mkStore _ rm).
    assert (G' : JsMap.get (cache st') (keyOf number cacheKey p)
                 = Some (Cache.mk
                           (computed toLowerCase inherited number p h clock)
                           (clock 0%nat + CACHE_TTL_MS)%Z))
      by apply get_set_same.
    unfold refused in Hpasses.
    destruct (POST_cases st' req' clock')
      as [(Q' & _)
         |(p' & Q' & [(r & L' & _)
                     |(rm' & _ & [(Hh' & _)
                                 |(h' & _ & [(e & G2 & _ & E')|(X & _)])])])];
      rewrite B, Q in Q'; try discriminate Q'; injection Q' as <-.
    + subst st'. cbn [rateMap] in L'. now rewrite L' in Hpasses.
    + congruence.
    + rewrite G' in G2. injection G2 as <-. now rewrite E'.
    + specialize (X _ G'). cbn [Cache.expiresAt] in X. lia.
Qed.

(** X19: a cache entry is computed again once it is 60000 ms old.  With
    the cache as in X18, the same body at or after the entry's expiry
    is answered with a response computed anew from the later clock, and
    the new entry takes the place of the old one: the cache keeps its
    keys. *)
Theorem X19_expired_answer_is_computed_again
  (st : Store) (req req' : Request.t number) (clock clock' : nat -> Z)
  (response : Payload)
  (Hexpired : allExpired (cache st) (clock 0%nat))
  (Hfirst :
     fst (POST toLowerCase inherited number cacheKey st req clock)
     = Ok200 response)
  (Hsame : Request.body req' = Request.body req)
  (Hlate : (clock 0%nat + CACHE_TTL_MS <= clock' 0%nat)%Z)
  (Hpasses :
     refused
       (rateMap (snd (POST toLowerCase inherited number cacheKey st req clock)))
       (ipOf req') (clock' 0%nat) = false) :
  let st' := snd (POST toLowerCase inherited number cacheKey st req clock) in
  exists p h,
    parseRequest (bodyOf req) = Some p
    /\ hintsOf (mergedHintsCandidate p) = Some h
    /\ response = computed toLowerCase inherited number p h clock
    /\ fst (POST toLowerCase inherited number cacheKey st' req' clock')
       = Ok200 (computed toLowerCase inherited number p h clock')
    /\ JsMap.keys
         (cache (snd (POST toLowerCase inherited number cacheKey st' req'
                        clock')))
       = JsMap.keys (cache st').
Proof.
  cbv zeta. revert Hfirst Hpasses.
  assert (B : bodyOf req' = bodyOf req) by (unfold bodyOf; now rewrite Hsame).
  destruct (POST_cases st req clock)
    as [(_ & E)
       |(p & Q & [(r & _ & E)
                 |(rm & _ & [(_ & E)
                            |(h & Hh & [(e & G & L & E)|(_ & E)])])])];
    rewrite E; cbn [fst snd rateMap cache]; try discriminate.
  - specialize (Hexpired _ _ G). lia.
  - intros [= <-] Hpasses. exists p, h.
    split; [exact Q|]. split; [exact Hh|]. split; [reflexivity|].
    set (st' := mkStore _ rm).
    assert (G' : JsMap.get (cache st') (keyOf number cacheKey p)
                 = Some (Cache.mk
                           (computed toLowerCase inherited number p h clock)
                           (clock 0%nat + CACHE_TTL_MS)%Z))
      by apply get_set_same.
    unfold refused in Hpasses.
    destruct (POST_cases st' req' clock')
      as [(Q' & _)
         |(p' & Q' & [(r & L' & _)
                     |(rm' & _ & [(Hh' & _)
                                 |(h' & Hh' & [(e & G2 & L2 & _)
                                              |(_ & E')])])])];
      rewrite B, Q in Q'; try discriminate Q'; injection Q' as <-.
    + subst st'. cbn [rateMap] in L'. now rewrite L' in Hpasses.
    + congruence.
    + rewrite G' in G2. injection G2 as <-. cbn [Cache.expiresAt] in L2. lia.
    + assert (h' = h) by congruence. subst h'.
      rewrite E'. cbn [fst snd cache]. split; [reflexivity|].
      rewrite keys_set, G'. reflexivity.
Qed.

End Handler.

(** ** The two schemas and the merged hints *)

Lemma prop_app {number} (o1 o2 : object number) k :
  prop (o1 ++ o2) k
  = match prop o2 k with Some w => Some w | None => prop o1 k end.
Proof.
  induction o1 as [|[k' v] o1 IH]; simpl.
  - now destruct (prop o2 k).
  - rewrite IH. now destruct (prop o2 k).
Qed.

Lemma optional_enum {number} names (v : option (json number)) r :
  Schema.optional (Schema.enum names) v = Some r ->
  match r with
  | Some s => v = Some (JStr s) /\ In s names
  | None => v = None
  end.
Proof.
  unfold Schema.optional, Schema.enum.
  destruct v as [[| | |s| |]|]; try discriminate.
  - destruct (includes names s) eqn:I; [|discriminate].
    intros [= <-]. split; [reflexivity | now apply includes_In].
  - now intros [= <-].
Qed.

(** What the request schema lets through. *)
Lemma parseRequest_fields {number} (body : json number) p :
  parseRequest body = Some p ->
  exists o,
    body = JObj o
    /\ prop o (js "idea") = Some (JStr (Parsed.idea p))
    /\ trim (Parsed.idea p) <> []
    /\ Schema.optional Schema.boolean (prop o (js "details"))
       = Some (Parsed.details p)
    /\ Schema.optional Schema.boolean (prop o (js "verbose"))
       = Some (Parsed.verbose p)
    /\ Schema.optional (Schema.enum (jsl ["en"; "ar"]))
         (prop o (js "outputLang"))
       = Some (Parsed.outputLang p)
    /\ Parsed.meta p = prop o (js "meta")
    /\ Parsed.brief p = prop o (js "brief")
    /\ Parsed.project p = prop o (js "project")
    /\ Parsed.hints p = prop o (js "hints").
Proof.
  unfold parseRequest. destruct body as [| | | | |o]; try discriminate.
  destruct (prop o (js "idea")) as [[| | |s| |]|] eqn:I; try discriminate.
  destruct (truthy (trim s)) eqn:T; [|discriminate].
  destruct (Schema.optional Schema.boolean (prop o (js "details")))
    eqn:D; [|discriminate].
  destruct (Schema.optional Schema.boolean (prop o (js "verbose")))
    eqn:V; [|discriminate].
  destruct (Schema.optional (Schema.enum (jsl ["en"; "ar"]))
              (prop o (js "outputLang"))) eqn:L; [|discriminate].
  intros [= <-]. exists o. cbn [Parsed.idea Parsed.details Parsed.verbose
    Parsed.outputLang Parsed.meta Parsed.brief Parsed.project Parsed.hints].
  split; [reflexivity|]. split; [exact I|].
  split; [intros E; rewrite E in T; discriminate|].
  split; [exact D|]. split; [exact V|]. split; [exact L|].
  repeat split.
Qed.

Lemma parseRequest_outputLang {number} (body : json number) p l :
  parseRequest body = Some p -> Parsed.outputLang p = Some l ->
  l = js "en" \/ l = js "ar".
Proof.
  intros Q E. destruct (parseRequest_fields _ _ Q) as (o & _ & _ & _ & _ & _
    & L & _).
  rewrite E in L. apply optional_enum in L. destruct L as [_ [<-|[<-|[]]]];
    [now left | now right].
Qed.

(** What the hints schema returns, field by field. *)
Lemma parseHints_fields {number} (o : object number) h :
  parseHints o = Some h ->
  Schema.optional (Schema.enum allowed) (prop o (js "siteType"))
  = Some (Hints.siteType h)
  /\ Schema.optional (Schema.enum (jsl ["en"; "ar"]))
       (prop o (js "outputLang"))
     = Some (Hints.outputLang h)
  /\ Schema.optional Schema.string (prop o (js "currency"))
     = Some (Hints.currency h)
  /\ Schema.optional Schema.boolean (prop o (js "requiresPayments"))
     = Some (Hints.requiresPayments h)
  /\ Schema.optional Schema.boolean (prop o (js "projectMode"))
     = Some (Hints.projectMode h)
  /\ Schema.optional Schema.array (prop o (js "audience"))
     = Some (Hints.audience h)
  /\ Schema.optional Schema.array (prop o (js "features"))
     = Some (Hints.features h)
  /\ Schema.optional Schema.array (prop o (js "pages"))
     = Some (Hints.pages h).
Proof.
  unfold parseHints.
  repeat match goal with
         | |- context [Schema.optional ?f (prop o ?k)] =>
             let E := fresh "E" in
             destruct (Schema.optional f (prop o k)) eqn:E; [|discriminate]
         end.
  intros [= <-]. cbn. repeat split; assumption.
Qed.

(** X20: where a hint comes from.  The four hint objects of a request
    are spread in the order [meta], [brief], [project], [hints], so for
    every key the value read is the one of the last of them that has
    it; the top-level [outputLang], when given, is written over what
    they say, and is the language the hints schema hands on. *)
Theorem X20_precedence_of_hint_sources
  {number : Type} (body : json number) (p : Parsed.t number)
  (Hparsed : parseRequest body = Some p) :
  let candidate := mergedHintsCandidate p in
  (forall l, Parsed.outputLang p = Some l ->
     prop candidate (js "outputLang") = Some (JStr l)
     /\ forall h, parseHints candidate = Some h ->
                  Hints.outputLang h = Some l)
  /\ (forall k, k <> js "outputLang" \/ Parsed.outputLang p = None ->
        prop candidate k
        = firstSome [prop (bag (Parsed.hints p)) k;
                     prop (bag (Parsed.project p)) k;
                     prop (bag (Parsed.brief p)) k;
                     prop (bag (Parsed.meta p)) k]).
Proof.
  cbv zeta. split.
  - intros l E.
    assert (I : In l (jsl ["en"; "ar"])).
    { destruct (parseRequest_outputLang _ _ _ Hparsed E) as [->| ->];
        [now left | right; now left]. }
    assert (T : truthy l = true).
    { destruct (parseRequest_outputLang _ _ _ Hparsed E) as [->| ->];
        reflexivity. }
    assert (P : prop (mergedHintsCandidate p) (js "outputLang")
                = Some (JStr l)).
    { unfold mergedHintsCandidate. rewrite E, T, !prop_app.
      cbn [prop]. now rewrite str_eqb_refl. }
    split; [exact P|]. intros h Q.
    destruct (parseHints_fields _ _ Q) as (_ & L & _).
    rewrite P in L. apply optional_enum in L.
    destruct (Hints.outputLang h) as [s|]; [|discriminate L].
    destruct L as [L _]. congruence.
  - intros k D. unfold mergedHintsCandidate. rewrite !prop_app.
    destruct D as [D|D].
    + apply str_eqb_neq in D. rewrite str_eqb_sym in D.
      destruct (Parsed.outputLang p) as [l|]; [destruct (truthy l)|];
        cbn [prop firstSome]; rewrite ?D;
        destruct (prop (bag (Parsed.hints p)) k); try reflexivity;
        destruct (prop (bag (Parsed.project p)) k); try reflexivity;
        destruct (prop (bag (Parsed.brief p)) k); try reflexivity;
        now destruct (prop (bag (Parsed.meta p)) k).
    + rewrite D. cbn [prop firstSome].
      destruct (prop (bag (Parsed.hints p)) k); [reflexivity|].
      destruct (prop (bag (Parsed.project p)) k); [reflexivity|].
      destruct (prop (bag (Parsed.brief p)) k); [reflexivity|].
      now destruct (prop (bag (Parsed.meta p)) k).
Qed.

Lemma dropWhile_app_last {A} (p : A -> bool) l c :
  p c = false -> dropWhile p (l ++ [c]) <> [].
Proof.
  intros H. induction l as [|y l IH]; simpl.
  - now rewrite H.
  - destruct (p y); [exact IH | discriminate].
Qed.

Lemma trim_cons c s : isSpace c = false -> trim (c :: s) <> [].
Proof.
  intros H. unfold trim. cbn [dropWhile]. rewrite H.
  unfold dropWhileEnd. cbn [rev]. intros E.
  apply (f_equal (@rev _)) in E. rewrite rev_involutive in E.
  exact (dropWhile_app_last isSpace (rev s) c H E).
Qed.

Lemma wordCount_wordStarts raw : wordCount raw = wordStarts true (trim raw).
Proof.
  unfold wordCount, idea.
  destruct (trim raw) eqn:T; [reflexivity|]. rewrite <- T.
  now rewrite splitRuns_words.
Qed.

Lemma siteTypeName_plain ty :
  plain (siteTypeName ty) = true
  /\ map lowerUnit (siteTypeName ty) = siteTypeName ty
  /\ truthy (siteTypeName ty) = true
  /\ allowedSiteType (siteTypeName ty) = Some ty.
Proof. destruct ty; vm_compute; repeat split. Qed.

Lemma siteType_hint_allowed toLowerCase raw hints ty :
  lowersPlainText toLowerCase ->
  hint Hints.siteType hints = Some (siteTypeName ty) ->
  siteType toLowerCase raw hints = ty.
Proof.
  intros Hlower E.
  destruct (siteTypeName_plain ty) as (P & M & T & A).
  unfold siteType. now rewrite E, (Hlower _ P), M, T, A.
Qed.

(** X21: what the handler hands to the engine.  The idea is never
    blank: it is the trimmed text cut to its first 4000 code units, it
    starts with no white space and counts at least one word.  A
    [siteType] among the hints is one of the eight names, so it always
    decides the site type; an [outputLang] is "en" or "ar", and the
    output is Arabic exactly when it is "ar". *)
Theorem X21_what_reaches_the_engine
  (toLowerCase : jsstring -> jsstring)
  (inherited : jsstring -> option jsstring)
  (Hlower : lowersPlainText toLowerCase)
  {number : Type} (body : json number) (p : Parsed.t number)
  (h : option Hints.t)
  (Hparsed : parseRequest body = Some p)
  (Hhints : hintsOf (mergedHintsCandidate p) = Some h)
  (clock : nat -> Z) :
  let raw := truncatedOf p in
  let d := details (improveIdea toLowerCase inherited raw h clock) in
  trim raw <> []
  /\ (List.length raw <= 4000)%nat
  /\ (forall c, hd_error raw = Some c -> isSpace c = false)
  /\ (1 <= Details.wordCount d <= Details.ideaLength d)%nat
  /\ (Details.ideaLength d <= 4000)%nat
  /\ (forall t, hint Hints.siteType h = Some t ->
        exists ty, t = siteTypeName ty /\ Details.siteType d = ty)
  /\ (hint Hints.outputLang h = Some (js "ar") /\ Details.outputLang d = ar
      \/ (hint Hints.outputLang h = Some (js "en")
          \/ hint Hints.outputLang h = None)
         /\ Details.outputLang d = en).
Proof.
  cbv zeta.
  cbn [details improveIdea detailsOf Details.wordCount Details.ideaLength
         Details.siteType Details.outputLang].
  destruct (parseRequest_fields _ _ Hparsed) as (_ & _ & _ & Hidea & _).
  pose proof (trim_head (Parsed.idea p)) as Hhead.
  unfold truncatedOf.
  destruct (trim (Parsed.idea p)) as [|c s] eqn:T; [contradiction|].
  specialize (Hhead c eq_refl).
  change 4000%nat with (S 3999). generalize 3999%nat. intros n.
  rewrite firstn_cons. set (raw := c :: firstn n s).
  assert (Hraw : trim raw <> []) by now apply trim_cons.
  assert (Hlen : (List.length raw <= S n)%nat).
  { unfold raw. cbn [List.length]. rewrite length_firstn. lia. }
  split; [exact Hraw|]. split; [exact Hlen|].
  split; [now intros c' [= <-]|].
  assert (Htrim : (List.length (trim raw) <= List.length raw)%nat).
  { unfold trim.
    destruct (dropWhile_suffix isSpace raw) as [a Ea].
    destruct (dropWhileEnd_prefix isSpace (dropWhile isSpace raw))
      as [b Eb].
    rewrite Ea at 2. rewrite Eb at 2. rewrite !length_app. lia. }
  split.
  { rewrite wordCount_wordStarts. unfold idea. split.
    - pose proof (trim_head raw) as Hh.
      destruct (trim raw) as [|c' s']; [contradiction|].
      cbn [wordStarts]. rewrite (Hh c' eq_refl). simpl. lia.
    - apply wordStarts_le. }
  split; [unfold idea; lia|].
  assert (F : forall hh, h = Some hh ->
                parseHints (mergedHintsCandidate p) = Some hh).
  { intros hh ->. unfold hintsOf in Hhints.
    destruct (mergedHintsCandidate p); [discriminate|].
    destruct (parseHints _); [congruence | discriminate]. }
  split.
  - intros t E. destruct h as [hh|]; [|discriminate].
    destruct (parseHints_fields _ _ (F _ eq_refl)) as (S & _).
    cbn [hint] in E. rewrite E in S. apply optional_enum in S.
    destruct S as [_ S]. apply in_map_iff in S. destruct S as (ty & <- & _).
    exists ty. split; [reflexivity|].
    now apply siteType_hint_allowed.
  - unfold lang. destruct h as [hh|]; [|right; auto].
    destruct (parseHints_fields _ _ (F _ eq_refl)) as (_ & L & _).
    apply optional_enum in L. cbn [hint].
    destruct (Hints.outputLang hh) as [l|]; [|right; auto].
    destruct L as [_ [<-|[<-|[]]]]; [right | left]; auto.
Qed.


(** ** The route at work *)

Lemma emptyStore_ok : storeOk emptyStore.
Proof.
  split; [split; [constructor | intros ip e; discriminate] | constructor].
Qed.

(** X16 at work: the first request on the empty store. *)
Lemma X16_witness :
  let st' :=
    snd (POST toLowerCasePlain noInherited Z ideaKey emptyStore shopRequest
           ticking) in
  storeOk st'
  /\ (exists l, JsMap.keys (cache st') = JsMap.keys (cache emptyStore) ++ l
                /\ (List.length l <= 1)%nat)
  /\ (exists l, JsMap.keys (rateMap st') = JsMap.keys (rateMap emptyStore) ++ l
                /\ (List.length l <= 1)%nat).
Proof.
  exact (X16_maps_only_grow toLowerCasePlain noInherited Z ideaKey emptyStore
           shopRequest ticking emptyStore_ok).
Defined.

(** X18 at work: the same body half a second later, from another
    address. *)
Lemma X18_witness :
  let st' :=
    snd (POST toLowerCasePlain noInherited Z ideaKey emptyStore shopRequest
           ticking) in
  fst (POST toLowerCasePlain noInherited Z ideaKey st'
         (Request.mk (Some shopBody) None None) (tickingFrom 500))
  = Ok200 (computed toLowerCasePlain noInherited Z shopParsed None ticking)
  /\ cache (snd (POST toLowerCasePlain noInherited Z ideaKey st'
                   (Request.mk (Some shopBody) None None) (tickingFrom 500)))
     = cache st'.
Proof.
  refine (X18_cached_answer_is_served_again toLowerCasePlain noInherited Z
            ideaKey emptyStore shopRequest
            (Request.mk (Some shopBody) None None) ticking (tickingFrom 500)
            (computed toLowerCasePlain noInherited Z shopParsed None ticking)
            _ _ _ _ _).
  - intros k e; discriminate.
  - vm_compute; reflexivity.
  - reflexivity.
  - reflexivity.
  - vm_compute; reflexivity.
Defined.

(** X19 at work: the same body a minute later. *)
Lemma X19_witness :
  let st' :=
    snd (POST toLowerCasePlain noInherited Z ideaKey emptyStore shopRequest
           ticking) in
  exists p h,
    parseRequest (bodyOf shopRequest) = Some p
    /\ hintsOf (mergedHintsCandidate p) = Some h
    /\ computed toLowerCasePlain noInherited Z shopParsed None ticking
       = computed toLowerCasePlain noInherited Z p h ticking
    /\ fst (POST toLowerCasePlain noInherited Z ideaKey st' shopRequest
              (tickingFrom 60000))
       = Ok200 (computed toLowerCasePlain noInherited Z p h
                  (tickingFrom 60000))
    /\ JsMap.keys
         (cache (snd (POST toLowerCasePlain noInherited Z ideaKey st'
                        shopRequest (tickingFrom 60000))))
       = JsMap.keys (cache st').
Proof.
  refine (X19_expired_answer_is_computed_again toLowerCasePlain noInherited Z
            ideaKey emptyStore shopRequest shopRequest ticking
            (tickingFrom 60000)
            (computed toLowerCasePlain noInherited Z shopParsed None ticking)
            _ _ _ _ _).
  - intros k e; discriminate.
  - vm_compute; reflexivity.
  - reflexivity.
  - discriminate.
  - vm_compute; reflexivity.
Defined.

(** X20 at work: [meta] and [hints] disagree on the site type, [hints]
    and the request on the language. *)
Lemma X20_witness :
  let candidate := mergedHintsCandidate blogParsed in
  (forall l, Parsed.outputLang blogParsed = Some l ->
     prop candidate (js "outputLang") = Some (JStr l)
     /\ forall h, parseHints candidate = Some h ->
                  Hints.outputLang h = Some l)
  /\ (forall k, k <> js "outputLang" \/ Parsed.outputLang blogParsed = None ->
        prop candidate k
        = firstSome [prop (bag (Parsed.hints blogParsed)) k;
                     prop (bag (Parsed.project blogParsed)) k;
                     prop (bag (Parsed.brief blogParsed)) k;
                     prop (bag (Parsed.meta blogParsed)) k]).
Proof.
  refine (X20_precedence_of_hint_sources blogBody blogParsed _).
  vm_compute; reflexivity.
Defined.

(** X21 at work: the same request reaches the engine as a blog in
    Arabic. *)
Lemma X21_witness :
  let raw := truncatedOf blogParsed in
  let d :=
    details (improveIdea toLowerCasePlain noInherited raw (Some blogHints)
               frozen) in
  trim raw <> []
  /\ (List.length raw <= 4000)%nat
  /\ (forall c, hd_error raw = Some c -> isSpace c = false)
  /\ (1 <= Details.wordCount d <= Details.ideaLength d)%nat
  /\ (Details.ideaLength d <= 4000)%nat
  /\ (forall t, hint Hints.siteType (Some blogHints) = Some t ->
        exists ty, t = siteTypeName ty /\ Details.siteType d = ty)
  /\ (hint Hints.outputLang (Some blogHints) = Some (js "ar")
      /\ Details.outputLang d = ar
      \/ (hint Hints.outputLang (Some blogHints) = Some (js "en")
          \/ hint Hints.outputLang (Some blogHints) = None)
         /\ Details.outputLang d = en).
Proof.
  refine (X21_what_reaches_the_engine toLowerCasePlain noInherited
            toLowerCasePlain_lowers blogBody blogParsed (Some blogHints)
            _ _ frozen).
  - vm_compute; reflexivity.
  - vm_compute; reflexivity.
Defined.

(** ** The cache is transparent *)

Lemma hintsOf_readHints {number} (candidate : object number) :
  readHints (match candidate with [] => None | _ => Some candidate end)
  = hintsOf candidate.
Proof. now destruct candidate. Qed.

Section Transparent.

Variable toLowerCase : jsstring -> jsstring.
Variable inherited : jsstring -> option jsstring.
Variable number : Type.
Variable cacheKey : jsstring -> option (object number) -> bool -> jsstring.

Hypothesis Hkey : tellsApart cacheKey.

Lemma keyOf_inj p h p' h' :
  hintsOf (mergedHintsCandidate p) = Some h ->
  hintsOf (mergedHintsCandidate p') = Some h' ->
  keyOf number cacheKey p = keyOf number cacheKey p' ->
  truncatedOf p = truncatedOf p'
  /\ includeDetailsOf p = includeDetailsOf p' /\ h = h'.
Proof.
  intros H H' K. rewrite <- hintsOf_readHints in H, H'.
  exact (Hkey _ _ _ _ _ _ _ _ H H' K).
Qed.

Lemma computed_output p h clock any :
  payloadImproved (computed toLowerCase inherited number p h clock)
  = improved (improveIdea toLowerCase inherited (truncatedOf p) h any)
  /\ payloadDetails (computed toLowerCase inherited number p h clock)
     = if includeDetailsOf p
       then Some (details (improveIdea toLowerCase inherited (truncatedOf p)
                             h any))
       else None.
Proof. split; reflexivity. Qed.

(** X22: the cache does not change what is answered.  When the cache
    key tells its inputs apart and every entry of the cache is a
    response computed for its key, the same holds after any request,
    and a request answered 200 gets the improved text, and the details
    if it asked for them, that the engine computes for its idea and
    hints, whether the answer comes from the cache or not; only
    [processingMs] may be that of an earlier computation. *)
Theorem X22_the_cache_is_transparent
  (st : Store) (req : Request.t number) (clock : nat -> Z)
  (Hsound : cacheSound toLowerCase inherited number cacheKey (cache st)) :
  let answer := POST toLowerCase inherited number cacheKey st req clock in
  cacheSound toLowerCase inherited number cacheKey (cache (snd answer))
  /\ forall response, fst answer = Ok200 response ->
       exists p h,
         parseRequest (bodyOf req) = Some p
         /\ hintsOf (mergedHintsCandidate p) = Some h
         /\ forall any,
              let out :=
                improveIdea toLowerCase inherited (truncatedOf p) h any in
              payloadImproved response = improved out
              /\ payloadDetails response
                 = if includeDetailsOf p then Some (details out) else None.
Proof.
  cbv zeta.
  destruct (POST_cases toLowerCase inherited number cacheKey st req clock)
    as [(_ & E)
       |(p & Q & [(r & _ & E)
                 |(rm & _ & [(_ & E)
                            |(h & Hh & [(e & G & _ & E)|(_ & E)])])])];
    rewrite E; cbn [fst snd cache]; (split; [|try discriminate]);
    try exact Hsound.
  - intros response [= <-]. exists p, h.
    split; [exact Q|]. split; [exact Hh|]. intros any.
    destruct (Hsound _ _ G) as (p0 & h0 & clock0 & K & Hh0 & V).
    rewrite V.
    destruct (keyOf_inj _ _ _ _ Hh Hh0 K) as (T & D & <-).
    rewrite T, D. apply computed_output.
  - intros k e G.
    destruct (str_eq_dec k (keyOf number cacheKey p)) as [->|D].
    + rewrite get_set_same in G. injection G as <-.
      exists p, h, clock. auto.
    + rewrite (get_set_other _ _ _ _ D) in G. eauto.
  - intros response [= <-]. exists p, h.
    split; [exact Q|]. split; [exact Hh|]. intros any.
    apply computed_output.
Qed.

End Transparent.

(** The key that writes its parts out tells them apart. *)

Lemma app_same_length {A} (a b r s : list A) :
  List.length a = List.length b -> a ++ r = b ++ s -> a = b /\ r = s.
Proof.
  revert b. induction a as [|x a IH]; intros [|y b]; simpl;
    try discriminate; [auto|].
  intros [= L] [= <- E]. destruct (IH _ L E) as [<- <-]. auto.
Qed.

Lemma ofBool_prefixFree : Key.prefixFree Key.ofBool.
Proof. intros [|] [|] r s; simpl; intros [= E]; auto. Qed.

Lemma ofString_prefixFree : Key.prefixFree Key.ofString.
Proof.
  intros a b r s. unfold Key.ofString. simpl. intros [= L E].
  apply Nat2N.inj in L. now apply app_same_length.
Qed.

Lemma ofStrings_prefixFree (a b : list jsstring) r s :
  List.length a = List.length b ->
  List.concat (map Key.ofString a) ++ r
  = List.concat (map Key.ofString b) ++ s ->
  a = b /\ r = s.
Proof.
  revert b. induction a as [|x a IH]; intros [|y b]; simpl;
    try discriminate; [auto|].
  intros [= L]. rewrite <- !app_assoc. intros E.
  apply ofString_prefixFree in E. destruct E as [<- E].
  destruct (IH _ L E) as [<- <-]. auto.
Qed.

Lemma ofList_prefixFree : Key.prefixFree Key.ofList.
Proof.
  intros a b r s. unfold Key.ofList. simpl. intros [= L E].
  apply Nat2N.inj in L. now apply ofStrings_prefixFree.
Qed.

Lemma ofOption_prefixFree {A} (f : A -> jsstring) :
  Key.prefixFree f -> Key.prefixFree (Key.ofOption f).
Proof.
  intros F [a|] [b|] r s; simpl; try discriminate.
  - intros [= E]. apply F in E. destruct E as [<- <-]. auto.
  - intros [= <-]. auto.
Qed.

Lemma ofHints_prefixFree : Key.prefixFree Key.ofHints.
Proof.
  intros a b r s. unfold Key.ofHints. cbn [List.concat].
  rewrite <- !app_assoc. intros E.
  repeat match type of E with
         | Key.ofOption Key.ofList _ ++ _ = _ =>
             apply (ofOption_prefixFree _ ofList_prefixFree) in E;
             let F := fresh "F" in destruct E as [F E]
         | Key.ofOption Key.ofString _ ++ _ = _ =>
             apply (ofOption_prefixFree _ ofString_prefixFree) in E;
             let F := fresh "F" in destruct E as [F E]
         | Key.ofOption Key.ofBool _ ++ _ = _ =>
             apply (ofOption_prefixFree _ ofBool_prefixFree) in E;
             let F := fresh "F" in destruct E as [F E]
         end.
  simpl in E. destruct a, b. cbn in *. subst. auto.
Qed.

Lemma written_tellsApart {number} : tellsApart (@Key.written number).
Proof.
  intros i c d h i' c' d' h' R R'. unfold Key.written. rewrite R, R'.
  intros E. apply ofBool_prefixFree in E. destruct E as [<- E].
  apply (ofOption_prefixFree _ (ofOption_prefixFree _ ofHints_prefixFree))
    in E.
  destruct E as [[= <-] <-]. auto.
Qed.

(** X22 at work, under the key that writes its parts out: the first
    request on the empty store fills the cache, and the same body half a
    second later is served from it.  The answer carries the processing
    time of the first computation, 1 ms, where the second clock would
    have measured 10 ms, and it is what the engine computes. *)
Lemma X22_witness :
  let st :=
    snd (POST toLowerCasePlain noInherited Z Key.written emptyStore
           shopRequest ticking) in
  let answer :=
    POST toLowerCasePlain noInherited Z Key.written st shopRequest
      (tickingBy 10 500) in
  (fst answer
   = Ok200 (computed toLowerCasePlain noInherited Z shopParsed None ticking)
   /\ payloadProcessingMs
        (computed toLowerCasePlain noInherited Z shopParsed None ticking)
      = 1%Z
   /\ payloadProcessingMs
        (computed toLowerCasePlain noInherited Z shopParsed None
           (tickingBy 10 500))
      = 10%Z)
  /\ cacheSound toLowerCasePlain noInherited Z Key.written
       (cache (snd answer))
  /\ forall response, fst answer = Ok200 response ->
       exists p h,
         parseRequest (bodyOf shopRequest) = Some p
         /\ hintsOf (mergedHintsCandidate p) = Some h
         /\ forall any,
              let out :=
                improveIdea toLowerCasePlain noInherited (truncatedOf p) h
                  any in
              payloadImproved response = improved out
              /\ payloadDetails response
                 = if includeDetailsOf p then Some (details out) else None.
Proof.
  assert (Hempty : cacheSound toLowerCasePlain noInherited Z Key.written
                     (cache emptyStore))
    by (intros k e; discriminate).
  pose proof (X22_the_cache_is_transparent toLowerCasePlain noInherited Z
                Key.written written_tellsApart emptyStore shopRequest ticking
                Hempty) as First.
  cbv zeta in First. destruct First as [Hsound _].
  cbv zeta. split; [repeat split; vm_compute; reflexivity|].
  exact (X22_the_cache_is_transparent toLowerCasePlain noInherited Z
           Key.written written_tellsApart _ shopRequest (tickingBy 10 500)
           Hsound).
Defined.
